(** * MEGA-FLOWZ pyramid engine: a shallow embedding and its properties

    The development follows [src/pyramid_engine.py], [src/config.py], the
    fetcher of [src/mt5_connector.py], the period extraction of
    [src/web_dashboard.py] and the producer cycle of [src/main_launcher.py].

    Conventions of the embedding.
    - A pandas [Timestamp] is the number of seconds since the epoch, a [Z]
      (the fetcher builds the column with [unit='s']); [timedelta(minutes=m)]
      is [60 * m] seconds.
    - A Python [float] is idealised as an exact rational, a [Q].  A value that
      can be [NaN] is an [option Q], with [None] for [NaN]; the only [NaN]s of
      this program are those of [shift] and [diff].  A Series division whose
      divisor is zero yields no finite number and is [None] as well.
    - A [DataFrame] is the list of its rows in storage order, with the
      [RangeIndex] that [reset_index(drop=True)] leaves: the label of a row is
      its position.
    - A [dict] is a [gmap]; a raised exception is the [Raise] of [result]. *)

From Stdlib Require Import ZArith QArith Qabs Qround Qminmax Lia Lqa Ascii String List Sorted DecimalString.
From stdpp Require Import gmap strings list.

Local Open Scope Z_scope.

(** ** Exceptions *)

Inductive exn := KeyError | ValueError | ZeroDivisionError | IndexError.

Inductive result (A : Type) :=
  | Ok (a : A)
  | Raise (e : exn).
Arguments Ok {A} a.
Arguments Raise {A} e.

Definition bind {A B} (m : result A) (k : A -> result B) : result B :=
  match m with
  | Ok a => k a
  | Raise e => Raise e
  end.

Notation "x <-! m ;; k" := (bind m (fun x => k))
  (at level 100, m at next level, right associativity).

(** [for x in l: ...] collecting one value per element, stopping at the first
    exception. *)
Definition mapM {A B} (f : A -> result B) : list A -> result (list B) :=
  fix go (l : list A) : result (list B) :=
    match l with
    | [] => Ok []
    | x :: l' =>
        match f x with
        | Ok y => match go l' with Ok ys => Ok (y :: ys) | Raise e => Raise e end
        | Raise e => Raise e
        end
    end.

(** ** config.py *)

Module config.

Definition ALL_TIMEFRAMES : list string :=
  ["D1"; "H4"; "H1"; "M15"; "M5"; "M1"]%string.

Definition TIMEFRAME_DURATIONS : gmap string Z :=
  list_to_map
    [("D1", 1440); ("H4", 240); ("H1", 60); ("M15", 15); ("M5", 5); ("M1", 1)]%string.

Definition DEFAULT_SETTINGS_extract_count : Z := 10.

(** [CHART_CONFIG['time_range_formats']]. *)
Definition time_range_formats : gmap string string :=
  list_to_map
    [("M1", "%H:%M"); ("M5", "%H:%M"); ("M15", "%H:%M");
     ("H1", "%H:%M"); ("H4", "%H:%M"); ("D1", "%Y-%m-%d")]%string.

(** The hierarchy of each pyramid style (each entry of [PYRAMID_STYLES]
    pairs it with a display name, which only the log reads). *)
Definition PYRAMID_STYLES : list (string * list string) :=
  [("scalper", ["M15"; "M5"; "M1"]);
   ("intraday", ["H1"; "M15"; "M5"; "M1"]);
   ("swing", ["H4"; "H1"; "M15"; "M5"; "M1"]);
   ("daily", ["D1"; "H4"; "H1"; "M15"; "M5"; "M1"])]%string.

Definition SYMBOL_SUFFIXES : list string := [""; "m"; "c"]%string.

End config.

(** ** Numbers *)

Definition Qltb (a b : Q) : bool := negb (Qle_bool b a).

(** The literal [0.00001]. *)
Definition epsilon : Q := 1 # 100000.

(** Python's [a / b] on floats. *)
Definition py_div (a b : Q) : result Q :=
  if Qeq_bool b 0 then Raise ZeroDivisionError else Ok (a / b)%Q.

Definition Qsum (l : list Q) : Q := fold_right Qplus 0%Q l.

Definition Qmean (l : list Q) : Q := (Qsum l / inject_Z (Z.of_nat (length l)))%Q.

(** ** The pandas operations the engine uses *)

Module pd.

(** A Series of floats; [None] is [NaN]. *)
Definition Series := list (option Q).

Definition lift2 (f : Q -> Q -> Q) (a b : option Q) : option Q :=
  match a, b with
  | Some x, Some y => Some (f x y)
  | _, _ => None
  end.

Definition sub (a b : Series) : Series := zip_with (lift2 Qminus) a b.
Definition add (a b : Series) : Series := zip_with (lift2 Qplus) a b.
Definition abs (a : Series) : Series := map (option_map Qabs) a.
Definition neg (a : Series) : Series := map (option_map Qopp) a.

(** Elementwise [a / b]: no finite value when the divisor is zero. *)
Definition div1 (a b : option Q) : option Q :=
  match a, b with
  | Some x, Some y => if Qeq_bool y 0 then None else Some (x / y)%Q
  | _, _ => None
  end.
Definition div (a b : Series) : Series := zip_with div1 a b.

(** [s.shift(k)] for [k >= 0]. *)
Definition shift (k : nat) (s : Series) : Series :=
  firstn (length s) (repeat None k ++ s).

(** [s.diff()]. *)
Definition diff (s : Series) : Series := sub s (shift 1 s).

(** [s.replace(0, v)]. *)
Definition replace0 (v : Q) (x : option Q) : option Q :=
  match x with
  | Some q => if Qeq_bool q 0 then Some v else Some q
  | None => None
  end.
Definition replace (v : Q) (s : Series) : Series := map (replace0 v) s.

(** [s.where(cond, 0)] with [cond] a comparison of [s] itself: a comparison
    with [NaN] is false. *)
Definition where0 (cond : Q -> bool) (x : option Q) : option Q :=
  match x with
  | Some q => if cond q then Some q else Some 0%Q
  | None => Some 0%Q
  end.

(** The rows [i - w + 1 .. i] of a Series, clipped at the start. *)
Definition window (w : nat) (i : nat) (s : Series) : Series :=
  skipn (S i - w) (firstn (S i) s).

(** The observations of a window: its entries that are not [NaN]. *)
Definition observations (s : Series) : list Q := omap id s.

(** [s.rolling(window=w, min_periods=1)] followed by an aggregation [agg] of
    the observations; a window without any observation gives [NaN].  pandas
    raises [ValueError] when [w < 1] (a negative window, or [min_periods]
    above the window). *)
Definition rolling (agg : list Q -> Q) (w : Z) (s : Series) : result Series :=
  if w <? 1 then Raise ValueError
  else Ok (map (fun i =>
                  match observations (window (Z.to_nat w) i s) with
                  | [] => None
                  | obs => Some (agg obs)
                  end) (seq 0 (length s))).

Definition Qmin_list (l : list Q) : Q :=
  match l with
  | [] => 0%Q
  | x :: l' => fold_left (fun m y => if Qltb y m then y else m) l' x
  end.

Definition Qmax_list (l : list Q) : Q :=
  match l with
  | [] => 0%Q
  | x :: l' => fold_left (fun m y => if Qltb m y then y else m) l' x
  end.

Definition rolling_mean := rolling Qmean.
Definition rolling_min := rolling Qmin_list.
Definition rolling_max := rolling Qmax_list.

(** [s.ewm(span=span, adjust=False).mean()] on a Series without [NaN]:
    [y0 = x0] and [y_t = (1 - a) * y_(t-1) + a * x_t] with [a = 2 / (span + 1)].
    pandas raises [ValueError] unless [span >= 1]. *)
Fixpoint ewm_from (a : Q) (prev : Q) (s : list Q) : list Q :=
  match s with
  | [] => []
  | x :: s' =>
      let y := ((1 - a) * prev + a * x)%Q in
      y :: ewm_from a y s'
  end.

Definition ewm_mean (span : Z) (s : list Q) : result (list Q) :=
  if span <? 1 then Raise ValueError
  else Ok (match s with
           | [] => []
           | x :: s' => x :: ewm_from (2 / (inject_Z span + 1))%Q x s'
           end).

(** Row-wise [max(axis=1)] of a list of columns, skipping [NaN]. *)
Definition max_skipna (xs : list (option Q)) : option Q :=
  match observations xs with
  | [] => None
  | obs => Some (Qmax_list obs)
  end.

(** [s.ffill()] and [s.bfill()]. *)
Fixpoint ffill_from (last : option Q) (s : Series) : Series :=
  match s with
  | [] => []
  | Some x :: s' => Some x :: ffill_from (Some x) s'
  | None :: s' => last :: ffill_from last s'
  end.
Definition ffill (s : Series) : Series := ffill_from None s.
Definition bfill (s : Series) : Series := rev (ffill (rev s)).

End pd.

(** ** Candle series *)

(** A row of the frame the fetcher returns. *)
Module Candle.
Record t := mk {
  time : Z;
  open : Q;
  high : Q;
  low : Q;
  close : Q;
  tick_volume : Z
}.
End Candle.

(** The ["Dir"] symbols: green, red and white circles. *)
Inductive direction := DirUp | DirDown | DirFlat.

(** A row after [calculate_momentum_analysis]. *)
Module ARow.
Record t := mk {
  row : Candle.t;
  Momentum : Q;
  Dir : direction;
  Momentum_Acceleration : option Q;
  Wick_Ratio : option Q;
  Body_Strength : option Q;
  ATR : option Q
}.
Definition time (a : t) : Z := Candle.time (row a).
End ARow.

(** [fetch_timeframe_data], lines 163-167: the rates come back as a frame
    sorted by time, newest first, with a fresh index.  The sort is pandas'
    default, which is not stable; the model sorts by insertion, and the
    results below use only that the outcome is a permutation in descending
    order. *)
Fixpoint insert_desc (r : Candle.t) (l : list Candle.t) : list Candle.t :=
  match l with
  | [] => [r]
  | x :: l' =>
      if Candle.time x <=? Candle.time r then r :: x :: l'
      else x :: insert_desc r l'
  end.

Definition sort_values_time_desc (l : list Candle.t) : list Candle.t :=
  fold_right insert_desc [] l.

Definition fetch_frame (utc_offset : Z) (rates : list Candle.t) : list Candle.t :=
  sort_values_time_desc
    (map (fun r => Candle.mk (Candle.time r + 3600 * utc_offset) (Candle.open r)
                     (Candle.high r) (Candle.low r) (Candle.close r) (Candle.tick_volume r))
         rates).

(** ** calculate_momentum_analysis *)

Section MomentumAnalysis.
Variable df : list Candle.t.

Definition col (f : Candle.t -> Q) : pd.Series := map (fun r => Some (f r)) df.

Definition Momentum_col : list Q := map (fun r => (Candle.close r - Candle.open r)%Q) df.

Definition Dir_of (x : Q) : direction :=
  if Qltb 0 x then DirUp else if Qltb x 0 then DirDown else DirFlat.

Definition Dir_col : list direction := map Dir_of Momentum_col.

Definition Momentum_Acceleration_col : pd.Series :=
  pd.sub (pd.sub (col Candle.close) (pd.shift 1 (col Candle.close)))
         (pd.sub (pd.shift 1 (col Candle.close)) (pd.shift 2 (col Candle.close))).

Definition denominator : pd.Series :=
  pd.replace epsilon (pd.sub (col Candle.close) (col Candle.low)).

Definition Wick_Ratio_col : pd.Series :=
  pd.abs (pd.div (pd.sub (col Candle.high) (col Candle.close)) denominator).

Definition range_denominator : pd.Series :=
  pd.replace epsilon (pd.sub (col Candle.high) (col Candle.low)).

Definition Body_Strength_col : pd.Series :=
  pd.div (pd.abs (pd.sub (col Candle.close) (col Candle.open))) range_denominator.

Definition true_range : pd.Series :=
  let hl := pd.sub (col Candle.high) (col Candle.low) in
  let hc := pd.abs (pd.sub (col Candle.high) (pd.shift 1 (col Candle.close))) in
  let lc := pd.abs (pd.sub (col Candle.low) (pd.shift 1 (col Candle.close))) in
  zip_with (fun a bc => pd.max_skipna [a; fst bc; snd bc]) hl (zip hc lc).

Definition ATR_col : pd.Series :=
  match pd.rolling_mean 14 true_range with
  | Ok s => s
  | Raise _ => []
  end.

End MomentumAnalysis.

(** The frame with its new columns, row by row. *)
Fixpoint assemble (df : list Candle.t) (m : list Q) (d : list direction)
    (acc w b atr : pd.Series) : list ARow.t :=
  match df, m, d, acc, w, b, atr with
  | r :: df', x :: m', y :: d', a :: acc', ww :: w', bb :: b', t :: atr' =>
      ARow.mk r x y a ww bb t :: assemble df' m' d' acc' w' b' atr'
  | _, _, _, _, _, _, _ => []
  end.

Definition calculate_momentum_analysis (df : list Candle.t) : list ARow.t :=
  assemble df (Momentum_col df) (Dir_col df) (Momentum_Acceleration_col df)
    (Wick_Ratio_col df) (Body_Strength_col df) (ATR_col df).

(** ** Text rendering *)

Definition str_of_nonneg (n : Z) : string :=
  NilZero.string_of_uint (N.to_uint (Z.to_N n)).

(** Zero padding on the left up to [width] characters. *)
Definition zfill (width : nat) (s : string) : string :=
  String.concat "" (repeat "0"%string (width - String.length s)) ++ s.

(** Rounding to the nearest integer, ties to even. *)
Definition round_half_even (q : Q) : Z :=
  let f := Qfloor q in
  match Qcompare (q - inject_Z f) (1 # 2) with
  | Lt => f
  | Gt => f + 1
  | Eq => if Z.even f then f else f + 1
  end.

(** [round(x, 5)]. *)
Definition round5 (x : Q) : Q :=
  (inject_Z (round_half_even (x * 100000)) / 100000)%Q.

(** The digits of [format(x, '.<d>f')] without its sign. *)
Definition fixed_digits (d : nat) (x : Q) : string :=
  let scale := 10 ^ Z.of_nat d in
  let n := round_half_even (Qabs x * inject_Z scale) in
  let whole := str_of_nonneg (n / scale) in
  match d with
  | O => whole
  | _ => whole ++ "." ++ zfill d (str_of_nonneg (n mod scale))
  end.

(** [f"{x:.<d>f}"] and [f"{x:+.<d>f}"]. *)
Definition format_f (d : nat) (x : Q) : string :=
  (if Qltb x 0 then "-" else "") ++ fixed_digits d x.
Definition format_plus_f (d : nat) (x : Q) : string :=
  (if Qltb x 0 then "-" else "+") ++ fixed_digits d x.
(** [f"{x:.0%}"]. *)
Definition format_percent0 (x : Q) : string :=
  format_f 0 (x * 100) ++ "%".

(** Days since the epoch to the civil date (year, month, day). *)
Definition civil_from_days (days : Z) : Z * Z * Z :=
  let z := days + 719468 in
  let era := z / 146097 in
  let doe := z - era * 146097 in
  let yoe := (doe - doe / 1460 + doe / 36524 - doe / 146096) / 365 in
  let doy := doe - (365 * yoe + yoe / 4 - yoe / 100) in
  let mp := (5 * doy + 2) / 153 in
  let d := doy - (153 * mp + 2) / 5 + 1 in
  let m := if mp <? 10 then mp + 3 else mp - 9 in
  let y := yoe + era * 400 in
  (if m <=? 2 then y + 1 else y, m, d).

(** [t.strftime(fmt)] for the directives of [config.time_range_formats]. *)
Fixpoint strftime (fmt : string) (t : Z) : string :=
  match fmt with
  | String "%"%char (String c fmt') =>
      let '(y, m, d) := civil_from_days (t / 86400) in
      let field :=
        if Ascii.eqb c "H"%char then zfill 2 (str_of_nonneg ((t mod 86400) / 3600))
        else if Ascii.eqb c "M"%char then zfill 2 (str_of_nonneg ((t mod 3600) / 60))
        else if Ascii.eqb c "Y"%char then str_of_nonneg y
        else if Ascii.eqb c "m"%char then zfill 2 (str_of_nonneg m)
        else if Ascii.eqb c "d"%char then zfill 2 (str_of_nonneg d)
        else String "%"%char (String c "")
      in field ++ strftime fmt' t
  | String c fmt' => String c (strftime fmt' t)
  | EmptyString => ""
  end.

(** ** get_momentum_summary *)

Definition get_momentum_summary (df : list ARow.t) (index : nat) : result string :=
  match df !! index with
  | None => Raise IndexError
  | Some row =>
      let mom_text :=
        match ARow.Momentum_Acceleration row with
        | Some x => "MOM: " ++ format_plus_f 5 x
        | None => "MOM: --"
        end in
      let wick_text :=
        match ARow.Wick_Ratio row with
        | Some x => "WICK: " ++ format_f 2 x ++ "x"
        | None => "WICK: --"
        end in
      let body_text :=
        match ARow.Body_Strength row with
        | Some x => "BODY: " ++ format_percent0 x
        | None => "BODY: --"
        end in
      let atr_text :=
        match ARow.ATR row with
        | Some x => "ATR: " ++ format_f 5 x
        | None => "ATR: --"
        end in
      Ok (mom_text ++ " | " ++ wick_text ++ " | " ++ body_text ++ " | " ++ atr_text)
  end%string.

(** ** get_time_range *)

Definition end_min : gmap string Z :=
  list_to_map [("M1", 0); ("M5", 4); ("M15", 14); ("H1", 59); ("H4", 239)]%string.

Definition get_time_range (t : Z) (tf : string) : string :=
  let fmt := default "%H:%M"%string (config.time_range_formats !! tf) in
  let start := strftime fmt t in
  if String.eqb tf "D1" then ("[" ++ start ++ "]")%string
  else
    let e := default 0 (end_min !! tf) in
    let end_ := strftime "%H:%M" (t + 60 * e) in
    if negb (String.eqb tf "M1") then ("[" ++ start ++ "-" ++ end_ ++ "]")%string
    else ("[" ++ start ++ "]")%string.

(** ** Blocks and pyramids *)

(** A block of the tree.  [time] holds the timestamp whose ISO-8601 text
    ([isoformat()]) the source stores. *)
Module Block.
#[local] Unset Elimination Schemes.
Inductive t := mk {
  tf : string;
  time : Z;
  range : string;
  O : Q;
  H : Q;
  L : Q;
  C : Q;
  volume : Z;
  dir : direction;
  momentum_summary : string;
  children : list t
}.
#[local] Set Elimination Schemes.
End Block.

(** The pyramid record.  [symbol] and [style] are [None] for Python's [None];
    [generated] holds the clock reading whose ISO-8601 text the source
    stores. *)
Module Pyramid.
Record t := mk {
  symbol : option string;
  style : option string;
  structure : list string;
  generated : Z;
  blocks : list Block.t
}.
End Pyramid.

(** ** The engine object *)

Module Engine.
Record t := mk {
  symbol : option string;
  pyramid_style : option string;
  pyramid_structure : list string;
  base_tf : option string;
  extract_count : Z;
  utc_offset : Z;
  pyramid_cache : gmap string Pyramid.t;
  raw_data_cache : gmap string (gmap string (list Candle.t));
  current_symbol : option string;
  latest_pyramid : option Pyramid.t;
  latest_raw_data : gmap string (list Candle.t)
}.
End Engine.

(** [PyramidEngine()]; [latest_pyramid = {}] is [None]. *)
Definition init : Engine.t :=
  Engine.mk None None [] None config.DEFAULT_SETTINGS_extract_count 0 ∅ ∅ None None ∅.

(** [configure_pyramid]: [pyramid_structure[0]] raises [IndexError] on an
    empty structure, after the three assignments before it. *)
Definition configure_pyramid (self : Engine.t) (symbol : string)
    (pyramid_structure : list string) (pyramid_style : string) (utc_offset : Z)
  : result Engine.t :=
  match pyramid_structure with
  | [] => Raise IndexError
  | base :: _ =>
      Ok (Engine.mk (Some symbol) (Some pyramid_style) pyramid_structure (Some base)
            (Engine.extract_count self) utc_offset
            (Engine.pyramid_cache self) (Engine.raw_data_cache self)
            (Some symbol) (Engine.latest_pyramid self) (Engine.latest_raw_data self))
  end.

(** [x or "Unknown"]: [None] and the empty string are falsy. *)
Definition or_unknown (x : option string) : option string :=
  match x with
  | None => Some "Unknown"%string
  | Some s => if String.eqb s "" then Some "Unknown"%string else Some s
  end.

Definition _create_empty_pyramid (self : Engine.t) (now : Z) : Pyramid.t :=
  Pyramid.mk (or_unknown (Engine.symbol self)) (or_unknown (Engine.pyramid_style self))
    (Engine.pyramid_structure self) now [].

(** ** build_pyramid_json *)

(** [df.iloc[:k]], a Python slice: a negative bound counts from the end. *)
Definition iloc_to {A} (k : Z) (df : list A) : list A :=
  if 0 <=? k then firstn (Z.to_nat k) df
  else firstn (Z.to_nat (Z.of_nat (length df) + k)) df.

(** [df[df["time"] == t].index[0]]: the label of the first row at time [t]. *)
Fixpoint first_index_at (t : Z) (df : list ARow.t) : result nat :=
  match df with
  | [] => Raise IndexError
  | r :: df' =>
      if ARow.time r =? t then Ok O
      else i <-! first_index_at t df' ;; Ok (S i)
  end.

Definition in_range (start end_ : Z) (r : ARow.t) : bool :=
  (start <=? ARow.time r) && (ARow.time r <? end_).

Section Build.
Variable self : Engine.t.
Variable data : gmap string (list ARow.t).

(** The block of one row; [kids] computes its children. *)
Definition block_of (tf : string) (df : list ARow.t) (row : ARow.t)
    (kids : result (list Block.t)) : result Block.t :=
  index <-! first_index_at (ARow.time row) df ;;
  summary <-! get_momentum_summary df index ;;
  children <-! kids ;;
  Ok (Block.mk tf (ARow.time row) (get_time_range (ARow.time row) tf)
        (round5 (Candle.open (ARow.row row))) (round5 (Candle.high (ARow.row row)))
        (round5 (Candle.low (ARow.row row))) (round5 (Candle.close (ARow.row row)))
        (Candle.tick_volume (ARow.row row)) (ARow.Dir row) summary children).

(** [get_children] with the levels still below the parent, that is
    [pyramid_structure[level + 1:]], in place of [level]. *)
Fixpoint get_children_below (below : list string) (parent_time : Z) (parent_tf : string)
  : result (list Block.t) :=
  match below with
  | [] => Ok []
  | child_tf :: below' =>
      match data !! child_tf with
      | None | Some [] => Ok []
      | Some df =>
          match config.TIMEFRAME_DURATIONS !! parent_tf with
          | None => Raise KeyError
          | Some minutes =>
              let start := parent_time in
              let end_ := parent_time + 60 * minutes in
              let children_df := List.filter (in_range start end_) df in
              mapM (fun row =>
                      block_of child_tf df row
                        (get_children_below below' (ARow.time row) child_tf))
                   children_df
          end
      end
  end.

Definition get_children (parent_time : Z) (parent_tf : string) (level : nat)
  : result (list Block.t) :=
  get_children_below (drop (level + 1) (Engine.pyramid_structure self))
    parent_time parent_tf.

Definition build_pyramid_json (now : Z) : result Pyramid.t :=
  match Engine.base_tf self with
  | None => Ok (_create_empty_pyramid self now)
  | Some base_tf =>
      match data !! base_tf with
      | None | Some [] => Ok (_create_empty_pyramid self now)
      | Some df =>
          let base_df := iloc_to (Engine.extract_count self) df in
          blocks <-! mapM (fun row =>
                             block_of base_tf base_df row
                               (get_children (ARow.time row) base_tf 0))
                          base_df ;;
          Ok (Pyramid.mk (Engine.symbol self) (Engine.pyramid_style self)
                (Engine.pyramid_structure self) now blocks)
      end
  end.

End Build.

(** ** Indicator periods *)

Module Periods.
Record t := mk {
  sma_periods : list Z;
  ema_periods : list Z;
  macd_fast : Z;
  macd_slow : Z;
  macd_signal : Z;
  rsi_period : Z;
  bb_period : Z;
  stoch_k : Z;
  stoch_d : Z
}.
End Periods.

(** The override dict, in insertion order (its keys are distinct). *)
Definition overrides := list (string * Z).

(** [d.get(key, dflt)]. *)
Definition dict_get (key : string) (d : overrides) (dflt : Z) : Z :=
  match List.find (fun kv => String.eqb (fst kv) key) d with
  | Some kv => snd kv
  | None => dflt
  end.

(** [[v for k, v in d.items() if k.startswith(p)]]. *)
Definition values_with_prefix (p : string) (d : overrides) : list Z :=
  map snd (List.filter (fun kv => String.prefix p (fst kv)) d).

Definition default_periods : Periods.t :=
  Periods.mk [20; 50] [12; 26] 12 26 9 14 20 14 3.

(** [_get_periods]: [None] and the empty dict are both falsy. *)
Definition _get_periods (custom_periods : option overrides) : Periods.t :=
  match custom_periods with
  | None | Some [] => default_periods
  | Some d =>
      let sma_periods := values_with_prefix "sma_period" d in
      let ema_periods := values_with_prefix "ema_period" d in
      Periods.mk
        (match sma_periods with [] => [20; 50] | _ => sma_periods end)
        (match ema_periods with [] => [12; 26] | _ => ema_periods end)
        (dict_get "macd_fast" d 12) (dict_get "macd_slow" d 26)
        (dict_get "macd_signal" d 9) (dict_get "rsi_period" d 14)
        (dict_get "bb_period" d 20) (dict_get "stoch_k" d 14)
        (dict_get "stoch_d" d 3)
  end.

(** ** calculate_support_resistance *)

Module Levels.
Record t := mk { support : list Q; resistance : list Q }.
End Levels.

(** [any(abs(level - existing) / existing < 0.001 for existing in levels)]:
    Python's float division raises on a zero level, and [any] stops at the
    first hit. *)
Fixpoint near_existing (level : Q) (levels : list Q) : result bool :=
  match levels with
  | [] => Ok false
  | existing :: rest =>
      r <-! py_div (Qabs (level - existing)) existing ;;
      if Qltb r (1 # 1000) then Ok true else near_existing level rest
  end.

(** [s.iloc[i]] for a position inside the Series. *)
Definition iloc (s : list Q) (i : nat) : Q := nth i s 0%Q.

(** [all(cmp(s[i], s[i-j]) for j in range(1, lookback+1)) and
     all(cmp(s[i], s[i+j]) for j in range(1, lookback+1))]; the loop bounds
    keep every position inside the Series. *)
Definition swing (cmp : Q -> Q -> bool) (s : list Q) (lookback i : nat) : bool :=
  forallb (fun j => cmp (iloc s i) (iloc s (i - j))) (seq 1 lookback)
  && forallb (fun j => cmp (iloc s i) (iloc s (i + j))) (seq 1 lookback).

(** [levels.append(level)] unless a recorded level is within 0.1%. *)
Definition record_level (level : Q) (levels : list Q) : result (list Q) :=
  dup <-! near_existing level levels ;;
  Ok (if dup then levels else levels ++ [level]).

(** One turn of the loop over [i]. *)
Definition sr_step (highs lows : list Q) (lookback : nat) (acc : Levels.t) (i : nat)
  : result Levels.t :=
  res <-! (if swing (fun a b => Qltb b a) highs lookback i
           then record_level (iloc highs i) (Levels.resistance acc)
           else Ok (Levels.resistance acc)) ;;
  sup <-! (if swing Qltb lows lookback i
           then record_level (iloc lows i) (Levels.support acc)
           else Ok (Levels.support acc)) ;;
  Ok (Levels.mk sup res).

Fixpoint foldM {A B} (f : B -> A -> result B) (l : list A) (b : B) : result B :=
  match l with
  | [] => Ok b
  | x :: l' => b' <-! f b x ;; foldM f l' b'
  end.

(** [sorted(l)]: ascending and stable. *)
Fixpoint insert_sorted (x : Q) (l : list Q) : list Q :=
  match l with
  | [] => [x]
  | y :: l' => if Qle_bool x y then x :: y :: l' else y :: insert_sorted x l'
  end.
Definition sorted (l : list Q) : list Q := fold_right insert_sorted [] l.

(** [l[-k:]]. *)
Definition last_n {A} (k : nat) (l : list A) : list A := skipn (length l - k) l.

Definition calculate_support_resistance (df : list Candle.t) (lookback : nat)
  : result Levels.t :=
  if (length df <? lookback * 2)%nat then Ok (Levels.mk [] [])
  else
    levels <-! foldM (sr_step (map Candle.high df) (map Candle.low df) lookback)
                 (seq lookback (length df - lookback - lookback))
                 (Levels.mk [] []) ;;
    Ok (Levels.mk (last_n 5 (sorted (Levels.support levels)))
                  (firstn 5 (sorted (Levels.resistance levels)))).

(** ** calculate_technical_indicators *)

(** A column added to the frame: floats, or the same list of levels on every
    row. *)
Inductive column :=
  | Floats (s : pd.Series)
  | LevelLists (l : list (list Q)).

(** Statements of the [try] block.  The state is the map of the columns the
    call has added so far, by name: [df[name] = ...] is an insert.  A
    statement may raise, and the columns assigned before stay in the frame. *)
Definition Try (A : Type) := gmap string column -> gmap string column * result A.

Definition ret {A} (a : A) : Try A := fun cols => (cols, Ok a).

Definition andThen {A B} (m : Try A) (k : A -> Try B) : Try B :=
  fun cols =>
    match m cols with
    | (cols', Ok a) => k a cols'
    | (cols', Raise e) => (cols', Raise e)
    end.

Notation "x <-- m ;; k" := (andThen m (fun x => k))
  (at level 100, m at next level, right associativity).
Notation "m ;;; k" := (andThen m (fun _ => k))
  (at level 100, right associativity).

Definition lift {A} (r : result A) : Try A := fun cols => (cols, r).

Definition assign (name : string) (c : column) : Try unit :=
  fun cols => (<[name := c]> cols, Ok tt).

Fixpoint for_ {A} (l : list A) (body : A -> Try unit) : Try unit :=
  match l with
  | [] => ret tt
  | x :: l' => body x ;;; for_ l' body
  end.

(** [str(n)] in an f-string. *)
Definition str_of_Z (n : Z) : string :=
  if n <? 0 then ("-" ++ str_of_nonneg (- n))%string else str_of_nonneg n.

(** [sub in s]. *)
Fixpoint contains (sub s : string) : bool :=
  String.prefix sub s
  || match s with
     | EmptyString => false
     | String _ s' => contains sub s'
     end.

Definition is_indicator_column (name : string) : bool :=
  existsb (fun indicator => contains indicator name)
    ["SMA_"; "EMA_"; "MACD"; "RSI"; "BB_"; "Stoch_"]%string.

(** [_fill_indicator_nans]. *)
Definition _fill_indicator_nans (cols : gmap string column) : gmap string column :=
  map_imap (fun name c =>
              Some (match c with
                    | Floats s => if is_indicator_column name
                                  then Floats (pd.bfill (pd.ffill s)) else c
                    | LevelLists _ => c
                    end)) cols.

Definition somes (l : list Q) : pd.Series := map Some l.

(** A scalar broadcast along a Series. *)
Definition scalar (c : Q) (like : pd.Series) : pd.Series := map (fun _ => Some c) like.

Definition mul (a b : pd.Series) : pd.Series := zip_with (pd.lift2 Qmult) a b.

(** [s.fillna(0)]. *)
Definition fillna0 (s : pd.Series) : pd.Series := map (fun x => Some (default 0%Q x)) s.

Section TechnicalIndicators.

(** [s.rolling(window=w, min_periods=1).std()], the sample standard deviation
    of each window: it takes a square root, which has no exact rational
    value, so the development is parametric in it. *)
Variable rolling_std : Z -> pd.Series -> result pd.Series.

Variable df : list Candle.t.

Definition len : Z := Z.of_nat (length df).
Definition close : list Q := map Candle.close df.

(** The RSI lines 281-288. *)
Definition rsi_delta : pd.Series := pd.diff (somes close).

Definition rsi_gain (rsi_period : Z) : result pd.Series :=
  pd.rolling_mean (Z.min rsi_period len)
    (map (pd.where0 (fun d => Qltb 0 d)) rsi_delta).

Definition rsi_loss (rsi_period : Z) : result pd.Series :=
  pd.rolling_mean (Z.min rsi_period len)
    (pd.neg (map (pd.where0 (fun d => Qltb d 0)) rsi_delta)).

Definition rsi_of (gain loss : pd.Series) : pd.Series :=
  let rs := pd.div gain (pd.replace epsilon loss) in
  pd.sub (scalar 100 rs) (pd.div (scalar 100 rs) (pd.add (scalar 1 rs) rs)).

Definition indicators_body (periods : Periods.t) : Try unit :=
  for_ (Periods.sma_periods periods) (fun sma_period =>
    s <-- lift (pd.rolling_mean (Z.min sma_period len) (somes close)) ;;
    assign ("SMA_" ++ str_of_Z sma_period) (Floats s)) ;;;
  for_ (Periods.ema_periods periods) (fun ema_period =>
    s <-- lift (pd.ewm_mean (Z.min ema_period len) close) ;;
    assign ("EMA_" ++ str_of_Z ema_period) (Floats (somes s))) ;;;
  ema_fast <-- lift (pd.ewm_mean (Z.min (Periods.macd_fast periods) len) close) ;;
  ema_slow <-- lift (pd.ewm_mean (Z.min (Periods.macd_slow periods) len) close) ;;
  let macd := zip_with Qminus ema_fast ema_slow in
  assign "MACD" (Floats (somes macd)) ;;;
  macd_signal <-- lift (pd.ewm_mean (Z.min (Periods.macd_signal periods) len) macd) ;;
  assign "MACD_Signal" (Floats (somes macd_signal)) ;;;
  assign "MACD_Histogram" (Floats (somes (zip_with Qminus macd macd_signal))) ;;;
  gain <-- lift (rsi_gain (Periods.rsi_period periods)) ;;
  loss <-- lift (rsi_loss (Periods.rsi_period periods)) ;;
  assign "RSI" (Floats (rsi_of gain loss)) ;;;
  bb_middle <-- lift (pd.rolling_mean (Z.min (Periods.bb_period periods) len) (somes close)) ;;
  assign "BB_Middle" (Floats bb_middle) ;;;
  bb_std <-- lift (rolling_std (Z.min (Periods.bb_period periods) len) (somes close)) ;;
  let band := mul (fillna0 bb_std) (scalar 2 bb_std) in
  assign "BB_Upper" (Floats (pd.add bb_middle band)) ;;;
  assign "BB_Lower" (Floats (pd.sub bb_middle band)) ;;;
  low_min <-- lift (pd.rolling_min (Z.min (Periods.stoch_k periods) len)
                      (somes (map Candle.low df))) ;;
  high_max <-- lift (pd.rolling_max (Z.min (Periods.stoch_k periods) len)
                       (somes (map Candle.high df))) ;;
  let stoch_k :=
    mul (scalar 100 low_min)
        (pd.div (pd.sub (somes close) low_min)
                (pd.replace epsilon (pd.sub high_max low_min))) in
  assign "Stoch_%K" (Floats stoch_k) ;;;
  stoch_d <-- lift (pd.rolling_mean (Z.min (Periods.stoch_d periods) len) stoch_k) ;;
  assign "Stoch_%D" (Floats stoch_d) ;;;
  sr_levels <-- lift (calculate_support_resistance df 20) ;;
  assign "Support_Levels"
    (LevelLists (repeat (Levels.support sr_levels) (length df))) ;;;
  assign "Resistance_Levels"
    (LevelLists (repeat (Levels.resistance sr_levels) (length df))) ;;;
  (fun cols => (_fill_indicator_nans cols, Ok tt)).

(** The columns the call adds to [df]: none below 20 rows; otherwise those
    assigned before the first exception, which the [except] swallows. *)
Definition calculate_technical_indicators (custom_periods : option overrides)
  : gmap string column :=
  if len <? 20 then ∅
  else fst (indicators_body (_get_periods custom_periods) ∅).

End TechnicalIndicators.

(** ** get_chart_data *)

(** A plot point; [x] is [time.timestamp() * 1000], a whole number of
    milliseconds. *)
Module Point.
Record t := mk {
  x : Z;
  y : Q;
  o : Q;
  h : Q;
  l : Q;
  c : Q;
  volume : Z
}.
End Point.

Definition point_of (row : Candle.t) : Point.t :=
  Point.mk (Candle.time row * 1000) (Candle.close row) (Candle.open row) (Candle.high row)
    (Candle.low row) (Candle.close row) (Candle.tick_volume row).

Definition get_chart_data (data : gmap string (list Candle.t)) (timeframe : string)
  : list Point.t :=
  match data !! timeframe with
  | None | Some [] => []
  | Some df => rev (map point_of df)
  end.

(** ** The multi-symbol cache *)

Definition set_pyramid_cache (c : gmap string Pyramid.t) (self : Engine.t) : Engine.t :=
  Engine.mk (Engine.symbol self) (Engine.pyramid_style self)
    (Engine.pyramid_structure self) (Engine.base_tf self) (Engine.extract_count self)
    (Engine.utc_offset self) c (Engine.raw_data_cache self)
    (Engine.current_symbol self) (Engine.latest_pyramid self)
    (Engine.latest_raw_data self).

Definition set_raw_data_cache (c : gmap string (gmap string (list Candle.t)))
    (self : Engine.t) : Engine.t :=
  Engine.mk (Engine.symbol self) (Engine.pyramid_style self)
    (Engine.pyramid_structure self) (Engine.base_tf self) (Engine.extract_count self)
    (Engine.utc_offset self) (Engine.pyramid_cache self) c
    (Engine.current_symbol self) (Engine.latest_pyramid self)
    (Engine.latest_raw_data self).

Definition set_latest (p : Pyramid.t) (r : gmap string (list Candle.t))
    (self : Engine.t) : Engine.t :=
  Engine.mk (Engine.symbol self) (Engine.pyramid_style self)
    (Engine.pyramid_structure self) (Engine.base_tf self) (Engine.extract_count self)
    (Engine.utc_offset self) (Engine.pyramid_cache self) (Engine.raw_data_cache self)
    (Engine.current_symbol self) (Some p) r.

(** [empty_pyramid['symbol'] = symbol]. *)
Definition set_symbol (symbol : string) (p : Pyramid.t) : Pyramid.t :=
  Pyramid.mk (Some symbol) (Pyramid.style p) (Pyramid.structure p)
    (Pyramid.generated p) (Pyramid.blocks p).

(** The call returns the cached object and the engine after the call; [now]
    is the clock reading a lazy initialisation stamps. *)
Definition get_pyramid_for_symbol (self : Engine.t) (symbol : string) (now : Z)
  : Pyramid.t * Engine.t :=
  match Engine.pyramid_cache self !! symbol with
  | Some p => (p, self)
  | None =>
      let empty_pyramid := set_symbol symbol (_create_empty_pyramid self now) in
      (empty_pyramid,
       set_pyramid_cache (<[symbol := empty_pyramid]> (Engine.pyramid_cache self)) self)
  end.

Definition empty_raw_data : gmap string (list Candle.t) :=
  list_to_map (map (fun tf => (tf, [])) config.ALL_TIMEFRAMES).

Definition get_raw_data_for_symbol (self : Engine.t) (symbol : string)
  : gmap string (list Candle.t) * Engine.t :=
  match Engine.raw_data_cache self !! symbol with
  | Some d => (d, self)
  | None =>
      (empty_raw_data,
       set_raw_data_cache (<[symbol := empty_raw_data]> (Engine.raw_data_cache self)) self)
  end.

(** The three statements of [update_symbol_data], lines 75, 76 and 79-81. *)
Definition store_pyramid (symbol : string) (pyramid_data : Pyramid.t)
    (self : Engine.t) : Engine.t :=
  set_pyramid_cache (<[symbol := pyramid_data]> (Engine.pyramid_cache self)) self.

Definition store_raw_data (symbol : string) (raw_data : gmap string (list Candle.t))
    (self : Engine.t) : Engine.t :=
  set_raw_data_cache (<[symbol := raw_data]> (Engine.raw_data_cache self)) self.

Definition store_latest (symbol : string) (raw_data : gmap string (list Candle.t))
    (pyramid_data : Pyramid.t) (self : Engine.t) : Engine.t :=
  if decide (Some symbol = Engine.current_symbol self)
  then set_latest pyramid_data raw_data self
  else self.

Definition update_symbol_data (self : Engine.t) (symbol : string)
    (raw_data : gmap string (list Candle.t)) (pyramid_data : Pyramid.t) : Engine.t :=
  store_latest symbol raw_data pyramid_data
    (store_raw_data symbol raw_data (store_pyramid symbol pyramid_data self)).

Definition clear_symbol_cache (self : Engine.t) (symbol : string) : Engine.t :=
  set_raw_data_cache (delete symbol (Engine.raw_data_cache self))
    (set_pyramid_cache (delete symbol (Engine.pyramid_cache self)) self).

(** ** Threads

    The producer thread runs [update_symbol_data] while request threads read
    the cache; there is no lock in the engine.  A thread is the list of its
    statements, a run is an interleaving of the two lists, and a statement
    (one dictionary store, or one call of a getter) is a step.  A reader
    notes what its two calls returned. *)

Inductive stmt :=
  | StorePyramid (symbol : string) (pyramid_data : Pyramid.t)
  | StoreRawData (symbol : string) (raw_data : gmap string (list Candle.t))
  | StoreLatest (symbol : string) (raw_data : gmap string (list Candle.t))
      (pyramid_data : Pyramid.t)
  | ReadPyramid (symbol : string) (now : Z)
  | ReadRawData (symbol : string).

Module Seen.
Record t := mk {
  pyramid : option Pyramid.t;
  raw_data : option (gmap string (list Candle.t))
}.
End Seen.

Definition exec (st : Engine.t * Seen.t) (s : stmt) : Engine.t * Seen.t :=
  let '(self, seen) := st in
  match s with
  | StorePyramid symbol p => (store_pyramid symbol p self, seen)
  | StoreRawData symbol r => (store_raw_data symbol r self, seen)
  | StoreLatest symbol r p => (store_latest symbol r p self, seen)
  | ReadPyramid symbol now =>
      let '(p, self') := get_pyramid_for_symbol self symbol now in
      (self', Seen.mk (Some p) (Seen.raw_data seen))
  | ReadRawData symbol =>
      let '(r, self') := get_raw_data_for_symbol self symbol in
      (self', Seen.mk (Seen.pyramid seen) (Some r))
  end.

Definition run (schedule : list stmt) (self : Engine.t) : Engine.t * Seen.t :=
  fold_left exec schedule (self, Seen.mk None None).

Definition writer (symbol : string) (raw_data : gmap string (list Candle.t))
    (pyramid_data : Pyramid.t) : list stmt :=
  [StorePyramid symbol pyramid_data; StoreRawData symbol raw_data;
   StoreLatest symbol raw_data pyramid_data].

Definition reader (symbol : string) (now : Z) : list stmt :=
  [ReadPyramid symbol now; ReadRawData symbol].

(** The merges of two threads that keep each thread's own order. *)
Inductive interleaving {A : Type} : list A -> list A -> list A -> Prop :=
  | interleaving_nil : interleaving [] [] []
  | interleaving_left x a b c :
      interleaving a b c -> interleaving (x :: a) b (x :: c)
  | interleaving_right x a b c :
      interleaving a b c -> interleaving a (x :: b) (x :: c).

(** ** Trees *)

(** [in_tree l q k p]: block [p], at level [k] of the hierarchy, lies in
    the tree under block [q] of level [l] ([q] itself included). *)
Inductive in_tree : nat -> Block.t -> nat -> Block.t -> Prop :=
  | in_tree_here l q : in_tree l q l q
  | in_tree_child l q c k p :
      In c (Block.children q) -> in_tree (S l) c k p -> in_tree l q k p.

(** Block [p] at level [k] occurs in the pyramid. *)
Definition in_pyramid (py : Pyramid.t) (k : nat) (p : Block.t) : Prop :=
  exists root, In root (Pyramid.blocks py) /\ in_tree 0 root k p.

(** Descending and ascending time order, ties allowed. *)
Definition newest_first (times : list Z) : Prop := StronglySorted Z.ge times.
Definition oldest_first (times : list Z) : Prop := StronglySorted Z.le times.

(** What a block records of its row. *)
Definition same_candle (tf : string) (row : ARow.t) (b : Block.t) : Prop :=
  Block.tf b = tf /\
  Block.time b = ARow.time row /\
  Block.O b = round5 (Candle.open (ARow.row row)) /\
  Block.H b = round5 (Candle.high (ARow.row row)) /\
  Block.L b = round5 (Candle.low (ARow.row row)) /\
  Block.C b = round5 (Candle.close (ARow.row row)) /\
  Block.volume b = Candle.tick_volume (ARow.row row) /\
  Block.dir b = ARow.Dir row.

Section Children.
Variable data : gmap string (list ARow.t).

(** The rows whose blocks are the children of a parent. *)
Definition child_rows (below : list string) (parent_time : Z) (parent_tf : string)
  : list ARow.t :=
  match below with
  | [] => []
  | child_tf :: _ =>
      match data !! child_tf, config.TIMEFRAME_DURATIONS !! parent_tf with
      | Some df, Some minutes =>
          List.filter (in_range parent_time (parent_time + 60 * minutes)) df
      | _, _ => []
      end
  end.

(** A block whose children are what [get_children] returns for it. *)
Definition built (below : list string) (b : Block.t) : Prop :=
  get_children_below data below (Block.time b) (Block.tf b)
  = Ok (Block.children b).

End Children.

(** ** A worked example

    One D1 candle at 2024-01-01T00:00:00 and five H4 candles, the last of
    them on the next day, as the terminal returns them (oldest first). *)

Definition example_d1_rates : list Candle.t :=
  [Candle.mk 1704067200 (11000 # 10000) (11050 # 10000) (10950 # 10000) (11020 # 10000) 900].

Definition example_h4_rates : list Candle.t :=
  [Candle.mk 1704067200 (11000 # 10000) (11010 # 10000) (10990 # 10000) (11005 # 10000) 100;
   Candle.mk 1704081600 (11005 # 10000) (11020 # 10000) (11000 # 10000) (11015 # 10000) 110;
   Candle.mk 1704096000 (11015 # 10000) (11050 # 10000) (11010 # 10000) (11040 # 10000) 120;
   Candle.mk 1704110400 (11040 # 10000) (11045 # 10000) (10950 # 10000) (11020 # 10000) 130;
   Candle.mk 1704153600 (11020 # 10000) (11030 # 10000) (11010 # 10000) (11025 # 10000) 140].

Definition example_raw_data : gmap string (list Candle.t) :=
  list_to_map [("D1"%string, fetch_frame 0 example_d1_rates);
               ("H4"%string, fetch_frame 0 example_h4_rates)].

Definition example_data : gmap string (list ARow.t) :=
  calculate_momentum_analysis <$> example_raw_data.

Definition example_engine : Engine.t :=
  match configure_pyramid init "EURUSD" ["D1"; "H4"]%string "daily" 0 with
  | Ok self => self
  | Raise _ => init
  end.

Definition example_pyramid (now : Z) : Pyramid.t :=
  match build_pyramid_json example_engine example_data now with
  | Ok py => py
  | Raise _ => _create_empty_pyramid example_engine now
  end.

Definition dummy_block : Block.t :=
  Block.mk "" 0 "" 0 0 0 0 0 DirFlat "" [].

(** The root block of the example and its first child. *)
Definition example_root : Block.t := nth 0 (Pyramid.blocks (example_pyramid 0)) dummy_block.
Definition example_child : Block.t := nth 0 (Block.children example_root) dummy_block.

(** ** The two ratios of a candle *)

(** One entry of [x.replace(0, 0.00001)]. *)
Definition guarded (x : Q) : Q := if Qeq_bool x 0 then epsilon else x.

(** The entries of the columns [Wick_Ratio] and [Body_Strength] on the row of
    a candle. *)
Definition wick_ratio_row (r : Candle.t) : option Q :=
  option_map Qabs
    (pd.div1 (Some (Candle.high r - Candle.close r)%Q)
             (pd.replace0 epsilon (Some (Candle.close r - Candle.low r)%Q))).

Definition body_strength_row (r : Candle.t) : option Q :=
  pd.div1 (option_map Qabs (Some (Candle.close r - Candle.open r)%Q))
          (pd.replace0 epsilon (Some (Candle.high r - Candle.low r)%Q)).

(** The formulas in the words of the specification, with [max(., epsilon)]
    as the divisor. *)
Definition spec_wick_ratio (r : Candle.t) : Q :=
  (Qabs (Candle.high r - Candle.close r)
   / Qmax (Candle.close r - Candle.low r) epsilon)%Q.

Definition spec_body_strength (r : Candle.t) : Q :=
  (Qabs (Candle.close r - Candle.open r)
   / Qmax (Candle.high r - Candle.low r) epsilon)%Q.

(** A candle that closes a millionth above its low. *)
Definition tiny_wick_candle : Candle.t :=
  Candle.mk 1704067200 1 (100001 # 100000) 1 (1000001 # 1000000) 100.

(** A flat candle: [high == low]. *)
Definition flat_candle : Candle.t :=
  Candle.mk 1704067200 (11 # 10) (11 # 10) (11 # 10) (11 # 10) 100.

(** ** A cached entry and its replacement *)

(** The engine after a first producer cycle for EURUSD. *)
Definition example_cached_engine : Engine.t :=
  update_symbol_data example_engine "EURUSD" example_raw_data (example_pyramid 0).

(** The data of the next cycle: one more D1 candle. *)
Definition example_next_raw_data : gmap string (list Candle.t) :=
  list_to_map
    [("D1"%string,
      fetch_frame 0
        (example_d1_rates
         ++ [Candle.mk 1704153600 (11020 # 10000) (11060 # 10000) (11000 # 10000)
               (11030 # 10000) 950]));
     ("H4"%string, fetch_frame 0 example_h4_rates)].

Definition example_next_pyramid : Pyramid.t :=
  match build_pyramid_json example_engine
          (calculate_momentum_analysis <$> example_next_raw_data) 30 with
  | Ok py => py
  | Raise _ => _create_empty_pyramid example_engine 30
  end.

(** A run in which the reader's two calls fall between the two stores. *)
Definition torn_schedule : list stmt :=
  [StorePyramid "EURUSD" example_next_pyramid;
   ReadPyramid "EURUSD" 31;
   ReadRawData "EURUSD";
   StoreRawData "EURUSD" example_next_raw_data;
   StoreLatest "EURUSD" example_next_raw_data example_next_pyramid].


(** ** Invariants of the added columns *)

(** A statement keeps an invariant of the columns, whether it returns or
    raises. *)
Definition preserves {A} (I : gmap string column -> Prop) (m : Try A) : Prop :=
  forall cols, I cols -> I (fst (m cols)).

(** Whatever column sits under [key] satisfies [G]. *)
Definition column_inv (key : string) (G : column -> Prop)
    (cols : gmap string column) : Prop :=
  forall c, cols !! key = Some c -> G c.

(** A statement that returns, whatever the columns. *)
Definition succeeds {A} (m : Try A) : Prop :=
  forall cols, exists cols' a, m cols = (cols', Ok a).

(** [Q] holds of the columns once the statement is over, returned or raised. *)
Definition leaves {A} (Q : gmap string column -> Prop) (m : Try A) : Prop :=
  forall cols, Q (fst (m cols)).

(** The periods read up to the RSI lines are windows and spans of one row
    at least. *)
Definition valid_until_rsi (p : Periods.t) : Prop :=
  Forall (fun w => 1 <= w) (Periods.sma_periods p) /\
  Forall (fun w => 1 <= w) (Periods.ema_periods p) /\
  1 <= Periods.macd_fast p /\ 1 <= Periods.macd_slow p /\
  1 <= Periods.macd_signal p /\ 1 <= Periods.rsi_period p.

(** All the periods are windows and spans of one row at least. *)
Definition valid_periods (p : Periods.t) : Prop :=
  valid_until_rsi p /\
  1 <= Periods.bb_period p /\ 1 <= Periods.stoch_k p /\ 1 <= Periods.stoch_d p.

(** A Series of finite numbers between 0 and 100. *)
Definition within_0_100 (s : pd.Series) : Prop :=
  forall x, In x s -> exists q, x = Some q /\ (0 <= q <= 100)%Q.

(** A Series of finite numbers that are not negative. *)
Definition nonnegative (s : pd.Series) : Prop :=
  forall x, In x s -> exists q, x = Some q /\ (0 <= q)%Q.

(** One entry of the RSI column from the entries of [gain] and [loss]. *)
Definition rsi_entry (gain loss : option Q) : option Q :=
  let rs := pd.div1 gain (pd.replace0 epsilon loss) in
  pd.lift2 Qminus (Some 100%Q)
    (pd.div1 (Some 100%Q) (pd.lift2 Qplus (Some 1%Q) rs)).

(** ** A short series

    Thirty M5 candles, newest first, with a peak and a trough in the
    middle. *)
Definition example_m5_candle (i : nat) : Candle.t :=
  let base := 11000 + Z.of_nat ((i * 7) mod 11) in
  let bump := if (i =? 15)%nat then 40 else 0 in
  let dip := if (i =? 12)%nat then 40 else 0 in
  Candle.mk (1704067200 - 300 * Z.of_nat i)
    (base # 10000) ((base + 5 + bump) # 10000) ((base - 5 - dip) # 10000)
    ((base + Z.of_nat (i mod 3) - 1) # 10000) (100 + Z.of_nat i).

Definition example_m5 : list Candle.t := map example_m5_candle (seq 0 30).

(** A stand-in for the rolling standard deviation in the examples. *)
Definition example_rolling_std (w : Z) (s : pd.Series) : result pd.Series :=
  pd.rolling (fun _ => 0%Q) w s.

Definition example_columns : gmap string column :=
  calculate_technical_indicators example_rolling_std example_m5 None.

Definition example_rsi : pd.Series :=
  match example_columns !! "RSI"%string with
  | Some (Floats s) => s
  | _ => []
  end.

(** ** The hierarchy of a style

    [configure_from_settings], lines 119-123: an unknown style falls back to
    ['daily']. *)
Definition style_structure (pyramid_style : string) : list string :=
  let styles : gmap string (list string) := list_to_map config.PYRAMID_STYLES in
  match styles !! pyramid_style with
  | Some structure => structure
  | None => default [] (styles !! "daily"%string)
  end.

(** An engine configured for a style the table does not know. *)
Definition example_fallback_engine : Engine.t :=
  match configure_pyramid init "EURUSD" (style_structure "monthly") "daily" 0 with
  | Ok self => self
  | Raise _ => init
  end.

(** A candle whose low does not exceed its high. *)
Definition well_formed (r : Candle.t) : Prop := (Candle.low r <= Candle.high r)%Q.

(** ** _extract_custom_periods (web_dashboard.py) *)

(** [s.endswith(suffix)]. *)
Fixpoint ends_with (suffix s : string) : bool :=
  String.eqb s suffix
  || match s with
     | EmptyString => false
     | String _ s' => ends_with suffix s'
     end.

(** [d[key] = value] on a dict in insertion order: a key already there keeps
    its place. *)
Fixpoint dict_set (key : string) (value : Z) (d : overrides) : overrides :=
  match d with
  | [] => [(key, value)]
  | (k, v) :: d' =>
      if String.eqb k key then (key, value) :: d' else (k, v) :: dict_set key value d'
  end.

Section ExtractCustomPeriods.

(** Python's [int(value)] on a request string; [None] when it raises
    [ValueError]. *)
Variable int : string -> option Z.

(** The [try] of both branches: a value that does not parse is skipped. *)
Definition try_store (key value : string) (custom_periods : overrides) : overrides :=
  match int value with
  | Some period_value => dict_set key period_value custom_periods
  | None => custom_periods
  end.

(** [args] is [request.args.items()]. *)
Definition _extract_custom_periods (args : list (string * string)) : overrides :=
  fold_left
    (fun custom_periods kv =>
       let '(key, value) := kv in
       if ends_with "_period" key then try_store key value custom_periods
       else if contains "_period_" key then try_store key value custom_periods
       else custom_periods)
    args [].

(** The periods a chart request ends up with, lines 98 and 106-109 of the
    dashboard with [_get_periods]. *)
Definition request_periods (args : list (string * string)) : Periods.t :=
  _get_periods (Some (_extract_custom_periods args)).

End ExtractCustomPeriods.

(** A parser for the examples: decimal digits only. *)
Definition example_int (value : string) : option Z :=
  if String.eqb value "9" then Some 9
  else if String.eqb value "21" then Some 21
  else if String.eqb value "5" then Some 5
  else None.

Definition example_args : list (string * string) :=
  [("pair", "EUR/USD"); ("rsi_period", "9"); ("macd_fast", "5");
   ("sma_period_1", "21"); ("bb_period", "abc")]%string.

(** ** Column sizes *)

Definition column_length (c : column) : nat :=
  match c with
  | Floats s => length s
  | LevelLists l => length l
  end.

(** The entries of a filled Series against those of the Series it comes
    from: a number stays, a [NaN] may change. *)
Definition kept (x y : option Q) : Prop := x = None \/ y = x.

(** The positions [calculate_support_resistance] examines. *)
Definition interior (lookback len i : nat) : Prop :=
  (lookback <= i < len - lookback)%nat.

(** ** Analysis and signals *)

(** [latest['dir'] == "🟢"] and [latest['dir'] == "🔴"]. *)
Definition dir_is (d expected : direction) : bool :=
  match d, expected with
  | DirUp, DirUp | DirDown, DirDown | DirFlat, DirFlat => true
  | _, _ => false
  end.

(** [generate_trading_signals]: [latest_pyramid] is falsy when empty, and so
    is its list of blocks. *)
Definition generate_trading_signals (self : Engine.t) : list string :=
  let signals :=
    match Engine.latest_pyramid self with
    | None => []
    | Some latest_pyramid =>
        match Pyramid.blocks latest_pyramid with
        | [] => []
        | latest :: _ =>
            if contains "Strong" (Block.momentum_summary latest)
               && dir_is (Block.dir latest) DirUp
            then ["Potential BUY signal - Strong bullish momentum"]
            else if contains "Strong" (Block.momentum_summary latest)
                    && dir_is (Block.dir latest) DirDown
                 then ["Potential SELL signal - Strong bearish momentum"]
                 else []
        end
    end%string in
  match signals with
  | [] => ["No strong signals detected"%string]
  | _ => signals
  end.

(** A character occurs in a string. *)
Fixpoint mentions (c : ascii) (s : string) : bool :=
  match s with
  | EmptyString => false
  | String c' s' => Ascii.eqb c' c || mentions c s'
  end.

(** ** The connector (mt5_connector.py) *)

(** [base_symbol.replace('/', '')]. *)
Fixpoint remove_slashes (s : string) : string :=
  match s with
  | EmptyString => EmptyString
  | String c s' =>
      if Ascii.eqb c "/" then remove_slashes s' else String c (remove_slashes s')
  end.

(** [detect_symbol_suffix]: the name itself, else the first suffix that gives
    an available symbol, else the first available symbol that contains the
    name, else the name. *)
Definition detect_symbol_suffix (available_symbols : list string) (base_symbol : string)
  : string :=
  let base_symbol := remove_slashes base_symbol in
  if existsb (String.eqb base_symbol) available_symbols then base_symbol
  else
    match List.find (fun suffix =>
                       existsb (String.eqb (base_symbol ++ suffix)) available_symbols)
            config.SYMBOL_SUFFIXES with
    | Some suffix => base_symbol ++ suffix
    | None =>
        match List.find (contains base_symbol) available_symbols with
        | Some symbol => symbol
        | None => base_symbol
        end
    end.

Section Connector.

(** The terminal.  [TIMEFRAME tf] is [getattr(mt5, f"TIMEFRAME_{tf}", None)];
    the two calls return the rates of a symbol and a timeframe constant, or
    [None]: [copy_rates_from_pos(symbol, tf, 0, 200)] and
    [copy_rates_from(symbol, tf, datetime.now(), 200)]. *)
Variable TIMEFRAME : string -> option Z.
Variable copy_rates_from_pos : string -> Z -> option (list Candle.t).
Variable copy_rates_from : string -> Z -> option (list Candle.t).

(** The fields of the connector. *)
Variable connected : bool.
Variable available_symbols : list string.
Variable utc_offset : Z.

(** [rates is None or len(rates) == 0]. *)
Definition no_rates (rates : option (list Candle.t)) : bool :=
  match rates with
  | None | Some [] => true
  | Some _ => false
  end.

Definition fetch_timeframe_data (symbol timeframe : string) : option (list Candle.t) :=
  if negb connected then None
  else
    match TIMEFRAME timeframe with
    | None => None
    | Some mt5_tf =>
        if mt5_tf =? 0 then None
        else
          let actual_symbol := detect_symbol_suffix available_symbols symbol in
          let rates := copy_rates_from_pos actual_symbol mt5_tf in
          let rates :=
            if no_rates rates then copy_rates_from actual_symbol mt5_tf else rates in
          match rates with
          | None | Some [] => None
          | Some rates => Some (fetch_frame utc_offset rates)
          end
    end.

(** [fetch_all_timeframes]: a frame under every name of [ALL_TIMEFRAMES], an
    empty one where the fetch gave [None]. *)
Definition fetch_all_timeframes (symbol : string) : gmap string (list Candle.t) :=
  fold_left
    (fun data tf_name =>
       <[tf_name := match fetch_timeframe_data symbol tf_name with
                    | Some df => df
                    | None => []
                    end]> data)
    config.ALL_TIMEFRAMES ∅.

End Connector.

(** ** A producer cycle (main_launcher.py, collector_loop)

    [pyramid_data[tf] = calculate_momentum_analysis(raw_data[tf])] for the
    frames that are not empty. *)
Definition annotate (raw_data : gmap string (list Candle.t)) : gmap string (list ARow.t) :=
  omap (fun df => match df with
                  | [] => None
                  | _ => Some (calculate_momentum_analysis df)
                  end) raw_data.

(** A terminal for the examples: the constants of the [mt5] module, rates
    for EURUSD on D1 and H4 only. *)
Definition example_TIMEFRAME (tf : string) : option Z :=
  (list_to_map [("M1", 1); ("M5", 5); ("M15", 15); ("H1", 16385); ("H4", 16388);
                ("D1", 16408)]%string : gmap string Z) !! tf.

Definition example_copy_rates_from_pos (symbol : string) (mt5_tf : Z)
  : option (list Candle.t) :=
  if String.eqb symbol "EURUSD"
  then if mt5_tf =? 16408 then Some example_d1_rates
       else if mt5_tf =? 16388 then Some example_h4_rates
            else None
  else None.

Definition example_copy_rates_from (symbol : string) (mt5_tf : Z)
  : option (list Candle.t) := None.

Definition example_fetched : gmap string (list Candle.t) :=
  fetch_all_timeframes example_TIMEFRAME example_copy_rates_from_pos
    example_copy_rates_from true ["EURUSD"%string] 0 "EUR/USD".

(** Candles whose open, and whose close, lie between the low and the high. *)
Definition open_in_range (r : Candle.t) : Prop :=
  (Candle.low r <= Candle.open r <= Candle.high r)%Q.

Definition close_in_range (r : Candle.t) : Prop :=
  (Candle.low r <= Candle.close r <= Candle.high r)%Q.

(** The %K line of the example. *)
Definition example_stoch_k : pd.Series :=
  match example_columns !! "Stoch_%K"%string with
  | Some (Floats s) => s
  | _ => []
  end.

(** * Properties *)

(** ** Exceptions and loops *)

Lemma bind_Ok {A B} (m : result A) (k : A -> result B) (b : B) :
  bind m k = Ok b -> exists a, m = Ok a /\ k a = Ok b.
Proof.
  destruct m as [a|e]; simpl; intros Hk; [eauto | discriminate].
Qed.

Lemma mapM_Ok_Forall2 {A B} (f : A -> result B) (l : list A) (ys : list B) :
  mapM f l = Ok ys -> Forall2 (fun x y => f x = Ok y) l ys.
Proof.
  revert ys; induction l as [|x l IH]; simpl; intros ys Hm.
  - injection Hm as <-. constructor.
  - destruct (f x) as [y|e] eqn:Hfx; [|discriminate].
    destruct (mapM f l) as [ys'|e] eqn:Hl; [|discriminate].
    injection Hm as <-. constructor; auto.
Qed.

Lemma mapM_total {A B} (f : A -> result B) (l : list A) :
  (forall x, In x l -> exists y, f x = Ok y) -> exists ys, mapM f l = Ok ys.
Proof.
  induction l as [|x l IH]; simpl; intros Hf; [eauto|].
  destruct (Hf x (or_introl eq_refl)) as [y ->].
  destruct IH as [ys ->]; eauto.
Qed.

Lemma Forall2_length_eq {A B} (P : A -> B -> Prop) (l : list A) (l' : list B) :
  Forall2 P l l' -> length l = length l'.
Proof. induction 1; simpl; congruence. Qed.

Lemma Forall2_In_r {A B} (P : A -> B -> Prop) (l : list A) (l' : list B) (y : B) :
  Forall2 P l l' -> In y l' -> exists x, In x l /\ P x y.
Proof.
  induction 1 as [|x y' l l' Hxy _ IH]; simpl; [tauto|].
  intros [<-|Hin]; [eauto|]. destruct (IH Hin) as (x' & ? & ?); eauto.
Qed.

Lemma Forall2_map_eq {A B C} (f : A -> C) (g : B -> C) (l : list A) (l' : list B) :
  Forall2 (fun x y => g y = f x) l l' -> map g l' = map f l.
Proof. induction 1; simpl; congruence. Qed.

Lemma tl_drop {A} (l : list A) (n : nat) : tl (drop n l) = drop (S n) l.
Proof.
  revert l; induction n as [|n IH]; intros [|x l]; simpl; auto.
Qed.

(** ** The block of a row *)

Lemma first_index_at_In (row : ARow.t) (df : list ARow.t) :
  In row df ->
  exists i r, first_index_at (ARow.time row) df = Ok i /\ df !! i = Some r.
Proof.
  induction df as [|r df IH]; simpl; [tauto|].
  intros Hin. destruct (ARow.time r =? ARow.time row) eqn:Ht.
  - exists O, r. auto.
  - destruct Hin as [->|Hin]; [rewrite Z.eqb_refl in Ht; discriminate|].
    destruct (IH Hin) as (i & r' & -> & Hi). exists (S i), r'. auto.
Qed.

Lemma get_momentum_summary_total (df : list ARow.t) (i : nat) (r : ARow.t) :
  df !! i = Some r -> exists s, get_momentum_summary df i = Ok s.
Proof. unfold get_momentum_summary. intros ->. eauto. Qed.

Lemma block_of_total tf df row kids ks :
  In row df -> kids = Ok ks -> exists b, block_of tf df row kids = Ok b.
Proof.
  intros Hin ->. unfold block_of.
  destruct (first_index_at_In row df Hin) as (i & r & -> & Hi). simpl.
  destruct (get_momentum_summary_total df i r Hi) as [s ->]. simpl. eauto.
Qed.

Lemma block_of_Ok tf df row kids b :
  block_of tf df row kids = Ok b ->
  same_candle tf row b /\ kids = Ok (Block.children b).
Proof.
  unfold block_of. intros H.
  apply bind_Ok in H as (i & _ & H).
  apply bind_Ok in H as (s & _ & H).
  apply bind_Ok in H as (ks & Hk & H).
  injection H as <-. unfold same_candle; simpl. auto 10.
Qed.

(** ** get_children *)

Section BuildFacts.
Variable self : Engine.t.
Variable data : gmap string (list ARow.t).

(** The source's recursion equation, by level. *)
Lemma get_children_unfold (parent_time : Z) (parent_tf : string) (level : nat) :
  get_children self data parent_time parent_tf level =
  match Engine.pyramid_structure self !! (level + 1)%nat with
  | None => Ok []
  | Some child_tf =>
      match data !! child_tf with
      | None | Some [] => Ok []
      | Some df =>
          match config.TIMEFRAME_DURATIONS !! parent_tf with
          | None => Raise KeyError
          | Some minutes =>
              mapM (fun row =>
                      block_of child_tf df row
                        (get_children self data (ARow.time row) child_tf (level + 1)))
                   (List.filter (in_range parent_time (parent_time + 60 * minutes)) df)
          end
      end
  end.
Proof.
  unfold get_children.
  destruct (drop (level + 1) (Engine.pyramid_structure self)) as [|child_tf below] eqn:Hd.
  - apply drop_nil_inv in Hd.
    rewrite (lookup_ge_None_2 _ _ Hd). reflexivity.
  - assert (Hl : Engine.pyramid_structure self !! (level + 1)%nat = Some child_tf).
    { rewrite <- (Nat.add_0_r (level + 1)), <- lookup_drop, Hd. reflexivity. }
    assert (Hb : drop (level + 1 + 1) (Engine.pyramid_structure self) = below).
    { rewrite <- drop_drop, Hd. reflexivity. }
    rewrite Hl, Hb. reflexivity.
Qed.

Lemma get_children_below_Ok below parent_time parent_tf kids :
  get_children_below data below parent_time parent_tf = Ok kids ->
  Forall2 (fun row c => same_candle (hd ""%string below) row c /\ built data (tl below) c)
    (child_rows data below parent_time parent_tf) kids.
Proof.
  destruct below as [|child_tf below']; simpl.
  - intros H; injection H as <-. constructor.
  - destruct (data !! child_tf) as [[|r df]|] eqn:Hd;
      try (intros H; injection H as <-;
           destruct (config.TIMEFRAME_DURATIONS !! parent_tf); constructor).
    destruct (config.TIMEFRAME_DURATIONS !! parent_tf) as [minutes|]; [|discriminate].
    intros H. apply mapM_Ok_Forall2 in H.
    eapply Forall2_impl; [exact H|].
    intros row c Hb. apply block_of_Ok in Hb as [Hs Hk].
    split; [exact Hs|]. unfold built.
    destruct Hs as (-> & -> & _). exact Hk.
Qed.

Lemma in_range_spec start end_ r :
  in_range start end_ r = true <-> start <= ARow.time r < end_.
Proof. unfold in_range. rewrite andb_true_iff, Z.leb_le, Z.ltb_lt. tauto. Qed.

Lemma child_rows_in_range below parent_time parent_tf row :
  In row (child_rows data below parent_time parent_tf) ->
  exists minutes,
    config.TIMEFRAME_DURATIONS !! parent_tf = Some minutes /\
    parent_time <= ARow.time row < parent_time + 60 * minutes.
Proof.
  unfold child_rows. destruct below as [|child_tf below']; [simpl; tauto|].
  destruct (data !! child_tf) as [df|]; [|simpl; tauto].
  destruct (config.TIMEFRAME_DURATIONS !! parent_tf) as [minutes|]; [|simpl; tauto].
  intros Hin. apply filter_In in Hin as [_ Hr]. apply in_range_spec in Hr. eauto.
Qed.

(** The root blocks are built, and so is every block under a built one. *)
Lemma built_children below (p c : Block.t) :
  built data below p -> In c (Block.children p) -> built data (tl below) c.
Proof.
  intros Hp Hc. apply get_children_below_Ok in Hp.
  destruct (Forall2_In_r _ _ _ _ Hp Hc) as (row & _ & _ & Hb). exact Hb.
Qed.

Lemma built_in_tree l q k p :
  in_tree l q k p ->
  built data (drop (l + 1) (Engine.pyramid_structure self)) q ->
  built data (drop (k + 1) (Engine.pyramid_structure self)) p.
Proof.
  induction 1 as [|l q c k p Hc _ IH]; [auto|].
  intros Hq. apply IH.
  pose proof (built_children _ _ _ Hq Hc) as Hb.
  rewrite tl_drop in Hb. exact Hb.
Qed.

Lemma build_pyramid_json_Ok now py :
  build_pyramid_json self data now = Ok py ->
  match Engine.base_tf self with
  | None => py = _create_empty_pyramid self now
  | Some base_tf =>
      match data !! base_tf with
      | None | Some [] => py = _create_empty_pyramid self now
      | Some df =>
          Pyramid.symbol py = Engine.symbol self /\
          Pyramid.style py = Engine.pyramid_style self /\
          Pyramid.structure py = Engine.pyramid_structure self /\
          Pyramid.generated py = now /\
          Forall2 (fun row b =>
                     same_candle base_tf row b /\
                     built data (drop 1 (Engine.pyramid_structure self)) b)
            (iloc_to (Engine.extract_count self) df) (Pyramid.blocks py)
      end
  end.
Proof.
  unfold build_pyramid_json.
  destruct (Engine.base_tf self) as [base_tf|]; [|intros H; congruence].
  destruct (data !! base_tf) as [[|r df]|]; try (intros H; congruence).
  intros H. apply bind_Ok in H as (blocks & Hm & H). injection H as <-. simpl.
  repeat split; auto.
  apply mapM_Ok_Forall2 in Hm. eapply Forall2_impl; [exact Hm|].
  intros row b Hb. apply block_of_Ok in Hb as [Hs Hk].
  split; [exact Hs|]. unfold built, get_children in *.
  destruct Hs as (-> & -> & _). exact Hk.
Qed.

Lemma in_pyramid_built now py k p :
  build_pyramid_json self data now = Ok py ->
  in_pyramid py k p ->
  built data (drop (k + 1) (Engine.pyramid_structure self)) p.
Proof.
  intros Hb (root & Hroot & Htree).
  apply (built_in_tree _ _ _ _ Htree).
  apply build_pyramid_json_Ok in Hb.
  destruct (Engine.base_tf self) as [base_tf|];
    [destruct (data !! base_tf) as [[|r df]|]|];
    try (subst py; simpl in Hroot; tauto).
  destruct Hb as (_ & _ & _ & _ & Hf).
  destruct (Forall2_In_r _ _ _ _ Hf Hroot) as (row & _ & _ & Hbuilt). exact Hbuilt.
Qed.

End BuildFacts.

(** ** The pyramid builder returns *)

Section BuildTotal.
Variable self : Engine.t.
Variable data : gmap string (list ARow.t).

Lemma get_children_below_total below parent_time parent_tf :
  Forall (fun tf => is_Some (config.TIMEFRAME_DURATIONS !! tf)) (parent_tf :: below) ->
  exists kids, get_children_below data below parent_time parent_tf = Ok kids.
Proof.
  revert parent_time parent_tf.
  induction below as [|child_tf below IH]; intros parent_time parent_tf Hk; simpl; [eauto|].
  destruct (data !! child_tf) as [[|r df]|]; eauto.
  apply Forall_cons in Hk as [[minutes ->] Hk].
  apply mapM_total. intros row Hin. apply filter_In in Hin as [Hin _].
  destruct (IH (ARow.time row) child_tf Hk) as [kids Hkids].
  eapply block_of_total; eauto.
Qed.

Lemma iloc_to_In {A} (k : Z) (l : list A) (x : A) : In x (iloc_to k l) -> In x l.
Proof.
  assert (Htake : forall n, In x (firstn n l) -> In x l).
  { intros n Hin. rewrite <- (firstn_skipn n l). apply in_or_app. left. exact Hin. }
  unfold iloc_to. destruct (0 <=? k); apply Htake.
Qed.

Lemma build_pyramid_json_total now :
  (forall base_tf, Engine.base_tf self = Some base_tf ->
     Forall (fun tf => is_Some (config.TIMEFRAME_DURATIONS !! tf))
       (base_tf :: Engine.pyramid_structure self)) ->
  exists py, build_pyramid_json self data now = Ok py.
Proof.
  intros Hk. unfold build_pyramid_json.
  destruct (Engine.base_tf self) as [base_tf|]; [|eauto].
  destruct (data !! base_tf) as [[|r df]|]; eauto.
  specialize (Hk base_tf eq_refl). apply Forall_cons in Hk as [Hb Hs].
  destruct (mapM_total
              (fun row => block_of base_tf (iloc_to (Engine.extract_count self) (r :: df)) row
                            (get_children self data (ARow.time row) base_tf 0))
              (iloc_to (Engine.extract_count self) (r :: df))) as [blocks ->]; [|simpl; eauto].
  intros row Hin.
  destruct (get_children_below_total (drop (0 + 1) (Engine.pyramid_structure self))
              (ARow.time row) base_tf) as [kids Hkids].
  { constructor; [exact Hb|].
    apply Forall_forall. intros tf Htf. rewrite Forall_forall in Hs. apply Hs.
    rewrite <- (take_drop (0 + 1) (Engine.pyramid_structure self)).
    apply elem_of_app. right. exact Htf. }
  eapply block_of_total; eauto.
Qed.

End BuildTotal.

(** ** The fetcher's order *)

Lemma insert_desc_In (r y : Candle.t) (l : list Candle.t) :
  In y (insert_desc r l) -> y = r \/ In y l.
Proof.
  induction l as [|x l IH]; simpl.
  - intros [<-|[]]. auto.
  - destruct (Candle.time x <=? Candle.time r); simpl.
    + intros [<-|[<-|Hy]]; auto.
    + intros [<-|Hy]; [auto|]. destruct (IH Hy); auto.
Qed.

Lemma insert_desc_sorted (r : Candle.t) (l : list Candle.t) :
  newest_first (map Candle.time l) ->
  newest_first (map Candle.time (insert_desc r l)).
Proof.
  unfold newest_first. induction l as [|x l IH]; simpl; intros Hs.
  - repeat constructor.
  - apply StronglySorted_inv in Hs as [Hs Hx].
    destruct (Candle.time x <=? Candle.time r) eqn:Hle; simpl.
    + apply Z.leb_le in Hle. constructor; [constructor; assumption|].
      constructor; [lia|]. eapply Forall_impl; [exact Hx|]. intros t Ht. simpl in Ht. lia.
    + apply Z.leb_gt in Hle. constructor; [apply IH; exact Hs|].
      apply List.Forall_forall. intros t Ht.
      apply in_map_iff in Ht as (y & <- & Hy).
      apply insert_desc_In in Hy as [->|Hy]; [lia|].
      rewrite List.Forall_forall in Hx. apply Hx. apply in_map. exact Hy.
Qed.

Lemma fetch_frame_newest_first (utc_offset : Z) (rates : list Candle.t) :
  newest_first (map Candle.time (fetch_frame utc_offset rates)).
Proof.
  unfold fetch_frame, sort_values_time_desc.
  induction (map _ rates) as [|r l IH]; simpl.
  - constructor.
  - apply insert_desc_sorted. exact IH.
Qed.

(** ** Time containment *)

Lemma StronglySorted_map_filter {A} (R : Z -> Z -> Prop) (f : A -> Z)
    (keep : A -> bool) (l : list A) :
  StronglySorted R (map f l) -> StronglySorted R (map f (List.filter keep l)).
Proof.
  induction l as [|x l IH]; simpl; intros Hs; [constructor|].
  apply StronglySorted_inv in Hs as [Hs Hx].
  destruct (keep x); simpl; [|auto].
  constructor; [auto|].
  rewrite List.Forall_forall in *. intros t Hin. apply Hx.
  apply in_map_iff in Hin as (y & <- & Hy). apply filter_In in Hy as [Hy _].
  apply in_map. exact Hy.
Qed.

(** C1.  In every pyramid [build_pyramid_json] returns, each child of each
    block of the tree has a time from the parent's time (included) up to the
    parent's time plus the duration of the parent's timeframe (excluded);
    the duration is [TIMEFRAME_DURATIONS] minutes, 60 seconds each. *)
Theorem children_within_parent self data now py k p c :
  build_pyramid_json self data now = Ok py ->
  in_pyramid py k p ->
  In c (Block.children p) ->
  exists minutes,
    config.TIMEFRAME_DURATIONS !! Block.tf p = Some minutes /\
    Block.time p <= Block.time c < Block.time p + 60 * minutes.
Proof.
  intros Hb Hp Hc.
  pose proof (in_pyramid_built self data now py k p Hb Hp) as Hbuilt.
  apply get_children_below_Ok in Hbuilt.
  destruct (Forall2_In_r _ _ _ _ Hbuilt Hc) as (row & Hrow & Hs & _).
  destruct (child_rows_in_range _ _ _ _ _ Hrow) as (minutes & Hm & Ht).
  exists minutes. destruct Hs as (_ & -> & _). auto.
Qed.

Lemma example_build :
  build_pyramid_json example_engine example_data 0 = Ok (example_pyramid 0).
Proof. vm_compute. reflexivity. Qed.

Lemma example_root_in_pyramid : in_pyramid (example_pyramid 0) 0 example_root.
Proof.
  exists example_root. split; [|constructor].
  vm_compute. left. reflexivity.
Qed.

Lemma children_within_parent_witness :
  exists minutes,
    config.TIMEFRAME_DURATIONS !! Block.tf example_root = Some minutes /\
    Block.time example_root <= Block.time example_child
      < Block.time example_root + 60 * minutes.
Proof.
  apply (children_within_parent example_engine example_data 0 (example_pyramid 0)
           0 example_root example_child).
  - vm_compute. reflexivity.
  - exists example_root. split; [vm_compute; left; reflexivity | constructor].
  - vm_compute. left. reflexivity.
Defined.

(** ** Children and the storage order *)

(** C2, as far as the code goes.  For every parent block of a returned
    pyramid, at level [k] with time [t]: the children are the blocks of
    exactly the candles of the series of level [k + 1] whose time lies in
    [[t, t + d)], one block per candle, in the storage order of that series
    (no children when there is no such level or series).  There is no sort:
    a series stored newest first gives children newest first. *)
Theorem children_in_storage_order self data now py k p :
  build_pyramid_json self data now = Ok py ->
  in_pyramid py k p ->
  match Engine.pyramid_structure self !! (k + 1)%nat with
  | None => Block.children p = []
  | Some child_tf =>
      match data !! child_tf with
      | None | Some [] => Block.children p = []
      | Some df =>
          exists minutes,
            config.TIMEFRAME_DURATIONS !! Block.tf p = Some minutes /\
            Forall2 (same_candle child_tf)
              (List.filter
                 (in_range (Block.time p) (Block.time p + 60 * minutes)) df)
              (Block.children p) /\
            (newest_first (map ARow.time df) ->
             newest_first (map Block.time (Block.children p)))
      end
  end.
Proof.
  intros Hb Hp.
  pose proof (in_pyramid_built self data now py k p Hb Hp) as Hbuilt.
  unfold built in Hbuilt.
  change (get_children self data (Block.time p) (Block.tf p) k = Ok (Block.children p))
    in Hbuilt.
  rewrite get_children_unfold in Hbuilt.
  destruct (Engine.pyramid_structure self !! (k + 1)%nat) as [child_tf|]; [|congruence].
  destruct (data !! child_tf) as [[|r df]|]; try congruence.
  destruct (config.TIMEFRAME_DURATIONS !! Block.tf p) as [minutes|]; [|discriminate].
  exists minutes. split; [reflexivity|].
  apply mapM_Ok_Forall2 in Hbuilt.
  assert (Hf : Forall2 (same_candle child_tf)
                 (List.filter (in_range (Block.time p) (Block.time p + 60 * minutes)) (r :: df))
                 (Block.children p)).
  { eapply Forall2_impl; [exact Hbuilt|]. intros row c Hc.
    apply block_of_Ok in Hc as [Hs _]. exact Hs. }
  split; [exact Hf|].
  intros Hs.
  rewrite (Forall2_map_eq ARow.time Block.time
             (List.filter (in_range (Block.time p) (Block.time p + 60 * minutes)) (r :: df))
             (Block.children p)).
  - apply StronglySorted_map_filter. exact Hs.
  - eapply Forall2_impl; [exact Hf|]. intros row c (_ & Ht & _). exact Ht.
Qed.

Lemma children_in_storage_order_witness :
  exists minutes,
    config.TIMEFRAME_DURATIONS !! Block.tf example_root = Some minutes /\
    Forall2 (same_candle "H4")
      (List.filter
         (in_range (Block.time example_root) (Block.time example_root + 60 * minutes))
         (calculate_momentum_analysis (fetch_frame 0 example_h4_rates)))
      (Block.children example_root) /\
    (newest_first (map ARow.time (calculate_momentum_analysis (fetch_frame 0 example_h4_rates))) ->
     newest_first (map Block.time (Block.children example_root))).
Proof.
  pose proof (children_in_storage_order example_engine example_data 0
                (example_pyramid 0) 0 example_root) as H.
  assert (Hl : Engine.pyramid_structure example_engine !! (0 + 1)%nat = Some "H4"%string)
    by reflexivity.
  assert (Hd : example_data !! "H4"%string
               = Some (calculate_momentum_analysis (fetch_frame 0 example_h4_rates)))
    by (vm_compute; reflexivity).
  rewrite Hl, Hd in H.
  assert (He : exists r df,
             calculate_momentum_analysis (fetch_frame 0 example_h4_rates) = r :: df)
    by (vm_compute; eauto).
  destruct He as (r & df & He). rewrite He in H. rewrite He.
  apply H.
  - vm_compute. reflexivity.
  - exists example_root. split; [vm_compute; left; reflexivity | constructor].
Defined.

(** The specification asks for ascending children.  The fetcher's
    H4 series is stored newest first, and the four children of the example's
    root come out in that order. *)
Lemma children_not_ascending :
  build_pyramid_json example_engine example_data 0 = Ok (example_pyramid 0) /\
  In example_root (Pyramid.blocks (example_pyramid 0)) /\
  map Block.time (Block.children example_root)
    = [1704110400; 1704096000; 1704081600; 1704067200] /\
  ~ oldest_first (map Block.time (Block.children example_root)).
Proof.
  split; [vm_compute; reflexivity|].
  split; [vm_compute; left; reflexivity|].
  assert (Ht : map Block.time (Block.children example_root)
               = [1704110400; 1704096000; 1704081600; 1704067200])
    by (vm_compute; reflexivity).
  split; [exact Ht|].
  rewrite Ht. unfold oldest_first. intros Hs.
  apply StronglySorted_inv in Hs as [_ Hall].
  apply Forall_cons in Hall as [Hle _]. lia.
Qed.

(** ** The number of root blocks *)

Lemma length_iloc_to {A} (k : Z) (l : list A) :
  0 <= k -> Z.of_nat (length (iloc_to k l)) = Z.min k (Z.of_nat (length l)).
Proof.
  intros Hk. unfold iloc_to.
  destruct (0 <=? k) eqn:Hle; [|apply Z.leb_gt in Hle; lia].
  rewrite length_take. lia.
Qed.

(** C3.  With a base series that is present and not empty, and a count
    [extract_count] that is not negative, a returned pyramid has
    [min(extract_count, len(base series))] root blocks; and the builder does
    return a pyramid when every label of the hierarchy has a duration. *)
Theorem root_block_count self data now base_tf df :
  0 <= Engine.extract_count self ->
  Engine.base_tf self = Some base_tf ->
  data !! base_tf = Some df ->
  df <> [] ->
  (forall py,
     build_pyramid_json self data now = Ok py ->
     Z.of_nat (length (Pyramid.blocks py))
     = Z.min (Engine.extract_count self) (Z.of_nat (length df))) /\
  (Forall (fun tf => is_Some (config.TIMEFRAME_DURATIONS !! tf))
     (base_tf :: Engine.pyramid_structure self) ->
   exists py, build_pyramid_json self data now = Ok py).
Proof.
  intros Hk Hbase Hdf Hne. split.
  - intros py Hb. apply build_pyramid_json_Ok in Hb.
    rewrite Hbase, Hdf in Hb. destruct df as [|r df]; [congruence|].
    destruct Hb as (_ & _ & _ & _ & Hf).
    apply Forall2_length_eq in Hf. rewrite <- Hf.
    apply length_iloc_to. exact Hk.
  - intros Hknown. apply build_pyramid_json_total.
    intros b Hb. rewrite Hbase in Hb. injection Hb as <-. exact Hknown.
Qed.

Lemma root_block_count_witness :
  (forall py,
     build_pyramid_json example_engine example_data 0 = Ok py ->
     Z.of_nat (length (Pyramid.blocks py))
     = Z.min (Engine.extract_count example_engine)
         (Z.of_nat (length (calculate_momentum_analysis (fetch_frame 0 example_d1_rates))))) /\
  (Forall (fun tf => is_Some (config.TIMEFRAME_DURATIONS !! tf))
     ("D1"%string :: Engine.pyramid_structure example_engine) ->
   exists py, build_pyramid_json example_engine example_data 0 = Ok py).
Proof.
  apply (root_block_count example_engine example_data 0 "D1"
           (calculate_momentum_analysis (fetch_frame 0 example_d1_rates))).
  - vm_compute. discriminate.
  - reflexivity.
  - vm_compute. reflexivity.
  - vm_compute. discriminate.
Defined.

(** ** Two runs on the same input *)

(** C4, as far as the code goes.  Two runs on the same series and the same
    configuration, at clock readings [now1] and [now2], end alike: both
    raise the same exception, or both return, with the same blocks (every
    field of every block, children in the same order) and the same symbol,
    style and structure.  The field [generated] is the clock reading of its
    own run. *)
Theorem build_repeatable_but_for_the_clock self data now1 now2 :
  match build_pyramid_json self data now1, build_pyramid_json self data now2 with
  | Ok py1, Ok py2 =>
      Pyramid.blocks py1 = Pyramid.blocks py2 /\
      Pyramid.symbol py1 = Pyramid.symbol py2 /\
      Pyramid.style py1 = Pyramid.style py2 /\
      Pyramid.structure py1 = Pyramid.structure py2 /\
      Pyramid.generated py1 = now1 /\
      Pyramid.generated py2 = now2
  | Raise e1, Raise e2 => e1 = e2
  | _, _ => False
  end.
Proof.
  unfold build_pyramid_json.
  destruct (Engine.base_tf self) as [base_tf|]; [|simpl; auto 10].
  destruct (data !! base_tf) as [[|r df]|]; simpl; auto 10.
  destruct (mapM _ _) as [blocks|e]; simpl; auto 10.
Qed.

(** The specification asks for the same top-level record.  Two runs
    of the example at different clock readings return different records. *)
Lemma two_runs_differ :
  build_pyramid_json example_engine example_data 0 = Ok (example_pyramid 0) /\
  build_pyramid_json example_engine example_data 1 = Ok (example_pyramid 1) /\
  example_pyramid 0 <> example_pyramid 1.
Proof.
  split; [vm_compute; reflexivity|].
  split; [vm_compute; reflexivity|].
  intros Heq. apply (f_equal Pyramid.generated) in Heq.
  vm_compute in Heq. discriminate.
Qed.

(** ** Momentum analysis *)

Lemma length_shift (k : nat) (s : pd.Series) : length (pd.shift k s) = length s.
Proof.
  unfold pd.shift. rewrite length_take, length_app, repeat_length. lia.
Qed.

Lemma length_sub (a b : pd.Series) :
  length (pd.sub a b) = Nat.min (length a) (length b).
Proof. unfold pd.sub. apply length_zip_with. Qed.

Lemma length_col (f : Candle.t -> Q) (df : list Candle.t) :
  length (col df f) = length df.
Proof. unfold col. apply length_map. Qed.

Lemma length_Momentum_Acceleration_col df :
  length (Momentum_Acceleration_col df) = length df.
Proof.
  unfold Momentum_Acceleration_col.
  rewrite !length_sub, !length_shift, !length_col. lia.
Qed.

Lemma rolling_Ok (agg : list Q -> Q) (w : Z) (s : pd.Series) :
  1 <= w ->
  exists r, pd.rolling agg w s = Ok r /\ length r = length s.
Proof.
  intros Hw. unfold pd.rolling.
  destruct (w <? 1) eqn:Hlt; [apply Z.ltb_lt in Hlt; lia|].
  eexists. split; [reflexivity|]. rewrite length_map, length_seq. reflexivity.
Qed.

Lemma length_ATR_col df : length (ATR_col df) = length df.
Proof.
  unfold ATR_col, pd.rolling_mean.
  destruct (rolling_Ok Qmean 14 (true_range df)) as (r & -> & ->); [lia|].
  unfold true_range. rewrite length_zip_with, length_zip.
  unfold pd.abs. rewrite !length_map, !length_sub, !length_shift, !length_col. lia.
Qed.

Lemma Wick_Ratio_col_rows df : Wick_Ratio_col df = map wick_ratio_row df.
Proof.
  unfold Wick_Ratio_col, denominator, col, pd.abs, pd.div, pd.sub, pd.replace.
  induction df as [|r df IH]; simpl; [reflexivity|].
  f_equal. exact IH.
Qed.

Lemma Body_Strength_col_rows df : Body_Strength_col df = map body_strength_row df.
Proof.
  unfold Body_Strength_col, range_denominator, col, pd.abs, pd.div, pd.sub, pd.replace.
  induction df as [|r df IH]; simpl; [reflexivity|].
  f_equal. exact IH.
Qed.

Lemma assemble_rows df : forall m d acc w b atr,
  length m = length df -> length d = length df -> length acc = length df ->
  length w = length df -> length b = length df -> length atr = length df ->
  map ARow.row (assemble df m d acc w b atr) = df.
Proof.
  induction df as [|r df IH];
    intros [|x m] [|y d] [|a acc] [|ww w] [|bb b] [|t atr]; simpl;
    intros; try discriminate; try reflexivity.
  f_equal. apply IH; congruence.
Qed.

Lemma assemble_In (fw fb : Candle.t -> option Q) df : forall m d acc atr a,
  In a (assemble df m d acc (map fw df) (map fb df) atr) ->
  ARow.Wick_Ratio a = fw (ARow.row a) /\ ARow.Body_Strength a = fb (ARow.row a).
Proof.
  induction df as [|r df IH];
    intros [|x m] [|y d] [|c acc] [|t atr] a; simpl; try tauto.
  intros [<-|Hin]; [simpl; auto|]. eapply IH; eauto.
Qed.

Lemma calculate_momentum_analysis_rows df :
  map ARow.row (calculate_momentum_analysis df) = df.
Proof.
  unfold calculate_momentum_analysis. apply assemble_rows.
  - unfold Momentum_col. apply length_map.
  - unfold Dir_col, Momentum_col. rewrite !length_map. reflexivity.
  - apply length_Momentum_Acceleration_col.
  - rewrite Wick_Ratio_col_rows. apply length_map.
  - rewrite Body_Strength_col_rows. apply length_map.
  - apply length_ATR_col.
Qed.

Lemma guarded_nonzero (x : Q) : ~ (guarded x == 0)%Q.
Proof.
  unfold guarded. destruct (Qeq_bool x 0) eqn:Hx.
  - unfold epsilon. intros H. discriminate H.
  - intros H. apply Qeq_bool_neq in Hx. contradiction.
Qed.

Lemma guarded_is_max (x : Q) :
  (x == 0 \/ epsilon <= x)%Q -> (guarded x == Qmax x epsilon)%Q.
Proof.
  unfold guarded. intros Hx.
  assert (He : (0 < epsilon)%Q) by reflexivity.
  destruct (Qeq_bool x 0) eqn:Hz.
  - apply Qeq_bool_iff in Hz. rewrite Q.max_r; [reflexivity|]. rewrite Hz. lra.
  - apply Qeq_bool_neq in Hz. destruct Hx as [Hx|Hx]; [contradiction|].
    rewrite Q.max_l; [reflexivity | exact Hx].
Qed.

Lemma wick_ratio_row_value (r : Candle.t) :
  wick_ratio_row r
  = Some (Qabs ((Candle.high r - Candle.close r)
                / guarded (Candle.close r - Candle.low r))).
Proof.
  unfold wick_ratio_row, pd.replace0, guarded. simpl.
  destruct (Qeq_bool (Candle.close r - Candle.low r) 0) eqn:Hz; simpl.
  - reflexivity.
  - rewrite Hz. reflexivity.
Qed.

Lemma body_strength_row_value (r : Candle.t) :
  body_strength_row r
  = Some (Qabs (Candle.close r - Candle.open r)
          / guarded (Candle.high r - Candle.low r))%Q.
Proof.
  unfold body_strength_row, pd.replace0, guarded. simpl.
  destruct (Qeq_bool (Candle.high r - Candle.low r) 0) eqn:Hz; simpl.
  - reflexivity.
  - rewrite Hz. reflexivity.
Qed.

Lemma Qabs_div (a b : Q) : ~ (b == 0)%Q -> (Qabs (a / b) == Qabs a / Qabs b)%Q.
Proof.
  intros Hb. unfold Qdiv. rewrite Qabs_Qmult. apply Qmult_comp; [reflexivity|].
  apply Qabs_Qinv.
Qed.

(** C6, as far as the code goes.  [calculate_momentum_analysis] keeps every
    candle, and on the row of each: the divisors are [close - low] and
    [high - low] with an exact zero replaced by [epsilon = 1e-5], so neither
    is zero and both ratios are finite numbers; the wick ratio is
    [|high - close|] over the absolute value of its divisor, the body
    strength is [|close - open|] over its divisor; and these are the
    [max(., epsilon)] formulas whenever the difference is zero or at least
    [epsilon] (then also for [close == low] and [high == low]). *)
Theorem momentum_ratios df :
  map ARow.row (calculate_momentum_analysis df) = df /\
  forall a, In a (calculate_momentum_analysis df) ->
    let r := ARow.row a in
    let dw := guarded (Candle.close r - Candle.low r) in
    let db := guarded (Candle.high r - Candle.low r) in
    (~ dw == 0 /\ ~ db == 0 /\
     (exists w, ARow.Wick_Ratio a = Some w /\
                w == Qabs (Candle.high r - Candle.close r) / Qabs dw) /\
     (exists b, ARow.Body_Strength a = Some b /\
                b == Qabs (Candle.close r - Candle.open r) / db) /\
     ((Candle.close r - Candle.low r == 0 \/ epsilon <= Candle.close r - Candle.low r) ->
      exists w, ARow.Wick_Ratio a = Some w /\ w == spec_wick_ratio r) /\
     ((Candle.high r - Candle.low r == 0 \/ epsilon <= Candle.high r - Candle.low r) ->
      exists b, ARow.Body_Strength a = Some b /\ b == spec_body_strength r))%Q.
Proof.
  split; [apply calculate_momentum_analysis_rows|].
  intros a Hin r dw db.
  unfold calculate_momentum_analysis in Hin.
  rewrite Wick_Ratio_col_rows, Body_Strength_col_rows in Hin.
  apply assemble_In in Hin as [Hw Hb]. fold r in Hw, Hb.
  rewrite wick_ratio_row_value in Hw. rewrite body_strength_row_value in Hb.
  fold dw in Hw. fold db in Hb.
  assert (Hdw : ~ (dw == 0)%Q) by apply guarded_nonzero.
  assert (Hdb : ~ (db == 0)%Q) by apply guarded_nonzero.
  assert (He : (0 < epsilon)%Q) by reflexivity.
  repeat split; try assumption.
  - eexists. split; [exact Hw|]. apply Qabs_div. exact Hdw.
  - eexists. split; [exact Hb|]. reflexivity.
  - intros Hx. eexists. split; [exact Hw|].
    rewrite (Qabs_div _ _ Hdw). unfold spec_wick_ratio. fold r.
    pose proof (guarded_is_max _ Hx) as Hg. fold dw in Hg.
    assert (Hpos : (0 <= dw)%Q).
    { rewrite Hg. apply Qle_trans with epsilon; [lra | apply Q.le_max_r]. }
    rewrite (Qabs_pos _ Hpos), Hg. reflexivity.
  - intros Hx. eexists. split; [exact Hb|].
    unfold spec_body_strength. fold r.
    pose proof (guarded_is_max _ Hx) as Hg. fold db in Hg.
    rewrite Hg. reflexivity.
Qed.

Lemma momentum_ratios_witness :
  exists a,
    calculate_momentum_analysis [flat_candle] = [a] /\
    ARow.row a = flat_candle /\
    (exists w, ARow.Wick_Ratio a = Some w /\ (w == spec_wick_ratio flat_candle)%Q) /\
    (exists b, ARow.Body_Strength a = Some b /\ (b == spec_body_strength flat_candle)%Q).
Proof.
  destruct (momentum_ratios [flat_candle]) as [Hrows Hall].
  destruct (calculate_momentum_analysis [flat_candle]) as [|a [|a' l]] eqn:Hc;
    try discriminate Hrows.
  injection Hrows as Hr.
  exists a. split; [reflexivity|]. split; [exact Hr|].
  destruct (Hall a (or_introl eq_refl)) as (_ & _ & _ & _ & Hw & Hb).
  rewrite Hr in Hw, Hb.
  split; [apply Hw | apply Hb]; left; reflexivity.
Defined.

(** The specification takes [max(close - low, epsilon)] as the
    divisor.  On a candle that closes a millionth above its low the column
    holds 9, and the formula of the specification gives 9/10. *)
Lemma wick_ratio_differs_from_max_formula :
  exists a w,
    calculate_momentum_analysis [tiny_wick_candle] = [a] /\
    ARow.row a = tiny_wick_candle /\
    ARow.Wick_Ratio a = Some w /\
    (w == 9)%Q /\
    (spec_wick_ratio tiny_wick_candle == 9 # 10)%Q /\
    ~ (w == spec_wick_ratio tiny_wick_candle)%Q.
Proof.
  eexists. eexists.
  split; [vm_compute; reflexivity|].
  split; [reflexivity|].
  split; [reflexivity|].
  split; [vm_compute; reflexivity|].
  split; [vm_compute; reflexivity|].
  vm_compute. discriminate.
Qed.

(** ** The cache: lazy initialisation *)

(** C7.  For a symbol without a cache entry, two calls of
    [get_pyramid_for_symbol] in a row (the model has no exception on this
    path: the call is a total function) return the same entry, with
    [symbol == X] and no blocks; the second call leaves the engine as the
    first left it. *)
Theorem get_pyramid_for_symbol_twice self X now1 now2 :
  Engine.pyramid_cache self !! X = None ->
  let first := get_pyramid_for_symbol self X now1 in
  let second := get_pyramid_for_symbol (snd first) X now2 in
  fst first = fst second /\
  Pyramid.symbol (fst first) = Some X /\ Pyramid.blocks (fst first) = [] /\
  Pyramid.symbol (fst second) = Some X /\ Pyramid.blocks (fst second) = [] /\
  snd second = snd first.
Proof.
  intros Hnone. cbv zeta. unfold get_pyramid_for_symbol.
  rewrite Hnone. simpl. rewrite lookup_insert_eq. simpl. auto 10.
Qed.

Lemma get_pyramid_for_symbol_twice_witness :
  let first := get_pyramid_for_symbol init "GBPUSD" 5 in
  let second := get_pyramid_for_symbol (snd first) "GBPUSD" 9 in
  fst first = fst second /\
  Pyramid.symbol (fst first) = Some "GBPUSD"%string /\ Pyramid.blocks (fst first) = [] /\
  Pyramid.symbol (fst second) = Some "GBPUSD"%string /\ Pyramid.blocks (fst second) = [] /\
  snd second = snd first.
Proof.
  apply (get_pyramid_for_symbol_twice init "GBPUSD" 5 9).
  reflexivity.
Defined.

(** The raw-data getter behaves alike: every declared timeframe, each with
    an empty series, both times. *)
Lemma get_raw_data_for_symbol_twice self X :
  Engine.raw_data_cache self !! X = None ->
  let first := get_raw_data_for_symbol self X in
  let second := get_raw_data_for_symbol (snd first) X in
  fst first = fst second /\
  (forall tf, In tf config.ALL_TIMEFRAMES -> fst first !! tf = Some []).
Proof.
  intros Hnone. cbv zeta. unfold get_raw_data_for_symbol.
  rewrite Hnone. simpl. rewrite lookup_insert_eq. simpl.
  split; [reflexivity|].
  intros tf Hin. simpl in Hin.
  repeat (destruct Hin as [<-|Hin]; [vm_compute; reflexivity|]). contradiction.
Qed.

(** ** Chart data *)

Lemma StronglySorted_snoc {A} (R : A -> A -> Prop) (l : list A) (x : A) :
  StronglySorted R l -> Forall (fun y => R y x) l -> StronglySorted R (l ++ [x]).
Proof.
  induction 1 as [|y l Hs IH Hy]; simpl; intros Hall.
  - repeat constructor.
  - apply Forall_cons in Hall as [Hyx Hall].
    constructor; [auto|]. apply Forall_app. split; [exact Hy|]. repeat constructor. exact Hyx.
Qed.

Lemma StronglySorted_rev {A} (R : A -> A -> Prop) (l : list A) :
  StronglySorted R l -> StronglySorted (fun a b => R b a) (rev l).
Proof.
  induction 1 as [|x l Hs IH Hx]; simpl; [constructor|].
  apply StronglySorted_snoc; [exact IH|].
  apply Forall_rev. exact Hx.
Qed.

Lemma StronglySorted_map_mono {A B} (R : A -> A -> Prop) (R' : B -> B -> Prop)
    (f : A -> B) (l : list A) :
  (forall a b, R a b -> R' (f a) (f b)) ->
  StronglySorted R l -> StronglySorted R' (map f l).
Proof.
  intros Hmono. induction 1 as [|x l Hs IH Hx]; simpl; constructor; [exact IH|].
  apply Forall_map. eapply Forall_impl; [exact Hx|]. intros y Hy. apply Hmono. exact Hy.
Qed.




(** ** The cache: replacement while a reader runs *)

Section Replace.
Variable X : string.

Lemma pyramid_cache_store_pyramid p self :
  Engine.pyramid_cache (store_pyramid X p self) !! X = Some p.
Proof. simpl. apply lookup_insert_eq. Qed.

Lemma pyramid_cache_store_raw_data r self :
  Engine.pyramid_cache (store_raw_data X r self) = Engine.pyramid_cache self.
Proof. reflexivity. Qed.

Lemma pyramid_cache_store_latest r p self :
  Engine.pyramid_cache (store_latest X r p self) = Engine.pyramid_cache self.
Proof. unfold store_latest. destruct (decide _); reflexivity. Qed.

Lemma raw_data_cache_store_raw_data r self :
  Engine.raw_data_cache (store_raw_data X r self) !! X = Some r.
Proof. simpl. apply lookup_insert_eq. Qed.

Lemma raw_data_cache_store_pyramid p self :
  Engine.raw_data_cache (store_pyramid X p self) = Engine.raw_data_cache self.
Proof. reflexivity. Qed.

Lemma raw_data_cache_store_latest r p self :
  Engine.raw_data_cache (store_latest X r p self) = Engine.raw_data_cache self.
Proof. unfold store_latest. destruct (decide _); reflexivity. Qed.

Lemma exec_ReadPyramid_hit self seen now p :
  Engine.pyramid_cache self !! X = Some p ->
  exec (self, seen) (ReadPyramid X now) = (self, Seen.mk (Some p) (Seen.raw_data seen)).
Proof. intros H. simpl. unfold get_pyramid_for_symbol. rewrite H. reflexivity. Qed.

Lemma exec_ReadRawData_hit self seen r :
  Engine.raw_data_cache self !! X = Some r ->
  exec (self, seen) (ReadRawData X) = (self, Seen.mk (Seen.pyramid seen) (Some r)).
Proof. intros H. simpl. unfold get_raw_data_for_symbol. rewrite H. reflexivity. Qed.

Lemma exec_StorePyramid self seen p :
  exec (self, seen) (StorePyramid X p) = (store_pyramid X p self, seen).
Proof. reflexivity. Qed.

Lemma exec_StoreRawData self seen r :
  exec (self, seen) (StoreRawData X r) = (store_raw_data X r self, seen).
Proof. reflexivity. Qed.

Lemma exec_StoreLatest self seen r p :
  exec (self, seen) (StoreLatest X r p) = (store_latest X r p self, seen).
Proof. reflexivity. Qed.

End Replace.

Ltac cache_lookup :=
  repeat first
    [ rewrite pyramid_cache_store_raw_data
    | rewrite pyramid_cache_store_latest
    | rewrite raw_data_cache_store_pyramid
    | rewrite raw_data_cache_store_latest ];
  first [ apply pyramid_cache_store_pyramid
        | apply raw_data_cache_store_raw_data
        | eassumption ].

Ltac run_schedule :=
  unfold run; cbn [fold_left];
  repeat first
    [ rewrite exec_StorePyramid
    | rewrite exec_StoreRawData
    | rewrite exec_StoreLatest
    | erewrite exec_ReadPyramid_hit by cache_lookup
    | erewrite exec_ReadRawData_hit by cache_lookup ];
  cbn [fst snd Seen.pyramid Seen.raw_data].

Ltac split_interleaving :=
  repeat match goal with
         | H : interleaving _ _ _ |- _ => inversion H; subst; clear H
         end.

(** C9, as far as the code goes.  [update_symbol_data] stores the new
    pyramid and then the new series, two dictionary assignments with no lock
    around them.  Whatever the interleaving with a reader's two calls, the
    cache ends as the update leaves it, and each call returns the old or the
    new value of its own dictionary; a reader that runs wholly before the
    update sees the old pair, one that runs wholly after it the new pair. *)
Theorem update_symbol_data_is_two_stores self X oldP oldR newP newR now s :
  Engine.pyramid_cache self !! X = Some oldP ->
  Engine.raw_data_cache self !! X = Some oldR ->
  interleaving (writer X newR newP) (reader X now) s ->
  fst (run s self) = update_symbol_data self X newR newP /\
  (Seen.pyramid (snd (run s self)) = Some oldP \/
   Seen.pyramid (snd (run s self)) = Some newP) /\
  (Seen.raw_data (snd (run s self)) = Some oldR \/
   Seen.raw_data (snd (run s self)) = Some newR) /\
  (s = reader X now ++ writer X newR newP ->
   snd (run s self) = Seen.mk (Some oldP) (Some oldR)) /\
  (s = writer X newR newP ++ reader X now ->
   snd (run s self) = Seen.mk (Some newP) (Some newR)).
Proof.
  intros Hp Hr Hs. unfold writer, reader in *.
  split_interleaving; run_schedule;
    (split; [reflexivity|]);
    (split; [auto|]); (split; [auto|]);
    (split; intros Heq; simpl in Heq; try discriminate Heq; reflexivity).
Qed.

Lemma update_symbol_data_is_two_stores_witness :
  let s := writer "EURUSD" example_next_raw_data example_next_pyramid
           ++ reader "EURUSD" 31 in
  fst (run s example_cached_engine)
  = update_symbol_data example_cached_engine "EURUSD" example_next_raw_data
      example_next_pyramid /\
  (Seen.pyramid (snd (run s example_cached_engine)) = Some (example_pyramid 0) \/
   Seen.pyramid (snd (run s example_cached_engine)) = Some example_next_pyramid) /\
  (Seen.raw_data (snd (run s example_cached_engine)) = Some example_raw_data \/
   Seen.raw_data (snd (run s example_cached_engine)) = Some example_next_raw_data) /\
  (s = reader "EURUSD" 31 ++ writer "EURUSD" example_next_raw_data example_next_pyramid ->
   snd (run s example_cached_engine)
   = Seen.mk (Some (example_pyramid 0)) (Some example_raw_data)) /\
  (s = writer "EURUSD" example_next_raw_data example_next_pyramid ++ reader "EURUSD" 31 ->
   snd (run s example_cached_engine)
   = Seen.mk (Some example_next_pyramid) (Some example_next_raw_data)).
Proof.
  apply (update_symbol_data_is_two_stores example_cached_engine "EURUSD"
           (example_pyramid 0) example_raw_data example_next_pyramid
           example_next_raw_data 31).
  - apply pyramid_cache_store_pyramid.
  - apply raw_data_cache_store_raw_data.
  - repeat constructor.
Defined.

(** The specification rules out a reader that sees the new pyramid
    with the old series.  In the run [torn_schedule] the reader's two calls
    fall between the two stores, and that is what they return. *)
Lemma reader_sees_new_pyramid_with_old_series :
  Engine.pyramid_cache example_cached_engine !! "EURUSD"%string = Some (example_pyramid 0) /\
  Engine.raw_data_cache example_cached_engine !! "EURUSD"%string = Some example_raw_data /\
  interleaving (writer "EURUSD" example_next_raw_data example_next_pyramid)
    (reader "EURUSD" 31) torn_schedule /\
  snd (run torn_schedule example_cached_engine)
  = Seen.mk (Some example_next_pyramid) (Some example_raw_data) /\
  example_next_pyramid <> example_pyramid 0 /\
  example_next_raw_data <> example_raw_data.
Proof.
  assert (Hp : Engine.pyramid_cache example_cached_engine !! "EURUSD"%string
               = Some (example_pyramid 0))
    by apply pyramid_cache_store_pyramid.
  assert (Hr : Engine.raw_data_cache example_cached_engine !! "EURUSD"%string
               = Some example_raw_data)
    by apply raw_data_cache_store_raw_data.
  split; [exact Hp|]. split; [exact Hr|].
  split; [unfold torn_schedule, writer, reader; repeat constructor|].
  split.
  - unfold torn_schedule. run_schedule. reflexivity.
  - split.
    + intros Heq. apply (f_equal Pyramid.generated) in Heq.
      vm_compute in Heq. discriminate.
    + intros Heq. apply (f_equal (fun m => length <$> m !! "D1"%string)) in Heq.
      vm_compute in Heq. discriminate.
Qed.

(** ** Statements that keep an invariant of the columns *)

Section Preserves.
Context {A B : Type}.
Variable I : gmap string column -> Prop.

Lemma preserves_andThen (m : Try A) (k : A -> Try B) :
  preserves I m -> (forall a, preserves I (k a)) -> preserves I (andThen m k).
Proof.
  intros Hm Hk cols Hc. unfold andThen.
  specialize (Hm cols Hc). destruct (m cols) as [cols' [a|e]]; simpl in *.
  - apply Hk. exact Hm.
  - exact Hm.
Qed.

Lemma preserves_lift_andThen (r : result A) (k : A -> Try B) :
  (forall a, r = Ok a -> preserves I (k a)) -> preserves I (andThen (lift r) k).
Proof.
  intros Hk cols Hc. unfold andThen, lift.
  destruct r as [a|e]; simpl; [apply (Hk a eq_refl); exact Hc | exact Hc].
Qed.

End Preserves.

Section PreservesUnit.
Variable I : gmap string column -> Prop.

Lemma preserves_assign (name : string) (c : column) :
  (forall cols, I cols -> I (<[name := c]> cols)) -> preserves I (assign name c).
Proof. intros H cols Hc. simpl. apply H. exact Hc. Qed.

Lemma preserves_ret : preserves I (ret tt).
Proof. intros cols Hc. exact Hc. Qed.

Lemma preserves_for_ {A} (l : list A) (body : A -> Try unit) :
  (forall x, preserves I (body x)) -> preserves I (for_ l body).
Proof.
  intros Hb. induction l as [|x l IH]; simpl.
  - apply preserves_ret.
  - apply preserves_andThen; [apply Hb | intros _; exact IH].
Qed.

End PreservesUnit.

Lemma column_inv_insert_ne key G name c cols :
  name <> key -> column_inv key G cols -> column_inv key G (<[name := c]> cols).
Proof.
  intros Hne Hinv c' Hl. rewrite lookup_insert_ne in Hl by exact Hne. apply Hinv. exact Hl.
Qed.

Lemma column_inv_insert key G c cols :
  G c -> column_inv key G (<[key := c]> cols).
Proof.
  intros Hg c' Hl. rewrite lookup_insert_eq in Hl. injection Hl as <-. exact Hg.
Qed.

Lemma column_inv_fill key G cols :
  (forall s, G (Floats s) -> G (Floats (pd.bfill (pd.ffill s)))) ->
  column_inv key G cols -> column_inv key G (_fill_indicator_nans cols).
Proof.
  intros Hfill Hinv c Hl. unfold _fill_indicator_nans in Hl.
  rewrite map_lookup_imap in Hl.
  destruct (cols !! key) as [c0|] eqn:Hk; simpl in Hl; [|discriminate].
  injection Hl as <-. specialize (Hinv c0 Hk).
  destruct c0 as [s|l]; [|exact Hinv].
  destruct (is_indicator_column key); [apply Hfill|]; exact Hinv.
Qed.

(** ** Support and resistance on a short series *)

Lemma column_inv_empty key G : column_inv key G ∅.
Proof. intros c Hc. rewrite lookup_empty in Hc. discriminate. Qed.

Lemma calculate_support_resistance_short df :
  (length df < 40)%nat -> calculate_support_resistance df 20 = Ok (Levels.mk [] []).
Proof.
  intros Hlen. unfold calculate_support_resistance.
  destruct (length df <? 20 * 2)%nat eqn:Hlt; [reflexivity|].
  apply Nat.ltb_ge in Hlt. lia.
Qed.

Lemma levels_columns_of_short_series rolling_std df periods key :
  (length df < 40)%nat ->
  key = "Support_Levels"%string \/ key = "Resistance_Levels"%string ->
  preserves (column_inv key (fun c => c = LevelLists (repeat [] (length df))))
    (indicators_body rolling_std df periods).
Proof.
  intros Hlen Hkey.
  pose proof (calculate_support_resistance_short df Hlen) as Hsr.
  unfold indicators_body.
  repeat first
    [ apply preserves_lift_andThen; intros ? ?
    | apply preserves_andThen; [| intros _]
    | apply preserves_for_; intros ? ].
  all: try (apply preserves_assign; intros cols Hc c Hl; destruct Hkey as [-> | ->]).
  all: try (rewrite lookup_insert_ne in Hl by (simpl; intros Heq; discriminate Heq);
            apply (Hc c Hl)).
  all: try (rewrite lookup_insert_eq in Hl; injection Hl as <-;
            rewrite Hsr in *;
            match goal with H : Ok _ = Ok _ |- _ => injection H as <- end;
            reflexivity).
  intros cols Hc. simpl. apply column_inv_fill; [|exact Hc]. intros s Hs. discriminate Hs.
Qed.

Lemma example_m5_length : length example_m5 = 30%nat.
Proof. reflexivity. Qed.

(** On the thirty rows of the example both columns are there, although the
    candle of row 15 tops, and the candle of row 12 undercuts, the ten
    candles on either side. *)
Lemma example_levels_columns :
  example_columns !! "Support_Levels"%string = Some (LevelLists (repeat [] 30)) /\
  example_columns !! "Resistance_Levels"%string = Some (LevelLists (repeat [] 30)) /\
  swing (fun a b => Qltb b a) (map Candle.high example_m5) 10 15 = true /\
  swing Qltb (map Candle.low example_m5) 10 12 = true.
Proof. repeat split; vm_compute; reflexivity. Qed.

(** ** The RSI column *)

Lemma Qltb_true (a b : Q) : Qltb a b = true -> (a < b)%Q.
Proof.
  unfold Qltb. intros H. apply negb_true_iff in H.
  apply Qnot_le_lt. intros Hle. apply Qle_bool_iff in Hle. congruence.
Qed.

Lemma Qsum_nonneg (l : list Q) : (forall q, In q l -> (0 <= q)%Q) -> (0 <= Qsum l)%Q.
Proof.
  induction l as [|x l IH]; simpl; intros H; [lra|].
  pose proof (H x (or_introl eq_refl)). specialize (IH (fun q Hq => H q (or_intror Hq))). lra.
Qed.

Lemma Qmean_nonneg (x : Q) (l : list Q) :
  (forall q, In q (x :: l) -> (0 <= q)%Q) -> (0 <= Qmean (x :: l))%Q.
Proof.
  intros H. unfold Qmean. apply Qle_shift_div_l.
  - change 0%Q with (inject_Z 0). rewrite <- Zlt_Qlt. simpl length. lia.
  - rewrite Qmult_0_l. apply Qsum_nonneg. exact H.
Qed.

Lemma In_window (w i : nat) (s : pd.Series) (x : option Q) :
  In x (pd.window w i s) -> In x s.
Proof.
  unfold pd.window. intros H.
  rewrite <- (firstn_skipn (S i) s). apply in_or_app. left.
  rewrite <- (firstn_skipn (S i - w) (firstn (S i) s)). apply in_or_app. right.
  exact H.
Qed.

Lemma window_nonempty (w i : nat) (s : pd.Series) :
  (1 <= w)%nat -> (i < length s)%nat -> pd.window w i s <> [].
Proof.
  intros Hw Hi Hnil. apply (f_equal (@length _)) in Hnil.
  unfold pd.window in Hnil. rewrite length_drop, length_take in Hnil.
  change (length (@nil (option Q))) with 0%nat in Hnil. lia.
Qed.

Lemma rolling_mean_nonnegative (w : Z) (s r : pd.Series) :
  nonnegative s -> pd.rolling_mean w s = Ok r -> nonnegative r.
Proof.
  unfold pd.rolling_mean, pd.rolling. intros Hs Hr.
  destruct (w <? 1) eqn:Hw; [discriminate|]. apply Z.ltb_ge in Hw.
  injection Hr as <-. intros y Hy.
  apply in_map_iff in Hy as (i & <- & Hi). apply in_seq in Hi.
  assert (Hwin : forall x, In x (pd.window (Z.to_nat w) i s) ->
                           exists q, x = Some q /\ (0 <= q)%Q).
  { intros x Hx. apply Hs. eapply In_window; eauto. }
  pose proof (window_nonempty (Z.to_nat w) i s ltac:(lia) ltac:(lia)) as Hne.
  destruct (pd.window (Z.to_nat w) i s) as [|x0 win] eqn:Hwd; [congruence|].
  destruct (Hwin x0 (or_introl eq_refl)) as (q0 & -> & Hq0).
  unfold pd.observations. simpl.
  exists (Qmean (q0 :: omap id win)). split; [reflexivity|].
  apply Qmean_nonneg. intros q [<-|Hq]; [exact Hq0|].
  rewrite <- list_elem_of_In in Hq. apply list_elem_of_omap in Hq as (x & Hx & Hid).
  rewrite list_elem_of_In in Hx.
  destruct (Hwin x (or_intror Hx)) as (q' & -> & Hq'). simpl in Hid.
  injection Hid as <-. exact Hq'.
Qed.

Lemma rsi_gain_nonnegative df rsi_period gain :
  rsi_gain df rsi_period = Ok gain -> nonnegative gain.
Proof.
  unfold rsi_gain. apply rolling_mean_nonnegative.
  intros x Hx. apply in_map_iff in Hx as (d & <- & _).
  destruct d as [d|]; simpl; [|exists 0%Q; split; [reflexivity|lra]].
  destruct (Qltb 0 d) eqn:Hd.
  - exists d. split; [reflexivity|]. apply Qltb_true in Hd. lra.
  - exists 0%Q. split; [reflexivity|lra].
Qed.

Lemma rsi_loss_nonnegative df rsi_period loss :
  rsi_loss df rsi_period = Ok loss -> nonnegative loss.
Proof.
  unfold rsi_loss. apply rolling_mean_nonnegative.
  intros x Hx. unfold pd.neg in Hx. rewrite map_map in Hx.
  apply in_map_iff in Hx as (d & <- & _).
  destruct d as [d|]; simpl; [|exists (- 0)%Q; split; [reflexivity|lra]].
  destruct (Qltb d 0) eqn:Hd; simpl.
  - exists (- d)%Q. split; [reflexivity|]. apply Qltb_true in Hd. lra.
  - exists (- 0)%Q. split; [reflexivity|lra].
Qed.

Lemma rsi_of_entries (gain loss : pd.Series) :
  rsi_of gain loss = zip_with rsi_entry gain loss.
Proof.
  unfold rsi_of, scalar, pd.sub, pd.div, pd.add, pd.replace.
  revert loss. induction gain as [|g gain IH]; intros [|l loss]; simpl; try reflexivity.
  f_equal. apply IH.
Qed.

Lemma In_zip_with {A B C} (f : A -> B -> C) (l1 : list A) (l2 : list B) (z : C) :
  In z (zip_with f l1 l2) -> exists a b, In a l1 /\ In b l2 /\ z = f a b.
Proof.
  revert l2. induction l1 as [|a l1 IH]; intros [|b l2]; simpl; try tauto.
  intros [Hz|Hz].
  - exists a, b. auto.
  - destruct (IH l2 Hz) as (a' & b' & ? & ? & ?). eauto 8.
Qed.

Lemma rsi_entry_bounds (g l : Q) :
  (0 <= g)%Q -> (0 <= l)%Q ->
  exists q, rsi_entry (Some g) (Some l) = Some q /\ (0 <= q <= 100)%Q.
Proof.
  intros Hg Hl. unfold rsi_entry, pd.replace0.
  assert (He : (0 < epsilon)%Q) by reflexivity.
  set (l' := if Qeq_bool l 0 then epsilon else l).
  assert (Hl' : (0 < l')%Q).
  { unfold l'. destruct (Qeq_bool l 0) eqn:Hz; [exact He|].
    apply Qeq_bool_neq in Hz. lra. }
  assert (Hdiv : pd.div1 (Some g) (if Qeq_bool l 0 then Some epsilon else Some l)
                 = Some (g / l')%Q).
  { unfold l'. destruct (Qeq_bool l 0) eqn:Hz; simpl.
    - reflexivity.
    - rewrite Hz. reflexivity. }
  rewrite Hdiv. simpl.
  assert (Hrs : (0 <= g / l')%Q).
  { apply Qle_shift_div_l; [exact Hl'|]. lra. }
  destruct (Qeq_bool (1 + g / l') 0) eqn:Hz.
  { apply Qeq_bool_iff in Hz. lra. }
  eexists. split; [reflexivity|].
  assert (Hpos : (0 < 1 + g / l')%Q) by lra.
  assert (Hup : (100 / (1 + g / l') <= 100)%Q).
  { apply Qle_shift_div_r; [exact Hpos|]. lra. }
  assert (Hlow : (0 <= 100 / (1 + g / l'))%Q).
  { apply Qle_shift_div_l; [exact Hpos|]. lra. }
  lra.
Qed.

Lemma rsi_of_within_0_100 (gain loss : pd.Series) :
  nonnegative gain -> nonnegative loss -> within_0_100 (rsi_of gain loss).
Proof.
  intros Hg Hl x Hx. rewrite rsi_of_entries in Hx.
  apply In_zip_with in Hx as (g & l & Hgi & Hli & ->).
  destruct (Hg g Hgi) as (a & -> & Ha). destruct (Hl l Hli) as (b & -> & Hb).
  apply rsi_entry_bounds; assumption.
Qed.

Lemma ffill_from_finite (last : option Q) (s : pd.Series) :
  (forall x, In x s -> exists q, x = Some q) -> pd.ffill_from last s = s.
Proof.
  revert last. induction s as [|x s IH]; intros last H; simpl; [reflexivity|].
  destruct (H x (or_introl eq_refl)) as [q ->].
  rewrite IH; [reflexivity|]. intros y Hy. apply H. right. exact Hy.
Qed.

Lemma fill_finite (s : pd.Series) :
  (forall x, In x s -> exists q, x = Some q) -> pd.bfill (pd.ffill s) = s.
Proof.
  intros H. unfold pd.bfill, pd.ffill.
  rewrite (ffill_from_finite None s H).
  rewrite ffill_from_finite; [apply rev_involutive|].
  intros x Hx. apply H. apply in_rev. exact Hx.
Qed.

Lemma rsi_column_within_0_100 rolling_std df periods :
  preserves (column_inv "RSI" (fun c => exists s, c = Floats s /\ within_0_100 s))
    (indicators_body rolling_std df periods).
Proof.
  unfold indicators_body.
  repeat first
    [ apply preserves_lift_andThen; intros ? ?
    | apply preserves_andThen; [| intros _]
    | apply preserves_for_; intros ? ].
  all: try (apply preserves_assign; intros cols Hc c Hl).
  all: try (rewrite lookup_insert_ne in Hl by (simpl; intros Heq; discriminate Heq);
            apply (Hc c Hl)).
  - rewrite lookup_insert_eq in Hl. injection Hl as <-.
    eexists. split; [reflexivity|].
    apply rsi_of_within_0_100;
      [eapply rsi_gain_nonnegative | eapply rsi_loss_nonnegative]; eauto.
  - intros cols Hc. simpl. apply column_inv_fill; [|exact Hc].
    intros s (s' & Hs & Hw). injection Hs as <-.
    exists (pd.bfill (pd.ffill s)). split; [reflexivity|].
    rewrite fill_finite; [exact Hw|].
    intros x Hx. destruct (Hw x Hx) as (q & -> & _). eauto.
Qed.

(** C5.  Whatever the series and the period overrides, every entry of the
    column [RSI] that [calculate_technical_indicators] produces is a finite
    number between 0 and 100 (none is [NaN]). *)
Theorem rsi_between_0_and_100 rolling_std df custom_periods s :
  calculate_technical_indicators rolling_std df custom_periods !! "RSI"%string
  = Some (Floats s) ->
  forall x, In x s -> exists q, x = Some q /\ (0 <= q <= 100)%Q.
Proof.
  unfold calculate_technical_indicators.
  destruct (len df <? 20); [rewrite lookup_empty; discriminate|].
  intros Hs.
  destruct (rsi_column_within_0_100 rolling_std df (_get_periods custom_periods) ∅
              (column_inv_empty _ _) _ Hs) as (s' & Heq & Hw).
  injection Heq as <-. exact Hw.
Qed.

Lemma example_rsi_column : example_columns !! "RSI"%string = Some (Floats example_rsi).
Proof. vm_compute. reflexivity. Qed.

Lemma rsi_between_0_and_100_witness :
  length example_rsi = 30%nat /\
  Forall (fun x => exists q, x = Some q /\ (0 <= q <= 100)%Q) example_rsi.
Proof.
  split; [vm_compute; reflexivity|].
  apply List.Forall_forall.
  apply (rsi_between_0_and_100 example_rolling_std example_m5 None example_rsi).
  vm_compute. reflexivity.
Defined.

(** ** The RSI column is there *)

Section Leaves.
Context {A B : Type}.
Variable Q : gmap string column -> Prop.

Lemma leaves_after (m : Try A) (k : A -> Try B) :
  succeeds m -> (forall a, leaves Q (k a)) -> leaves Q (andThen m k).
Proof.
  intros Hm Hk cols. unfold andThen.
  destruct (Hm cols) as (cols' & a & ->). apply Hk.
Qed.

Lemma leaves_after_lift (r : result A) (a : A) (k : A -> Try B) :
  r = Ok a -> leaves Q (k a) -> leaves Q (andThen (lift r) k).
Proof. intros -> Hk cols. unfold andThen, lift. apply Hk. Qed.

End Leaves.

Lemma leaves_established (Q : gmap string column -> Prop) (name : string)
    (c : column) (k : Try unit) :
  (forall cols, Q (<[name := c]> cols)) -> preserves Q k ->
  leaves Q (andThen (assign name c) (fun _ => k)).
Proof. intros Hq Hk cols. unfold andThen, assign. apply Hk. apply Hq. Qed.

Lemma succeeds_assign name c : succeeds (assign name c).
Proof. intros cols. unfold assign. eauto. Qed.

Lemma succeeds_lift_assign {A} (r : result A) (a : A) name (c : A -> column) :
  r = Ok a -> succeeds (andThen (lift r) (fun x => assign name (c x))).
Proof. intros -> cols. unfold andThen, lift, assign. eauto. Qed.

Lemma succeeds_for_ {A} (l : list A) (body : A -> Try unit) :
  (forall x, In x l -> succeeds (body x)) -> succeeds (for_ l body).
Proof.
  induction l as [|x l IH]; intros Hb cols; simpl.
  - unfold ret. eauto.
  - unfold andThen. destruct (Hb x (or_introl eq_refl) cols) as (cols' & [] & ->).
    apply IH. intros y Hy. apply Hb. right. exact Hy.
Qed.

Lemma ewm_mean_Ok (span : Z) (s : list Q) :
  1 <= span -> exists r, pd.ewm_mean span s = Ok r.
Proof.
  intros Hs. unfold pd.ewm_mean.
  destruct (span <? 1) eqn:Hlt; [apply Z.ltb_lt in Hlt; lia | eauto].
Qed.

Lemma length_ffill_from last s : length (pd.ffill_from last s) = length s.
Proof.
  revert last. induction s as [|[x|] s IH]; intros last; simpl; auto.
Qed.

Lemma length_fill s : length (pd.bfill (pd.ffill s)) = length s.
Proof.
  unfold pd.bfill, pd.ffill.
  rewrite length_rev, length_ffill_from, length_rev, length_ffill_from. reflexivity.
Qed.

Lemma length_rsi_delta df : length (rsi_delta df) = length df.
Proof.
  unfold rsi_delta, pd.diff. rewrite length_sub, length_shift.
  unfold somes, close. rewrite !length_map. lia.
Qed.

Lemma rsi_column_present rolling_std df periods :
  (20 <= length df)%nat ->
  valid_until_rsi periods ->
  leaves (fun cols => exists s, cols !! "RSI"%string = Some (Floats s) /\
                                length s = length df)
    (indicators_body rolling_std df periods).
Proof.
  intros Hlen (Hsma & Hema & Hfast & Hslow & Hsignal & Hrsi).
  assert (Hmin : forall w, 1 <= w -> 1 <= Z.min w (len df)) by (unfold len; lia).
  unfold indicators_body.
  apply leaves_after.
  { apply succeeds_for_. intros w Hw. rewrite List.Forall_forall in Hsma.
    destruct (rolling_Ok Qmean (Z.min w (len df)) (somes (close df))
                (Hmin w (Hsma w Hw))) as (r & Hr & _).
    eapply succeeds_lift_assign. exact Hr. }
  intros _. apply leaves_after.
  { apply succeeds_for_. intros w Hw. rewrite List.Forall_forall in Hema.
    destruct (ewm_mean_Ok (Z.min w (len df)) (close df) (Hmin w (Hema w Hw))) as (r & Hr).
    eapply (succeeds_lift_assign _ _ _ (fun s => Floats (somes s))). exact Hr. }
  intros _.
  destruct (ewm_mean_Ok _ (close df) (Hmin _ Hfast)) as (ema_fast & Hf).
  eapply leaves_after_lift; [exact Hf|].
  destruct (ewm_mean_Ok _ (close df) (Hmin _ Hslow)) as (ema_slow & Hs).
  eapply leaves_after_lift; [exact Hs|].
  apply leaves_after; [apply succeeds_assign|]. intros _.
  destruct (ewm_mean_Ok _ (zip_with Qminus ema_fast ema_slow) (Hmin _ Hsignal))
    as (macd_signal & Hg).
  eapply leaves_after_lift; [exact Hg|].
  apply leaves_after; [apply succeeds_assign|]. intros _.
  apply leaves_after; [apply succeeds_assign|]. intros _.
  destruct (rolling_Ok Qmean (Z.min (Periods.rsi_period periods) (len df))
              (map (pd.where0 (fun d => Qltb 0 d)) (rsi_delta df)) (Hmin _ Hrsi))
    as (gain & Hgain & Hgl).
  eapply leaves_after_lift; [exact Hgain|].
  destruct (rolling_Ok Qmean (Z.min (Periods.rsi_period periods) (len df))
              (pd.neg (map (pd.where0 (fun d => Qltb d 0)) (rsi_delta df))) (Hmin _ Hrsi))
    as (loss & Hloss & Hll).
  eapply leaves_after_lift; [exact Hloss|].
  apply leaves_established.
  - intros cols. exists (rsi_of gain loss). split; [apply lookup_insert_eq|].
    rewrite rsi_of_entries, length_zip_with, Hgl, Hll.
    unfold pd.neg. rewrite !length_map, length_rsi_delta. lia.
  - repeat first
      [ apply preserves_lift_andThen; intros ? ?
      | apply preserves_andThen; [| intros _]
      | apply preserves_for_; intros ? ].
    all: try (apply preserves_assign; intros cols (s & Hs' & Hl);
              exists s; split; [|exact Hl];
              rewrite lookup_insert_ne by (simpl; intros Heq; discriminate Heq);
              exact Hs').
    intros cols (s & Hs' & Hl). simpl.
    exists (pd.bfill (pd.ffill s)). split; [|rewrite length_fill; exact Hl].
    unfold _fill_indicator_nans. rewrite map_lookup_imap, Hs'. reflexivity.
Qed.

(** With at least 20 rows and the default periods the column is there, one
    entry per row. *)
Lemma rsi_column_present_by_default rolling_std df :
  (20 <= length df)%nat ->
  exists s,
    calculate_technical_indicators rolling_std df None !! "RSI"%string
    = Some (Floats s) /\
    length s = length df.
Proof.
  intros Hlen. unfold calculate_technical_indicators.
  destruct (len df <? 20) eqn:Hlt; [apply Z.ltb_lt in Hlt; unfold len in Hlt; lia|].
  apply (rsi_column_present rolling_std df (_get_periods None) Hlen).
  simpl. unfold valid_until_rsi. simpl.
  repeat split; try lia; repeat constructor; lia.
Qed.

(** ** The level columns are there *)

Lemma levels_columns_present rolling_std df periods key :
  (20 <= length df < 40)%nat ->
  valid_periods periods ->
  (forall w s, 1 <= w -> exists r, rolling_std w s = Ok r) ->
  key = "Support_Levels"%string \/ key = "Resistance_Levels"%string ->
  leaves (fun cols => cols !! key = Some (LevelLists (repeat [] (length df))))
    (indicators_body rolling_std df periods).
Proof.
  intros Hlen ((Hsma & Hema & Hfast & Hslow & Hsignal & Hrsi) & Hbb & Hk & Hd) Hstd Hkey.
  assert (Hmin : forall w, 1 <= w -> 1 <= Z.min w (len df)) by (unfold len; lia).
  pose proof (calculate_support_resistance_short df ltac:(lia)) as Hsr.
  unfold indicators_body.
  apply leaves_after.
  { apply succeeds_for_. intros w Hw. rewrite List.Forall_forall in Hsma.
    destruct (rolling_Ok Qmean (Z.min w (len df)) (somes (close df))
                (Hmin w (Hsma w Hw))) as (r & Hr & _).
    eapply succeeds_lift_assign. exact Hr. }
  intros _. apply leaves_after.
  { apply succeeds_for_. intros w Hw. rewrite List.Forall_forall in Hema.
    destruct (ewm_mean_Ok (Z.min w (len df)) (close df) (Hmin w (Hema w Hw))) as (r & Hr).
    eapply (succeeds_lift_assign _ _ _ (fun s => Floats (somes s))). exact Hr. }
  intros _.
  destruct (ewm_mean_Ok _ (close df) (Hmin _ Hfast)) as (ema_fast & Hf).
  eapply leaves_after_lift; [exact Hf|].
  destruct (ewm_mean_Ok _ (close df) (Hmin _ Hslow)) as (ema_slow & Hs).
  eapply leaves_after_lift; [exact Hs|].
  apply leaves_after; [apply succeeds_assign|]. intros _.
  destruct (ewm_mean_Ok _ (zip_with Qminus ema_fast ema_slow) (Hmin _ Hsignal))
    as (macd_signal & Hg).
  eapply leaves_after_lift; [exact Hg|].
  apply leaves_after; [apply succeeds_assign|]. intros _.
  apply leaves_after; [apply succeeds_assign|]. intros _.
  destruct (rolling_Ok Qmean (Z.min (Periods.rsi_period periods) (len df))
              (map (pd.where0 (fun d => Qltb 0 d)) (rsi_delta df)) (Hmin _ Hrsi))
    as (gain & Hgain & _).
  eapply leaves_after_lift; [exact Hgain|].
  destruct (rolling_Ok Qmean (Z.min (Periods.rsi_period periods) (len df))
              (pd.neg (map (pd.where0 (fun d => Qltb d 0)) (rsi_delta df))) (Hmin _ Hrsi))
    as (loss & Hloss & _).
  eapply leaves_after_lift; [exact Hloss|].
  apply leaves_after; [apply succeeds_assign|]. intros _.
  destruct (rolling_Ok Qmean (Z.min (Periods.bb_period periods) (len df))
              (somes (close df)) (Hmin _ Hbb)) as (bb_middle & Hm & _).
  eapply leaves_after_lift; [exact Hm|].
  apply leaves_after; [apply succeeds_assign|]. intros _.
  destruct (Hstd (Z.min (Periods.bb_period periods) (len df)) (somes (close df))
              (Hmin _ Hbb)) as (bb_std & Hb).
  eapply leaves_after_lift; [exact Hb|].
  apply leaves_after; [apply succeeds_assign|]. intros _.
  apply leaves_after; [apply succeeds_assign|]. intros _.
  destruct (rolling_Ok pd.Qmin_list (Z.min (Periods.stoch_k periods) (len df))
              (somes (map Candle.low df)) (Hmin _ Hk)) as (low_min & Hlo & _).
  eapply leaves_after_lift; [exact Hlo|].
  destruct (rolling_Ok pd.Qmax_list (Z.min (Periods.stoch_k periods) (len df))
              (somes (map Candle.high df)) (Hmin _ Hk)) as (high_max & Hhi & _).
  eapply leaves_after_lift; [exact Hhi|].
  apply leaves_after; [apply succeeds_assign|]. intros _.
  match goal with
  | |- leaves _ (andThen (lift (pd.rolling_mean ?w ?s)) _) =>
      destruct (rolling_Ok Qmean w s (Hmin _ Hd)) as (stoch_d & Hsd & _)
  end.
  eapply leaves_after_lift; [exact Hsd|].
  apply leaves_after; [apply succeeds_assign|]. intros _.
  eapply leaves_after_lift; [exact Hsr|]. simpl Levels.support. simpl Levels.resistance.
  assert (Hfill : preserves
            (fun cols => cols !! key = Some (LevelLists (repeat [] (length df))))
            (fun cols => (_fill_indicator_nans cols, Ok tt))).
  { intros cols Hc. simpl. unfold _fill_indicator_nans.
    rewrite map_lookup_imap, Hc. reflexivity. }
  destruct Hkey as [-> | ->].
  - apply leaves_established; [intros cols; apply lookup_insert_eq|].
    apply preserves_andThen; [|intros _; exact Hfill].
    apply preserves_assign. intros cols Hc.
    rewrite lookup_insert_ne by (intros Heq; discriminate Heq). exact Hc.
  - apply leaves_after; [apply succeeds_assign|]. intros _.
    apply leaves_established; [intros cols; apply lookup_insert_eq | exact Hfill].
Qed.

(** With 20 to 39 rows and the default periods both columns are there and
    empty on every row, provided the standard deviation returns. *)
Lemma levels_columns_present_by_default rolling_std df :
  (20 <= length df < 40)%nat ->
  (forall w s, 1 <= w -> exists r, rolling_std w s = Ok r) ->
  calculate_technical_indicators rolling_std df None !! "Support_Levels"%string
  = Some (LevelLists (repeat [] (length df))) /\
  calculate_technical_indicators rolling_std df None !! "Resistance_Levels"%string
  = Some (LevelLists (repeat [] (length df))).
Proof.
  intros Hlen Hstd. unfold calculate_technical_indicators.
  destruct (len df <? 20) eqn:Hlt; [apply Z.ltb_lt in Hlt; unfold len in Hlt; lia|].
  assert (Hv : valid_periods (_get_periods None)).
  { simpl. unfold valid_periods, valid_until_rsi. simpl.
    repeat split; try lia; repeat constructor; lia. }
  split; apply (levels_columns_present rolling_std df (_get_periods None) _ Hlen Hv Hstd);
    auto.
Qed.

(** C10.  On a series of fewer than 40 rows [calculate_support_resistance]
    returns no support and no resistance level; so whatever
    [calculate_technical_indicators] puts under [Support_Levels] and
    [Resistance_Levels] on such a series is the empty list on every row; and
    on a series of 20 to 39 rows, with periods of one row at least (as the
    defaults are) and a rolling standard deviation that returns, both
    columns are there, the empty list on every row. *)
Theorem short_series_has_no_levels rolling_std df custom_periods :
  (length df < 40)%nat ->
  calculate_support_resistance df 20 = Ok (Levels.mk [] []) /\
  (forall c,
     calculate_technical_indicators rolling_std df custom_periods
       !! "Support_Levels"%string = Some c ->
     c = LevelLists (repeat [] (length df))) /\
  (forall c,
     calculate_technical_indicators rolling_std df custom_periods
       !! "Resistance_Levels"%string = Some c ->
     c = LevelLists (repeat [] (length df))) /\
  ((20 <= length df)%nat ->
   valid_periods (_get_periods custom_periods) ->
   (forall w s, 1 <= w -> exists r, rolling_std w s = Ok r) ->
   calculate_technical_indicators rolling_std df custom_periods
     !! "Support_Levels"%string = Some (LevelLists (repeat [] (length df))) /\
   calculate_technical_indicators rolling_std df custom_periods
     !! "Resistance_Levels"%string = Some (LevelLists (repeat [] (length df)))).
Proof.
  intros Hlen.
  split; [apply calculate_support_resistance_short; exact Hlen|].
  unfold calculate_technical_indicators.
  destruct (len df <? 20) eqn:Hlt.
  - split; [intros c Hc; rewrite lookup_empty in Hc; discriminate|].
    split; [intros c Hc; rewrite lookup_empty in Hc; discriminate|].
    intros Hmin. apply Z.ltb_lt in Hlt. unfold len in Hlt. lia.
  - split; [|split].
    + intros c Hc.
      refine (levels_columns_of_short_series rolling_std df _ _ Hlen _ ∅
                (column_inv_empty _ _) c Hc); auto.
    + intros c Hc.
      refine (levels_columns_of_short_series rolling_std df _ _ Hlen _ ∅
                (column_inv_empty _ _) c Hc); auto.
    + intros Hmin Hv Hstd.
      split;
        apply (levels_columns_present rolling_std df (_get_periods custom_periods) _
                 (conj Hmin Hlen) Hv Hstd); auto.
Qed.

Lemma short_series_has_no_levels_witness :
  calculate_support_resistance example_m5 20 = Ok (Levels.mk [] []) /\
  calculate_technical_indicators example_rolling_std example_m5 None
    !! "Support_Levels"%string = Some (LevelLists (repeat [] (length example_m5))) /\
  calculate_technical_indicators example_rolling_std example_m5 None
    !! "Resistance_Levels"%string = Some (LevelLists (repeat [] (length example_m5))) /\
  swing (fun a b => Qltb b a) (map Candle.high example_m5) 10 15 = true /\
  swing Qltb (map Candle.low example_m5) 10 12 = true.
Proof.
  destruct (short_series_has_no_levels example_rolling_std example_m5 None)
    as (Hsr & _ & _ & Hpresent); [rewrite example_m5_length; lia|].
  destruct Hpresent as [Hsup Hres].
  - rewrite example_m5_length. lia.
  - simpl. unfold valid_periods, valid_until_rsi. simpl.
    repeat split; try lia; repeat constructor; lia.
  - intros w s Hw. unfold example_rolling_std.
    destruct (rolling_Ok (fun _ => 0%Q) w s Hw) as (r & Hr & _). eauto.
  - split; [exact Hsr|]. split; [exact Hsup|]. split; [exact Hres|].
    split; vm_compute; reflexivity.
Defined.

(** ** The series the producer hands to the builder *)

Lemma annotated_times (df : list Candle.t) :
  map ARow.time (calculate_momentum_analysis df) = map Candle.time df.
Proof.
  rewrite <- (calculate_momentum_analysis_rows df) at 2.
  rewrite map_map. reflexivity.
Qed.

(** Every series of a producer cycle is stored newest first, with or without
    its momentum columns. *)
Lemma fetched_series_newest_first (utc_offset : Z) (rates : list Candle.t) :
  newest_first (map Candle.time (fetch_frame utc_offset rates)) /\
  newest_first
    (map ARow.time (calculate_momentum_analysis (fetch_frame utc_offset rates))).
Proof.
  split; [|rewrite annotated_times]; apply fetch_frame_newest_first.
Qed.

(** * Further properties of the engine *)

(** ** What the builder raises *)

Lemma mapM_Raise {A B} (f : A -> result B) (l : list A) (e : exn) :
  mapM f l = Raise e -> exists x, In x l /\ f x = Raise e.
Proof.
  induction l as [|x l IH]; simpl; [discriminate|].
  destruct (f x) as [y|e'] eqn:Hfx.
  - destruct (mapM f l) as [ys|e'']; [discriminate|].
    intros H. injection H as ->. destruct (IH eq_refl) as (x' & ? & ?). eauto.
  - intros H. injection H as ->. eauto.
Qed.

Lemma block_of_Raise tf df row kids e :
  In row df -> block_of tf df row kids = Raise e -> kids = Raise e.
Proof.
  intros Hin. unfold block_of.
  destruct (first_index_at_In row df Hin) as (i & r & -> & Hi). simpl.
  destruct (get_momentum_summary_total df i r Hi) as [s ->]. simpl.
  destruct kids as [ks|e']; simpl; congruence.
Qed.

Lemma get_children_below_Raise data below parent_time parent_tf e :
  get_children_below data below parent_time parent_tf = Raise e -> e = KeyError.
Proof.
  revert parent_time parent_tf.
  induction below as [|child_tf below IH]; intros parent_time parent_tf; simpl;
    [discriminate|].
  destruct (data !! child_tf) as [[|r df]|]; try discriminate.
  destruct (config.TIMEFRAME_DURATIONS !! parent_tf) as [minutes|]; [|congruence].
  intros H. apply mapM_Raise in H as (row & Hin & Hrow).
  apply filter_In in Hin as [Hin _].
  apply block_of_Raise in Hrow; [|exact Hin].
  eapply IH; eauto.
Qed.

(** X1.  The only exception [build_pyramid_json] raises is the [KeyError] of
    the duration table, and it raises it only when the base timeframe or a
    label of the hierarchy has no duration. *)
Theorem build_pyramid_json_raises_only_KeyError self data now e :
  build_pyramid_json self data now = Raise e ->
  e = KeyError /\
  exists base_tf tf,
    Engine.base_tf self = Some base_tf /\
    In tf (base_tf :: Engine.pyramid_structure self) /\
    config.TIMEFRAME_DURATIONS !! tf = None.
Proof.
  intros Hr. split.
  - unfold build_pyramid_json in Hr.
    destruct (Engine.base_tf self) as [base_tf|]; [|discriminate].
    destruct (data !! base_tf) as [[|r df]|]; try discriminate.
    destruct (mapM _ _) as [blocks|e'] eqn:Hm; simpl in Hr; [discriminate|].
    injection Hr as ->.
    apply mapM_Raise in Hm as (row & Hin & Hrow).
    apply block_of_Raise in Hrow; [|exact Hin].
    eapply get_children_below_Raise. exact Hrow.
  - destruct (Engine.base_tf self) as [base_tf|] eqn:Hb.
    + destruct (@List.Forall_Exists_dec string
                  (fun tf => is_Some (config.TIMEFRAME_DURATIONS !! tf))
                  (fun tf => decide (is_Some (config.TIMEFRAME_DURATIONS !! tf)))
                  (base_tf :: Engine.pyramid_structure self)) as [Hall|Hex].
      * destruct (build_pyramid_json_total self data now) as [py Hpy]; [|congruence].
        intros b Hb'. rewrite Hb in Hb'. injection Hb' as <-. exact Hall.
      * apply List.Exists_exists in Hex as (tf & Hin & Hno).
        exists base_tf, tf. repeat split; [exact Hin|].
        destruct (config.TIMEFRAME_DURATIONS !! tf); [|reflexivity].
        exfalso. apply Hno. eauto.
    + unfold build_pyramid_json in Hr. rewrite Hb in Hr. discriminate.
Qed.

Lemma build_pyramid_json_raises_only_KeyError_witness :
  KeyError = KeyError /\
  exists base_tf tf,
    Engine.base_tf
      (Engine.mk (Some "EURUSD") (Some "weekly") ["W1"; "D1"] (Some "W1")
         10 0 ∅ ∅ (Some "EURUSD") None ∅)%string = Some base_tf /\
    In tf (base_tf :: ["W1"; "D1"]%string) /\
    config.TIMEFRAME_DURATIONS !! tf = None.
Proof.
  apply (build_pyramid_json_raises_only_KeyError
           (Engine.mk (Some "EURUSD") (Some "weekly") ["W1"; "D1"] (Some "W1")
              10 0 ∅ ∅ (Some "EURUSD") None ∅)%string
           (<["W1"%string := calculate_momentum_analysis (fetch_frame 0 example_d1_rates)]>
              example_data) 0).
  vm_compute. reflexivity.
Defined.

(** ** Empty input *)

(** X2.  Without a base series (no base timeframe configured, no series
    under it, or an empty one) the builder returns, whatever the labels of
    the hierarchy: a pyramid without blocks that carries the configured
    structure and the clock reading, and the symbol and style with
    ["Unknown"] in place of a missing or empty one. *)
Theorem build_pyramid_json_without_base_series self data now :
  (forall base_tf, Engine.base_tf self = Some base_tf ->
     data !! base_tf = None \/ data !! base_tf = Some []) ->
  exists py,
    build_pyramid_json self data now = Ok py /\
    Pyramid.blocks py = [] /\
    Pyramid.structure py = Engine.pyramid_structure self /\
    Pyramid.generated py = now /\
    Pyramid.symbol py = or_unknown (Engine.symbol self) /\
    Pyramid.style py = or_unknown (Engine.pyramid_style self) /\
    Pyramid.symbol py <> None /\ Pyramid.symbol py <> Some ""%string.
Proof.
  intros Hbase. exists (_create_empty_pyramid self now).
  split.
  - unfold build_pyramid_json.
    destruct (Engine.base_tf self) as [base_tf|]; [|reflexivity].
    destruct (Hbase base_tf eq_refl) as [-> | ->]; reflexivity.
  - simpl. repeat split; unfold or_unknown;
      destruct (Engine.symbol self) as [s|]; try discriminate;
      destruct (String.eqb s "") eqn:He; try discriminate.
    intros H. injection H as ->. discriminate He.
Qed.

Lemma build_pyramid_json_without_base_series_witness :
  exists py,
    build_pyramid_json init example_data 7 = Ok py /\
    Pyramid.blocks py = [] /\
    Pyramid.structure py = Engine.pyramid_structure init /\
    Pyramid.generated py = 7 /\
    Pyramid.symbol py = or_unknown (Engine.symbol init) /\
    Pyramid.style py = or_unknown (Engine.pyramid_style init) /\
    Pyramid.symbol py <> None /\ Pyramid.symbol py <> Some ""%string.
Proof.
  apply (build_pyramid_json_without_base_series init example_data 7).
  intros base_tf H. discriminate H.
Defined.

(** ** The root blocks and the labels of the tree *)

(** X3.  With a base series, the root blocks of a returned pyramid are the
    blocks of the first [extract_count] rows of that series (of all its rows
    but the last [-extract_count] for a negative count), one per row and in
    storage order, each under the base label and with its prices rounded to
    five decimals. *)
Theorem root_blocks_are_the_first_rows self data now base_tf df py :
  Engine.base_tf self = Some base_tf ->
  data !! base_tf = Some df ->
  build_pyramid_json self data now = Ok py ->
  Forall2 (same_candle base_tf) (iloc_to (Engine.extract_count self) df)
    (Pyramid.blocks py) /\
  map Block.time (Pyramid.blocks py)
  = map ARow.time (iloc_to (Engine.extract_count self) df).
Proof.
  intros Hbase Hdf Hb. apply build_pyramid_json_Ok in Hb.
  rewrite Hbase, Hdf in Hb.
  assert (Hf : Forall2 (same_candle base_tf) (iloc_to (Engine.extract_count self) df)
                 (Pyramid.blocks py)).
  { destruct df as [|r df].
    - subst py. simpl. unfold iloc_to. destruct (0 <=? _); simpl; rewrite ?take_nil;
        constructor.
    - destruct Hb as (_ & _ & _ & _ & Hf).
      eapply Forall2_impl; [exact Hf|]. intros row b [Hs _]. exact Hs. }
  split; [exact Hf|].
  apply (Forall2_map_eq ARow.time Block.time).
  eapply Forall2_impl; [exact Hf|]. intros row b (_ & Ht & _). exact Ht.
Qed.

Lemma root_blocks_are_the_first_rows_witness :
  Forall2 (same_candle "D1")
    (iloc_to (Engine.extract_count example_engine)
       (calculate_momentum_analysis (fetch_frame 0 example_d1_rates)))
    (Pyramid.blocks (example_pyramid 0)) /\
  map Block.time (Pyramid.blocks (example_pyramid 0))
  = map ARow.time
      (iloc_to (Engine.extract_count example_engine)
         (calculate_momentum_analysis (fetch_frame 0 example_d1_rates))).
Proof.
  apply (root_blocks_are_the_first_rows example_engine example_data 0 "D1").
  - reflexivity.
  - vm_compute. reflexivity.
  - vm_compute. reflexivity.
Defined.

(** X4.  In a returned pyramid every root block carries the base label, and
    a block at level [k] has children only when the hierarchy has a level
    [k + 1], whose label every child carries: the tree is never deeper than
    the hierarchy, and the blocks of its last level are leaves. *)
Theorem labels_follow_the_hierarchy self data now py :
  build_pyramid_json self data now = Ok py ->
  (forall root, In root (Pyramid.blocks py) ->
     Engine.base_tf self = Some (Block.tf root)) /\
  (forall k p c, in_pyramid py k p -> In c (Block.children p) ->
     Engine.pyramid_structure self !! (k + 1)%nat = Some (Block.tf c) /\
     (k + 1 < length (Engine.pyramid_structure self))%nat).
Proof.
  intros Hb. split.
  - intros root Hroot. pose proof (build_pyramid_json_Ok self data now py Hb) as H.
    destruct (Engine.base_tf self) as [base_tf|];
      [destruct (data !! base_tf) as [[|r df]|]|];
      try (subst py; simpl in Hroot; contradiction).
    destruct H as (_ & _ & _ & _ & Hf).
    destruct (Forall2_In_r _ _ _ _ Hf Hroot) as (row & _ & (Ht & _) & _).
    rewrite Ht. reflexivity.
  - intros k p c Hp Hc.
    pose proof (in_pyramid_built self data now py k p Hb Hp) as Hbuilt.
    unfold built in Hbuilt.
    change (get_children self data (Block.time p) (Block.tf p) k = Ok (Block.children p))
      in Hbuilt.
    rewrite get_children_unfold in Hbuilt.
    destruct (Engine.pyramid_structure self !! (k + 1)%nat) as [child_tf|] eqn:Hl.
    + assert (Htf : Block.tf c = child_tf).
      { destruct (data !! child_tf) as [[|r df]|];
          try (injection Hbuilt as Hnil; rewrite <- Hnil in Hc; contradiction).
        destruct (config.TIMEFRAME_DURATIONS !! Block.tf p) as [minutes|]; [|discriminate].
        apply mapM_Ok_Forall2 in Hbuilt.
        destruct (Forall2_In_r _ _ _ _ Hbuilt Hc) as (row & _ & Hrow).
        apply block_of_Ok in Hrow as [(Ht & _) _]. exact Ht. }
      rewrite Htf. split; [reflexivity|].
      apply lookup_lt_Some in Hl. exact Hl.
    + injection Hbuilt as Hnil. rewrite <- Hnil in Hc. contradiction.
Qed.

Lemma labels_follow_the_hierarchy_witness :
  (forall root, In root (Pyramid.blocks (example_pyramid 0)) ->
     Engine.base_tf example_engine = Some (Block.tf root)) /\
  (forall k p c, in_pyramid (example_pyramid 0) k p -> In c (Block.children p) ->
     Engine.pyramid_structure example_engine !! (k + 1)%nat = Some (Block.tf c) /\
     (k + 1 < length (Engine.pyramid_structure example_engine))%nat).
Proof.
  apply (labels_follow_the_hierarchy example_engine example_data 0).
  vm_compute. reflexivity.
Defined.

(** ** The configured styles *)

Lemma style_structure_cases (pyramid_style : string) :
  In (style_structure pyramid_style) (map snd config.PYRAMID_STYLES).
Proof.
  unfold style_structure.
  destruct (list_to_map config.PYRAMID_STYLES !! pyramid_style) as [structure|] eqn:Hl.
  - apply elem_of_list_to_map_2 in Hl. apply list_elem_of_In in Hl.
    apply (in_map snd) in Hl. exact Hl.
  - vm_compute. auto.
Qed.

(** X5.  For every style, known or not (an unknown one falls back to
    ['daily']), an engine configured with the hierarchy of the style builds a
    pyramid from any data without raising: every label of the four
    hierarchies has a duration. *)
Theorem configured_styles_always_build engine symbol pyramid_style name utc_offset self
    data now :
  configure_pyramid engine symbol (style_structure pyramid_style) name utc_offset
  = Ok self ->
  exists py, build_pyramid_json self data now = Ok py.
Proof.
  intros Hc. apply build_pyramid_json_total.
  pose proof (style_structure_cases pyramid_style) as Hs.
  unfold configure_pyramid in Hc.
  destruct (style_structure pyramid_style) as [|base rest] eqn:He; [discriminate|].
  injection Hc as <-. simpl. intros base_tf Hb. injection Hb as <-.
  simpl in Hs.
  assert (Hk : forall tf, In tf (base :: rest) ->
                 is_Some (config.TIMEFRAME_DURATIONS !! tf)).
  { destruct Hs as [Hs|[Hs|[Hs|[Hs|[]]]]]; rewrite <- Hs; intros tf Hin; simpl in Hin;
      repeat (destruct Hin as [<-|Hin]; [vm_compute; eauto|]); contradiction. }
  constructor; [apply Hk; left; reflexivity|].
  apply List.Forall_forall. intros tf Hin. apply Hk.
  destruct Hs as [Hs|[Hs|[Hs|[Hs|[]]]]]; injection Hs as <- <-; simpl; simpl in Hin; tauto.
Qed.

Lemma configured_styles_always_build_witness :
  exists py, build_pyramid_json example_fallback_engine example_data 0 = Ok py.
Proof.
  apply (configured_styles_always_build init "EURUSD" "monthly" "daily" 0
           example_fallback_engine example_data 0).
  vm_compute. reflexivity.
Defined.

(** ** The momentum columns, row by row *)

Lemma assemble_lookup df : forall m d acc w b atr i a,
  assemble df m d acc w b atr !! i = Some a ->
  df !! i = Some (ARow.row a) /\ m !! i = Some (ARow.Momentum a) /\
  d !! i = Some (ARow.Dir a) /\ acc !! i = Some (ARow.Momentum_Acceleration a) /\
  w !! i = Some (ARow.Wick_Ratio a) /\ b !! i = Some (ARow.Body_Strength a) /\
  atr !! i = Some (ARow.ATR a).
Proof.
  induction df as [|r df IH];
    intros [|x m] [|y d] [|c acc] [|ww w] [|bb b] [|t atr] i a; simpl;
    try discriminate.
  destruct i as [|i]; simpl.
  - intros H. injection H as <-. simpl. auto 10.
  - apply IH.
Qed.

Lemma In_lookup {A} (l : list A) (x : A) : In x l -> exists i, l !! i = Some x.
Proof. intros H. apply list_elem_of_In in H. apply list_elem_of_lookup in H. exact H. Qed.

Lemma lookup_In {A} (l : list A) (i : nat) (x : A) : l !! i = Some x -> In x l.
Proof. intros H. apply list_elem_of_In. eapply list_elem_of_lookup_2. exact H. Qed.

Lemma Qltb_false (a b : Q) : Qltb a b = false -> (b <= a)%Q.
Proof.
  unfold Qltb. intros H. apply negb_false_iff in H. apply Qle_bool_iff. exact H.
Qed.

(** X6.  On every row [calculate_momentum_analysis] returns, [Momentum] is
    [close - open] and [Dir] is its sign: up exactly when the candle closes
    above its open, down exactly when below, flat exactly on equality. *)
Theorem direction_is_the_sign_of_momentum df a :
  In a (calculate_momentum_analysis df) ->
  let r := ARow.row a in
  ARow.Momentum a = (Candle.close r - Candle.open r)%Q /\
  (ARow.Dir a = DirUp <-> (Candle.open r < Candle.close r)%Q) /\
  (ARow.Dir a = DirDown <-> (Candle.close r < Candle.open r)%Q) /\
  (ARow.Dir a = DirFlat <-> (Candle.close r == Candle.open r)%Q).
Proof.
  intros Hin r. apply In_lookup in Hin as [i Hi].
  unfold calculate_momentum_analysis in Hi.
  apply assemble_lookup in Hi as (Hr & Hm & Hd & _).
  unfold Dir_col in Hd. rewrite list_lookup_fmap, Hm in Hd. injection Hd as Hd.
  unfold Momentum_col in Hm. rewrite list_lookup_fmap, Hr in Hm. injection Hm as Hm.
  fold r in Hm. split; [symmetry; exact Hm|].
  rewrite <- Hd, <- Hm. unfold Dir_of.
  destruct (Qltb 0 (Candle.close r - Candle.open r)) eqn:Hup.
  - apply Qltb_true in Hup.
    repeat split; intros H; try discriminate H; try reflexivity; lra.
  - apply Qltb_false in Hup.
    destruct (Qltb (Candle.close r - Candle.open r) 0) eqn:Hdown.
    + apply Qltb_true in Hdown.
      repeat split; intros H; try discriminate H; try reflexivity; lra.
    + apply Qltb_false in Hdown.
      repeat split; intros H; try discriminate H; try reflexivity; lra.
Qed.

Lemma direction_is_the_sign_of_momentum_witness :
  exists a,
    calculate_momentum_analysis [tiny_wick_candle] = [a] /\
    ARow.row a = tiny_wick_candle /\
    ARow.Momentum a = (Candle.close tiny_wick_candle - Candle.open tiny_wick_candle)%Q /\
    (ARow.Dir a = DirUp <->
     (Candle.open tiny_wick_candle < Candle.close tiny_wick_candle)%Q).
Proof.
  destruct (calculate_momentum_analysis [tiny_wick_candle]) as [|a l] eqn:Hc;
    [vm_compute in Hc; discriminate|].
  assert (Hl : l = []) by (vm_compute in Hc; injection Hc as _ <-; reflexivity).
  subst l.
  assert (Hr : ARow.row a = tiny_wick_candle)
    by (vm_compute in Hc; injection Hc as <-; reflexivity).
  exists a. split; [reflexivity|]. split; [exact Hr|].
  pose proof (direction_is_the_sign_of_momentum [tiny_wick_candle] a) as H.
  rewrite Hc in H. specialize (H (or_introl eq_refl)). cbv zeta in H.
  rewrite Hr in H. destruct H as (Hm & Hup & _). auto.
Defined.

Lemma lookup_repeat_app {A} (x : A) (k : nat) (s : list A) (i : nat) :
  (repeat x k ++ s) !! i = if (i <? k)%nat then Some x else s !! (i - k)%nat.
Proof.
  revert i. induction k as [|k IH]; intros i; simpl.
  - rewrite Nat.sub_0_r. reflexivity.
  - destruct i as [|i]; simpl; [reflexivity|]. apply IH.
Qed.

Lemma lookup_shift (k : nat) (s : list (option Q)) (i : nat) :
  (i < length s)%nat ->
  pd.shift k s !! i = if (i <? k)%nat then Some None else s !! (i - k)%nat.
Proof.
  intros Hi. unfold pd.shift, pd.Series in *. rewrite lookup_take_lt by exact Hi.
  apply lookup_repeat_app.
Qed.

Lemma lookup_col (f : Candle.t -> Q) (df : list Candle.t) (i : nat) :
  (col df f : list (option Q)) !! i = (fun r => Some (f r)) <$> df !! i.
Proof. unfold col. apply list_lookup_fmap. Qed.

(** X7.  [Momentum_Acceleration] is [NaN] on the first two rows of the frame
    and, on row [i >= 2], [(close[i] - close[i-1]) - (close[i-1] - close[i-2])]
    over the rows as they are stored. *)
Theorem momentum_acceleration_rows df i a :
  calculate_momentum_analysis df !! i = Some a ->
  match i with
  | O | S O => ARow.Momentum_Acceleration a = None
  | S (S j) =>
      exists r1 r2,
        df !! S j = Some r1 /\ df !! j = Some r2 /\
        ARow.Momentum_Acceleration a
        = Some ((Candle.close (ARow.row a) - Candle.close r1)
                - (Candle.close r1 - Candle.close r2))%Q
  end.
Proof.
  intros Hi. unfold calculate_momentum_analysis in Hi.
  apply assemble_lookup in Hi as (Hr & _ & _ & Ha & _).
  assert (Hlen : (i < length (col df Candle.close))%nat).
  { rewrite length_col. eapply lookup_lt_Some. exact Hr. }
  unfold Momentum_Acceleration_col, pd.sub, pd.Series in *.
  rewrite !lookup_zip_with in Ha.
  rewrite !lookup_shift in Ha by exact Hlen.
  rewrite !lookup_col, Hr in Ha. simpl in Ha.
  destruct i as [|[|j]]; simpl in Ha.
  - injection Ha as <-. reflexivity.
  - destruct (df !! 0%nat) as [r0|]; simpl in Ha; [|discriminate].
    injection Ha as <-. reflexivity.
  - rewrite Nat.sub_0_r in Ha.
    destruct (df !! S j) as [r1|] eqn:H1; simpl in Ha.
    + destruct (df !! j) as [r2|] eqn:H2; simpl in Ha.
      * injection Ha as <-. exists r1, r2. auto.
      * apply lookup_ge_None in H2. apply lookup_lt_Some in H1. lia.
    + apply lookup_ge_None in H1. apply lookup_lt_Some in Hr. lia.
Qed.

Lemma momentum_acceleration_rows_witness :
  exists a r1 r2,
    calculate_momentum_analysis (fetch_frame 0 example_h4_rates) !! 2%nat = Some a /\
    fetch_frame 0 example_h4_rates !! 1%nat = Some r1 /\
    fetch_frame 0 example_h4_rates !! 0%nat = Some r2 /\
    ARow.Momentum_Acceleration a
    = Some ((Candle.close (ARow.row a) - Candle.close r1)
            - (Candle.close r1 - Candle.close r2))%Q.
Proof.
  destruct (calculate_momentum_analysis (fetch_frame 0 example_h4_rates) !! 2%nat)
    as [a|] eqn:Ha; [|vm_compute in Ha; discriminate].
  destruct (momentum_acceleration_rows _ _ _ Ha) as (r1 & r2 & H1 & H2 & Hacc).
  exists a, r1, r2. auto.
Defined.

(** ** The average true range *)

Lemma sub_col (f g : Candle.t -> Q) (df : list Candle.t) :
  pd.sub (col df f) (col df g) = map (fun r => Some (f r - g r)%Q) df.
Proof.
  unfold pd.sub, col. induction df as [|r df IH]; simpl; [reflexivity|].
  f_equal. exact IH.
Qed.

Lemma fold_left_max_ge (l : list Q) (x : Q) :
  (x <= fold_left (fun m y => if Qltb m y then y else m) l x)%Q.
Proof.
  revert x. induction l as [|y l IH]; intros x; simpl; [lra|].
  destruct (Qltb x y) eqn:Hxy.
  - apply Qltb_true in Hxy. pose proof (IH y). lra.
  - apply IH.
Qed.

Lemma true_range_nonnegative df :
  (forall r, In r df -> well_formed r) -> nonnegative (true_range df).
Proof.
  intros Hwf x Hx. unfold true_range in Hx.
  apply In_zip_with in Hx as (hl & bc & Hhl & _ & ->).
  rewrite sub_col in Hhl. apply in_map_iff in Hhl as (r & <- & Hr).
  unfold pd.max_skipna, pd.observations. simpl.
  eexists. split; [reflexivity|].
  unfold pd.Qmax_list.
  eapply Qle_trans; [|apply fold_left_max_ge].
  specialize (Hwf r Hr). unfold well_formed in Hwf. lra.
Qed.

(** X8.  On a series of well-formed candles ([low <= high]) every row gets
    an [ATR] that is a number (never [NaN], from the first row on) and not
    negative. *)
Theorem atr_defined_and_nonnegative df a :
  (forall r, In r df -> well_formed r) ->
  In a (calculate_momentum_analysis df) ->
  exists q, ARow.ATR a = Some q /\ (0 <= q)%Q.
Proof.
  intros Hwf Hin. apply In_lookup in Hin as [i Hi].
  unfold calculate_momentum_analysis in Hi.
  apply assemble_lookup in Hi as (_ & _ & _ & _ & _ & _ & Hatr).
  apply lookup_In in Hatr. revert Hatr. unfold ATR_col.
  destruct (rolling_Ok Qmean 14 (true_range df)) as (r & Hr & _); [lia|].
  unfold pd.rolling_mean. rewrite Hr. intros Hatr.
  eapply rolling_mean_nonnegative; [apply true_range_nonnegative; exact Hwf | exact Hr | exact Hatr].
Qed.

Lemma atr_defined_and_nonnegative_witness :
  Forall (fun a => exists q, ARow.ATR a = Some q /\ (0 <= q)%Q)
    (calculate_momentum_analysis (fetch_frame 0 example_h4_rates)).
Proof.
  apply List.Forall_forall. intros a.
  apply (atr_defined_and_nonnegative (fetch_frame 0 example_h4_rates) a).
  intros r Hr. vm_compute in Hr.
  repeat (destruct Hr as [<-|Hr]; [vm_compute; discriminate|]). contradiction.
Defined.

(** ** The periods of a chart request *)

Lemma dict_set_keys key value d k :
  In k (map fst (dict_set key value d)) -> k = key \/ In k (map fst d).
Proof.
  induction d as [|[k' v'] d IH]; simpl.
  - intros [<-|[]]. auto.
  - destruct (String.eqb k' key) eqn:He; simpl.
    + apply String.eqb_eq in He. subst k'. tauto.
    + intros [<-|Hin]; [auto|]. destruct (IH Hin); auto.
Qed.

Lemma extract_keys_accepted int args k :
  In k (map fst (_extract_custom_periods int args)) ->
  ends_with "_period" k || contains "_period_" k = true.
Proof.
  unfold _extract_custom_periods.
  assert (Hgen : forall d,
            (forall k', In k' (map fst d) ->
                        ends_with "_period" k' || contains "_period_" k' = true) ->
            In k (map fst
                    (fold_left
                       (fun custom_periods kv =>
                          let '(key, value) := kv in
                          if ends_with "_period" key
                          then try_store int key value custom_periods
                          else if contains "_period_" key
                               then try_store int key value custom_periods
                               else custom_periods) args d)) ->
            ends_with "_period" k || contains "_period_" k = true).
  { induction args as [|[key value] args IH]; intros d Hd; simpl; [apply Hd|].
    apply IH.
    assert (Hstore : ends_with "_period" key || contains "_period_" key = true ->
                     forall k', In k' (map fst (try_store int key value d)) ->
                                ends_with "_period" k' || contains "_period_" k' = true).
    { intros Hacc k' Hk'. unfold try_store in Hk'.
      destruct (int value); [|auto].
      apply dict_set_keys in Hk' as [->|Hk']; auto. }
    destruct (ends_with "_period" key) eqn:He; [apply Hstore; reflexivity|].
    destruct (contains "_period_" key) eqn:Hc; [apply Hstore; reflexivity|].
    exact Hd. }
  apply Hgen. simpl. tauto.
Qed.

Lemma dict_get_absent key d dflt :
  ~ In key (map fst d) -> dict_get key d dflt = dflt.
Proof.
  unfold dict_get. induction d as [|[k v] d IH]; simpl; [reflexivity|].
  intros Hno. destruct (String.eqb k key) eqn:He.
  - apply String.eqb_eq in He. tauto.
  - apply IH. tauto.
Qed.

(** X9.  Whatever a chart request carries, the MACD periods and the
    stochastic periods it is served with are the defaults 12, 26, 9 and 14,
    3: [_extract_custom_periods] keeps only keys that end in ['_period'] or
    contain ['_period_'], and [_get_periods] reads these five periods under
    keys of neither form. *)
Theorem request_cannot_reach_macd_or_stochastic int args :
  let p := request_periods int args in
  Periods.macd_fast p = 12 /\ Periods.macd_slow p = 26 /\
  Periods.macd_signal p = 9 /\ Periods.stoch_k p = 14 /\ Periods.stoch_d p = 3.
Proof.
  cbv zeta. unfold request_periods, _get_periods.
  pose proof (extract_keys_accepted int args) as Hkeys.
  destruct (_extract_custom_periods int args) as [|kv d] eqn:Hd; [simpl; auto|].
  cbn [Periods.macd_fast Periods.macd_slow Periods.macd_signal Periods.stoch_k
       Periods.stoch_d].
  repeat split; apply dict_get_absent; intros Hin; apply Hkeys in Hin;
    vm_compute in Hin; discriminate Hin.
Qed.

Lemma dict_set_NoDup key value d :
  List.NoDup (map fst d) -> List.NoDup (map fst (dict_set key value d)).
Proof.
  induction d as [|[k v] d IH]; simpl; intros Hnd.
  - apply List.NoDup_cons; [simpl; tauto | apply List.NoDup_nil].
  - apply List.NoDup_cons_iff in Hnd as [Hk Hnd].
    destruct (String.eqb k key) eqn:He; simpl.
    + apply String.eqb_eq in He. subst k. apply List.NoDup_cons; assumption.
    + apply List.NoDup_cons; [|apply IH; exact Hnd].
      intros Hin. apply dict_set_keys in Hin as [->|Hin]; [|tauto].
      rewrite String.eqb_refl in He. discriminate.
Qed.

Lemma dict_set_In_same key value d : In (key, value) (dict_set key value d).
Proof.
  induction d as [|[k v] d IH]; simpl; [auto|].
  destruct (String.eqb k key); simpl; auto.
Qed.

Lemma dict_set_In_other key value d k v :
  k <> key -> In (k, v) d -> In (k, v) (dict_set key value d).
Proof.
  intros Hne. induction d as [|[k' v'] d IH]; simpl; [tauto|].
  intros [Heq|Hin].
  - injection Heq as -> ->. destruct (String.eqb k key) eqn:He.
    + apply String.eqb_eq in He. contradiction.
    + left. reflexivity.
  - destruct (String.eqb k' key); simpl; auto.
Qed.

Lemma dict_get_In key value d dflt :
  List.NoDup (map fst d) -> In (key, value) d -> dict_get key d dflt = value.
Proof.
  unfold dict_get. induction d as [|[k v] d IH]; simpl; [tauto|].
  intros Hnd Hin. apply List.NoDup_cons_iff in Hnd as [Hk Hnd].
  destruct (String.eqb k key) eqn:He.
  - apply String.eqb_eq in He. subst k. destruct Hin as [Heq|Hin].
    + injection Heq as ->. reflexivity.
    + exfalso. apply Hk. apply (in_map fst) in Hin. exact Hin.
  - destruct Hin as [Heq|Hin].
    + injection Heq as -> ->. rewrite String.eqb_refl in He. discriminate.
    + apply IH; assumption.
Qed.

Lemma extract_snoc int args key value :
  _extract_custom_periods int (args ++ [(key, value)])
  = if ends_with "_period" key
    then try_store int key value (_extract_custom_periods int args)
    else if contains "_period_" key
         then try_store int key value (_extract_custom_periods int args)
         else _extract_custom_periods int args.
Proof. unfold _extract_custom_periods. rewrite fold_left_app. reflexivity. Qed.

Lemma extract_NoDup int args : List.NoDup (map fst (_extract_custom_periods int args)).
Proof.
  induction args as [|[key value] args IH] using rev_ind; [apply List.NoDup_nil|].
  rewrite extract_snoc. unfold try_store.
  destruct (ends_with "_period" key); [|destruct (contains "_period_" key)];
    try assumption; destruct (int value); try assumption; apply dict_set_NoDup; exact IH.
Qed.

Lemma extract_In int args key value n :
  List.NoDup (map fst args) ->
  In (key, value) args ->
  ends_with "_period" key || contains "_period_" key = true ->
  int value = Some n ->
  In (key, n) (_extract_custom_periods int args).
Proof.
  intros Hnd Hin Hacc Hint.
  induction args as [|[k' v'] args IH] using rev_ind; [contradiction|].
  rewrite map_app in Hnd. simpl in Hnd.
  apply List.NoDup_remove in Hnd as [Hnd Hdisj]. rewrite app_nil_r in Hnd, Hdisj.
  rewrite extract_snoc. apply in_app_or in Hin as [Hin|[Heq|[]]].
  - assert (Hne : key <> k').
    { intros ->. apply Hdisj. apply (in_map fst) in Hin. exact Hin. }
    specialize (IH Hnd Hin). unfold try_store.
    destruct (ends_with "_period" k'); [|destruct (contains "_period_" k')];
      try assumption; destruct (int v'); try assumption;
      apply dict_set_In_other; assumption.
  - injection Heq as -> ->. unfold try_store.
    apply orb_true_iff in Hacc.
    destruct (ends_with "_period" key);
      [|destruct (contains "_period_" key); [|destruct Hacc; discriminate]];
      rewrite Hint; apply dict_set_In_same.
Qed.

(** X10.  A period that a request passes under ['rsi_period'] or
    ['bb_period'], or under a key that starts with ['sma_period'] and ends in
    ['_period'] or contains ['_period_'], with a value that parses as an
    integer, is the period the indicators are computed with (the request
    carries each key once). *)
Theorem request_periods_are_used int args :
  List.NoDup (map fst args) ->
  (forall value n,
     In ("rsi_period"%string, value) args -> int value = Some n ->
     Periods.rsi_period (request_periods int args) = n) /\
  (forall value n,
     In ("bb_period"%string, value) args -> int value = Some n ->
     Periods.bb_period (request_periods int args) = n) /\
  (forall key value n,
     In (key, value) args -> int value = Some n ->
     String.prefix "sma_period" key = true ->
     ends_with "_period" key || contains "_period_" key = true ->
     In n (Periods.sma_periods (request_periods int args))).
Proof.
  intros Hnd.
  assert (Hget : forall key value n dflt,
            In (key, value) args -> int value = Some n ->
            ends_with "_period" key || contains "_period_" key = true ->
            _extract_custom_periods int args <> [] /\
            dict_get key (_extract_custom_periods int args) dflt = n /\
            In (key, n) (_extract_custom_periods int args)).
  { intros key value n dflt Hin Hint Hacc.
    pose proof (extract_In int args key value n Hnd Hin Hacc Hint) as Hd.
    split; [intros He; rewrite He in Hd; contradiction|].
    split; [|exact Hd]. apply dict_get_In; [apply extract_NoDup | exact Hd]. }
  unfold request_periods, _get_periods.
  repeat split.
  - intros value n Hin Hint.
    destruct (Hget "rsi_period"%string value n 14 Hin Hint eq_refl) as (Hne & Hg & _).
    destruct (_extract_custom_periods int args); [congruence | exact Hg].
  - intros value n Hin Hint.
    destruct (Hget "bb_period"%string value n 20 Hin Hint eq_refl) as (Hne & Hg & _).
    destruct (_extract_custom_periods int args); [congruence | exact Hg].
  - intros key value n Hin Hint Hpre Hacc.
    destruct (Hget key value n 0 Hin Hint Hacc) as (Hne & _ & Hd).
    destruct (_extract_custom_periods int args) as [|kv d] eqn:He; [congruence|].
    cbn [Periods.sma_periods].
    assert (Hv : In n (values_with_prefix "sma_period" (kv :: d))).
    { unfold values_with_prefix. apply in_map_iff. exists (key, n). split; [reflexivity|].
      apply filter_In. split; [exact Hd | exact Hpre]. }
    destruct (values_with_prefix "sma_period" (kv :: d)); [contradiction | exact Hv].
Qed.

Lemma request_periods_are_used_witness :
  Periods.rsi_period (request_periods example_int example_args) = 9 /\
  In 21 (Periods.sma_periods (request_periods example_int example_args)).
Proof.
  assert (Hnd : List.NoDup (map fst example_args)).
  { simpl. repeat (apply List.NoDup_cons; [simpl; intuition discriminate|]).
    apply List.NoDup_nil. }
  destruct (request_periods_are_used example_int example_args Hnd) as (Hrsi & _ & Hsma).
  split.
  - apply (Hrsi "9"%string 9); [simpl; auto | reflexivity].
  - apply (Hsma "sma_period_1"%string "21"%string 21);
      [simpl; auto 6 | reflexivity | reflexivity | reflexivity].
Defined.

(** ** Filling the gaps of the indicator columns *)

Lemma ffill_from_kept (last : option Q) (s : pd.Series) :
  Forall2 kept s (pd.ffill_from last s).
Proof.
  revert last. induction s as [|[x|] s IH]; intros last; simpl; constructor;
    unfold kept; auto.
Qed.

Lemma ffill_from_number (x : Q) (s : pd.Series) :
  Forall (fun y => y <> None) (pd.ffill_from (Some x) s).
Proof.
  revert x. induction s as [|[y|] s IH]; intros x; simpl; constructor;
    try discriminate; auto.
Qed.

Lemma ffill_from_ends_with_number (last : option Q) (s : pd.Series) :
  s <> [] ->
  is_Some last \/ (exists q, In (Some q) s) ->
  exists l q, pd.ffill_from last s = l ++ [Some q].
Proof.
  revert last. induction s as [|x s IH]; intros last Hne Hsome; [congruence|].
  destruct s as [|x' s].
  - destruct x as [q|]; simpl.
    + exists [], q. reflexivity.
    + destruct Hsome as [[q ->]|(q & [Hq|[]])]; [|discriminate].
      exists [], q. reflexivity.
  - assert (Hrec : forall last',
              (is_Some last' \/ exists q, In (Some q) (x' :: s)) ->
              exists l q, pd.ffill_from last' (x' :: s) = l ++ [Some q]).
    { intros last' H. apply IH; [discriminate | exact H]. }
    destruct x as [q0|].
    + destruct (Hrec (Some q0)) as (l & q & Hl); [left; eauto|].
      exists (Some q0 :: l), q. simpl in *. rewrite Hl. reflexivity.
    + destruct (Hrec last) as (l & q & Hl).
      { destruct Hsome as [Hs|(q & [Hq|Hq])]; [auto | discriminate | right; eauto]. }
      exists (last :: l), q. simpl in *. rewrite Hl. reflexivity.
Qed.

Lemma kept_trans (x y z : option Q) : kept x y -> kept y z -> kept x z.
Proof. unfold kept. intros [-> | ->] [-> | ->]; auto. Qed.

Lemma Forall2_kept_trans (s t u : pd.Series) :
  Forall2 kept s t -> Forall2 kept t u -> Forall2 kept s u.
Proof.
  intros Hst. revert u. induction Hst as [|x y s t Hxy _ IH]; intros u Htu.
  - inversion Htu. constructor.
  - inversion Htu as [|y' z t' u' Hyz Htu']; subst. constructor.
    + eapply kept_trans; eauto.
    + apply IH. exact Htu'.
Qed.

Lemma Forall2_rev_both {A B} (R : A -> B -> Prop) (l : list A) (k : list B) :
  Forall2 R l k -> Forall2 R (rev l) (rev k).
Proof.
  induction 1 as [|x y l k Hxy _ IH]; simpl; [constructor|].
  apply Forall2_app; [exact IH | repeat constructor; exact Hxy].
Qed.

Lemma fill_series (s : pd.Series) :
  Forall2 kept s (pd.bfill (pd.ffill s)) /\
  ((exists q, In (Some q) s) ->
   Forall (fun y => y <> None) (pd.bfill (pd.ffill s))).
Proof.
  unfold pd.bfill, pd.ffill. split.
  - eapply Forall2_kept_trans; [apply ffill_from_kept|].
    rewrite <- (rev_involutive (pd.ffill_from None s)) at 1.
    apply Forall2_rev_both. apply ffill_from_kept.
  - intros Hq. apply Forall_rev.
    destruct s as [|x s]; [destruct Hq as (q & Hq); destruct Hq|].
    destruct (ffill_from_ends_with_number None (x :: s)) as (l & q & Hl);
      [discriminate | right; exact Hq|].
    rewrite Hl, rev_app_distr. simpl.
    constructor; [discriminate | apply ffill_from_number].
Qed.

(** X11.  [_fill_indicator_nans] fills the gaps of the columns whose name
    contains one of the indicator tags: a column with at least one number
    comes out without any [NaN], every number it had stays where it was, and
    its length is kept; a column that is all [NaN] and the columns of other
    names are left as they are. *)
Theorem fill_indicator_nans_fills cols name s :
  cols !! name = Some (Floats s) ->
  (is_indicator_column name = true ->
   exists s',
     _fill_indicator_nans cols !! name = Some (Floats s') /\
     Forall2 kept s s' /\
     ((exists q, In (Some q) s) -> Forall (fun y => y <> None) s') /\
     ((forall x, In x s -> x = None) -> s' = s)) /\
  (is_indicator_column name = false ->
   _fill_indicator_nans cols !! name = Some (Floats s)).
Proof.
  intros Hl. unfold _fill_indicator_nans. rewrite map_lookup_imap, Hl. simpl.
  split; intros Hn; rewrite Hn; [|reflexivity].
  exists (pd.bfill (pd.ffill s)). split; [reflexivity|].
  destruct (fill_series s) as [Hk Hf]. split; [exact Hk|]. split; [exact Hf|].
  intros Hnan.
  assert (Hsame : forall t : pd.Series, (forall x, In x t -> x = None) ->
                                        pd.ffill_from None t = t).
  { induction t as [|x t IH]; intros Ht; simpl; [reflexivity|].
    rewrite (Ht x (or_introl eq_refl)). f_equal. apply IH. intros y Hy. apply Ht.
    right. exact Hy. }
  unfold pd.bfill, pd.ffill. rewrite (Hsame s Hnan).
  rewrite Hsame; [apply rev_involutive|].
  intros x Hx. apply Hnan. apply in_rev. exact Hx.
Qed.

Lemma fill_indicator_nans_fills_witness :
  exists s',
    _fill_indicator_nans {[ "SMA_3"%string := Floats [None; Some 1%Q; None; Some 2%Q; None] ]}
      !! "SMA_3"%string = Some (Floats s') /\
    Forall2 kept [None; Some 1%Q; None; Some 2%Q; None] s' /\
    Forall (fun y => y <> None) s'.
Proof.
  destruct (fill_indicator_nans_fills
              {[ "SMA_3"%string := Floats [None; Some 1%Q; None; Some 2%Q; None] ]}
              "SMA_3" [None; Some 1%Q; None; Some 2%Q; None]) as [Hfill _];
    [vm_compute; reflexivity|].
  destruct (Hfill eq_refl) as (s' & Hs' & Hk & Hf & _).
  exists s'. split; [exact Hs'|]. split; [exact Hk|].
  apply Hf. exists 1%Q. simpl. auto.
Defined.

(** ** Support and resistance levels *)

Lemma insert_sorted_In x y l : In y (insert_sorted x l) <-> y = x \/ In y l.
Proof.
  induction l as [|z l IH]; simpl; [intuition|].
  destruct (Qle_bool x z); simpl; [intuition|]. rewrite IH. intuition.
Qed.

Lemma sorted_In x l : In x (sorted l) <-> In x l.
Proof.
  induction l as [|y l IH]; simpl; [tauto|].
  rewrite insert_sorted_In, IH. intuition.
Qed.

Lemma insert_sorted_ascending x l :
  StronglySorted Qle l -> StronglySorted Qle (insert_sorted x l).
Proof.
  induction l as [|y l IH]; simpl; intros Hs.
  - constructor; constructor.
  - inversion Hs as [|? ? Hl Hy]; subst.
    destruct (Qle_bool x y) eqn:Hxy.
    + apply Qle_bool_iff in Hxy. constructor; [exact Hs|].
      constructor; [exact Hxy|].
      apply List.Forall_forall. intros z Hz.
      apply Qle_trans with y; [exact Hxy|].
      apply (proj1 (List.Forall_forall _ _) Hy z Hz).
    + assert (Hyx : (y <= x)%Q).
      { apply Qlt_le_weak, Qnot_le_lt. intros Hle. apply Qle_bool_iff in Hle.
        congruence. }
      constructor; [apply IH; exact Hl|].
      apply List.Forall_forall. intros z Hz. apply insert_sorted_In in Hz.
      destruct Hz as [Hz|Hz]; [subst z; exact Hyx|].
      apply (proj1 (List.Forall_forall _ _) Hy z Hz).
Qed.

Lemma sorted_ascending l : StronglySorted Qle (sorted l).
Proof.
  induction l as [|x l IH]; simpl; [constructor|].
  apply insert_sorted_ascending, IH.
Qed.

Lemma StronglySorted_skipn {A} (R : A -> A -> Prop) k l :
  StronglySorted R l -> StronglySorted R (skipn k l).
Proof.
  revert l. induction k as [|k IH]; intros l Hs; [exact Hs|].
  destruct l as [|x l]; [exact Hs|]. simpl. apply IH.
  inversion Hs; assumption.
Qed.

Lemma StronglySorted_firstn {A} (R : A -> A -> Prop) k l :
  StronglySorted R l -> StronglySorted R (firstn k l).
Proof.
  revert l. induction k as [|k IH]; intros l Hs; [constructor|].
  destruct l as [|x l]; [constructor|]. simpl.
  inversion Hs as [|? ? Hl Hx]; subst. constructor; [apply IH; exact Hl|].
  apply List.Forall_forall. intros y Hy.
  apply (proj1 (List.Forall_forall _ _) Hx y).
  rewrite <- (firstn_skipn k l). apply in_or_app. left. exact Hy.
Qed.

Lemma In_last_n {A} k (l : list A) x : In x (last_n k l) -> In x l.
Proof.
  unfold last_n. intros Hx. rewrite <- (firstn_skipn (length l - k) l).
  apply in_or_app. right. exact Hx.
Qed.

Lemma In_firstn {A} k (l : list A) x : In x (firstn k l) -> In x l.
Proof.
  intros Hx. rewrite <- (firstn_skipn k l). apply in_or_app. left. exact Hx.
Qed.

Lemma length_last_n {A} k (l : list A) : (length (last_n k l) <= k)%nat.
Proof. unfold last_n. rewrite List.length_skipn. lia. Qed.

Lemma foldM_invariant {A B} (P : B -> Prop) (I : A -> Prop)
      (f : B -> A -> result B) l b r :
  (forall b a b', I a -> P b -> f b a = Ok b' -> P b') ->
  Forall I l -> P b -> foldM f l b = Ok r -> P r.
Proof.
  intros Hf. revert b. induction l as [|a l IH]; simpl; intros b Hl Hb Hr.
  - congruence.
  - inversion Hl as [|? ? Ha Hl']; subst.
    apply bind_Ok in Hr as (b' & Hb' & Hr).
    apply (IH b'); [exact Hl' | eapply Hf; eauto | exact Hr].
Qed.

Lemma record_level_In level levels levels' x :
  record_level level levels = Ok levels' ->
  In x levels' -> x = level \/ In x levels.
Proof.
  unfold record_level. intros Hr Hx.
  apply bind_Ok in Hr as (dup & _ & Hr).
  destruct dup; injection Hr as <-; [auto|].
  apply in_app_or in Hx as [Hx|[Hx|[]]]; auto.
Qed.

Lemma sr_step_levels highs lows lookback acc i acc' :
  sr_step highs lows lookback acc i = Ok acc' ->
  (forall x, In x (Levels.resistance acc') ->
     In x (Levels.resistance acc) \/
     (x = iloc highs i /\ swing (fun a b => Qltb b a) highs lookback i = true)) /\
  (forall x, In x (Levels.support acc') ->
     In x (Levels.support acc) \/
     (x = iloc lows i /\ swing Qltb lows lookback i = true)).
Proof.
  unfold sr_step. intros Hs.
  apply bind_Ok in Hs as (res & Hres & Hs).
  apply bind_Ok in Hs as (sup & Hsup & Hs).
  injection Hs as <-. simpl. split; intros x Hx.
  - destruct (swing (fun a b => Qltb b a) highs lookback i); [|injection Hres as <-; auto].
    destruct (record_level_In _ _ _ x Hres Hx); auto.
  - destruct (swing Qltb lows lookback i); [|injection Hsup as <-; auto].
    destruct (record_level_In _ _ _ x Hsup Hx); auto.
Qed.

(** X12.  [calculate_support_resistance] returns at most five support and
    five resistance levels, each list in ascending order. *)
Theorem support_resistance_at_most_five_ascending df lookback levels :
  calculate_support_resistance df lookback = Ok levels ->
  (length (Levels.support levels) <= 5)%nat /\
  (length (Levels.resistance levels) <= 5)%nat /\
  StronglySorted Qle (Levels.support levels) /\
  StronglySorted Qle (Levels.resistance levels).
Proof.
  unfold calculate_support_resistance. intros Hc.
  destruct (length df <? lookback * 2)%nat.
  - injection Hc as <-. simpl. repeat split; try lia; constructor.
  - apply bind_Ok in Hc as (found & _ & Hc). injection Hc as <-. simpl.
    split; [apply length_last_n|].
    split; [apply List.firstn_le_length|].
    split.
    + apply StronglySorted_skipn, sorted_ascending.
    + apply StronglySorted_firstn, sorted_ascending.
Qed.

Lemma iloc_map {A} (f : A -> Q) (l : list A) i a :
  l !! i = Some a -> iloc (map f l) i = f a.
Proof.
  unfold iloc. revert i. induction l as [|x l IH]; intros [|i]; simpl; try discriminate.
  - intros [= ->]. reflexivity.
  - apply IH.
Qed.

Lemma swing_spec cmp s lookback i :
  swing cmp s lookback i = true ->
  forall j, (1 <= j <= lookback)%nat ->
            cmp (iloc s i) (iloc s (i - j)) = true /\
            cmp (iloc s i) (iloc s (i + j)) = true.
Proof.
  unfold swing. intros Hs j Hj. apply andb_true_iff in Hs as [Hl Hr].
  rewrite forallb_forall in Hl, Hr.
  split; [apply (Hl j) | apply (Hr j)]; apply in_seq; lia.
Qed.

Lemma found_levels_are_swings highs lows lookback n found :
  foldM (sr_step highs lows lookback) (seq lookback n) (Levels.mk [] []) = Ok found ->
  (forall x, In x (Levels.resistance found) ->
     exists i, (lookback <= i < lookback + n)%nat /\ x = iloc highs i /\
               swing (fun a b => Qltb b a) highs lookback i = true) /\
  (forall x, In x (Levels.support found) ->
     exists i, (lookback <= i < lookback + n)%nat /\ x = iloc lows i /\
               swing Qltb lows lookback i = true).
Proof.
  apply (foldM_invariant
           (fun acc =>
              (forall x, In x (Levels.resistance acc) ->
                 exists i, (lookback <= i < lookback + n)%nat /\ x = iloc highs i /\
                           swing (fun a b => Qltb b a) highs lookback i = true) /\
              (forall x, In x (Levels.support acc) ->
                 exists i, (lookback <= i < lookback + n)%nat /\ x = iloc lows i /\
                           swing Qltb lows lookback i = true))
           (fun i => (lookback <= i < lookback + n)%nat)).
  - intros acc i acc' Hi [Hres Hsup] Hstep.
    destruct (sr_step_levels _ _ _ _ _ _ Hstep) as [Hr Hs].
    split; intros x Hx.
    + destruct (Hr x Hx) as [Hold|[-> Hsw]]; [auto | exists i; auto].
    + destruct (Hs x Hx) as [Hold|[-> Hsw]]; [auto | exists i; auto].
  - apply List.Forall_forall. intros i Hi. apply in_seq in Hi. exact Hi.
  - simpl. split; intros x [].
Qed.

Lemma support_resistance_at_most_five_ascending_witness :
  exists levels,
    calculate_support_resistance example_m5 2 = Ok levels /\
    (length (Levels.support levels) <= 5)%nat /\
    (length (Levels.resistance levels) <= 5)%nat /\
    StronglySorted Qle (Levels.support levels) /\
    StronglySorted Qle (Levels.resistance levels).
Proof.
  eexists. split; [vm_compute; reflexivity|].
  apply (support_resistance_at_most_five_ascending example_m5 2).
  vm_compute. reflexivity.
Defined.

(** X13.  Every resistance level [calculate_support_resistance] returns is
    the high of a candle that has [lookback] candles on each side, all with a
    strictly lower high; every support level is the low of such a candle,
    with all these lows strictly higher. *)
Theorem levels_are_swings df lookback levels :
  calculate_support_resistance df lookback = Ok levels ->
  (forall x, In x (Levels.resistance levels) ->
     exists i c,
       interior lookback (length df) i /\ df !! i = Some c /\ x = Candle.high c /\
       forall j c', (1 <= j <= lookback)%nat ->
                    df !! (i - j)%nat = Some c' \/ df !! (i + j)%nat = Some c' ->
                    (Candle.high c' < Candle.high c)%Q) /\
  (forall x, In x (Levels.support levels) ->
     exists i c,
       interior lookback (length df) i /\ df !! i = Some c /\ x = Candle.low c /\
       forall j c', (1 <= j <= lookback)%nat ->
                    df !! (i - j)%nat = Some c' \/ df !! (i + j)%nat = Some c' ->
                    (Candle.low c < Candle.low c')%Q).
Proof.
  unfold calculate_support_resistance, interior. intros Hc.
  destruct (length df <? lookback * 2)%nat eqn:Hlen.
  { injection Hc as <-. simpl. split; intros x []. }
  apply Nat.ltb_ge in Hlen.
  apply bind_Ok in Hc as (found & Hfound & Hc). injection Hc as <-. simpl.
  destruct (found_levels_are_swings _ _ _ _ _ Hfound) as [Hres Hsup].
  assert (Hat : forall i, (i < length df)%nat -> exists c, df !! i = Some c).
  { intros i Hi. destruct (df !! i) eqn:Hd; [eauto|].
    apply lookup_ge_None in Hd. lia. }
  split; intros x Hx.
  - apply In_firstn in Hx. apply (proj1 (sorted_In _ _)) in Hx.
    destruct (Hres x Hx) as (i & Hi & -> & Hsw).
    destruct (Hat i) as (c & Hc); [lia|].
    exists i, c. split; [lia|]. split; [exact Hc|].
    split; [apply iloc_map; exact Hc|].
    intros j c' Hj Hc'.
    destruct (swing_spec _ _ _ _ Hsw j Hj) as [Hl Hr].
    rewrite (iloc_map _ _ _ _ Hc) in Hl, Hr.
    destruct Hc' as [Hc'|Hc']; rewrite (iloc_map _ _ _ _ Hc') in *;
      apply Qltb_true; assumption.
  - apply In_last_n in Hx. apply (proj1 (sorted_In _ _)) in Hx.
    destruct (Hsup x Hx) as (i & Hi & -> & Hsw).
    destruct (Hat i) as (c & Hc); [lia|].
    exists i, c. split; [lia|]. split; [exact Hc|].
    split; [apply iloc_map; exact Hc|].
    intros j c' Hj Hc'.
    destruct (swing_spec _ _ _ _ Hsw j Hj) as [Hl Hr].
    rewrite (iloc_map _ _ _ _ Hc) in Hl, Hr.
    destruct Hc' as [Hc'|Hc']; rewrite (iloc_map _ _ _ _ Hc') in *;
      apply Qltb_true; assumption.
Qed.

Lemma levels_are_swings_witness :
  exists i c,
    interior 10 (length example_m5) i /\ example_m5 !! i = Some c /\
    (11051 # 10000)%Q = Candle.high c /\
    forall j c', (1 <= j <= 10)%nat ->
                 example_m5 !! (i - j)%nat = Some c' \/ example_m5 !! (i + j)%nat = Some c' ->
                 (Candle.high c' < Candle.high c)%Q.
Proof.
  destruct (levels_are_swings example_m5 10
              (Levels.mk [10962 # 10000] [11051 # 10000])%Q) as [Hres _];
    [vm_compute; reflexivity|].
  apply (Hres (11051 # 10000)%Q). simpl. auto.
Defined.


Lemma foldM_returns {A B} (P : B -> Prop) (I : A -> Prop)
      (f : B -> A -> result B) l b :
  (forall b a, I a -> P b -> exists b', f b a = Ok b' /\ P b') ->
  Forall I l -> P b -> exists r, foldM f l b = Ok r.
Proof.
  intros Hf. revert b. induction l as [|a l IH]; simpl; intros b Hl Hb; [eauto|].
  inversion Hl as [|? ? Ha Hl']; subst.
  destruct (Hf b a Ha Hb) as (b' & -> & Hb'). simpl. apply IH; assumption.
Qed.

Lemma foldM_raises {A B} (P : exn -> Prop) (f : B -> A -> result B) l b e :
  (forall b a e, f b a = Raise e -> P e) -> foldM f l b = Raise e -> P e.
Proof.
  intros Hf. revert b. induction l as [|a l IH]; simpl; intros b Hr; [discriminate|].
  destruct (f b a) as [b'|e'] eqn:Hfa; simpl in Hr.
  - apply (IH b'). exact Hr.
  - injection Hr as <-. apply (Hf b a). exact Hfa.
Qed.

Lemma near_existing_returns level levels :
  Forall (fun x => ~ x == 0) levels -> exists dup, near_existing level levels = Ok dup.
Proof.
  induction 1 as [|x levels Hx Hl IH]; simpl; [eauto|].
  unfold py_div. destruct (Qeq_bool x 0) eqn:Hz.
  - apply Qeq_bool_iff in Hz. contradiction.
  - simpl. destruct (Qltb _ _); eauto.
Qed.

Lemma near_existing_raises level levels e :
  near_existing level levels = Raise e ->
  e = ZeroDivisionError /\ exists x, In x levels /\ x == 0.
Proof.
  induction levels as [|x levels IH]; simpl; [discriminate|].
  unfold py_div. destruct (Qeq_bool x 0) eqn:Hz; simpl.
  - intros [= <-]. apply Qeq_bool_iff in Hz. eauto.
  - destruct (Qltb _ _); [discriminate|]. intros Hr.
    destruct (IH Hr) as (He & y & Hy & Hy0). eauto.
Qed.

Lemma record_level_returns level levels :
  ~ level == 0 -> Forall (fun x => ~ x == 0) levels ->
  exists levels', record_level level levels = Ok levels' /\
                  Forall (fun x => ~ x == 0) levels'.
Proof.
  intros Hlevel Hl. unfold record_level.
  destruct (near_existing_returns level levels Hl) as (dup & ->). simpl.
  eexists. split; [reflexivity|].
  destruct dup; [exact Hl|]. apply Forall_app. split; [exact Hl|].
  constructor; [exact Hlevel | constructor].
Qed.

Lemma record_level_raises level levels e :
  record_level level levels = Raise e ->
  e = ZeroDivisionError /\ exists x, In x levels /\ x == 0.
Proof.
  unfold record_level. destruct (near_existing level levels) as [dup|e'] eqn:Hn; simpl.
  - discriminate.
  - intros [= <-]. apply (near_existing_raises level levels). exact Hn.
Qed.

Lemma In_iloc_map {A} (f : A -> Q) (l : list A) i :
  (i < length l)%nat -> exists a, In a l /\ iloc (map f l) i = f a.
Proof.
  intros Hi. destruct (l !! i) as [a|] eqn:Ha.
  - exists a. split; [eapply lookup_In; exact Ha | apply iloc_map; exact Ha].
  - apply lookup_ge_None in Ha. lia.
Qed.

(** X14.  The only exception [calculate_support_resistance] raises is the
    [ZeroDivisionError] of the duplicate test, and a frame in which no candle
    has a zero high or a zero low never raises it: the call returns. *)
Theorem support_resistance_divides_by_levels df lookback :
  (forall e, calculate_support_resistance df lookback = Raise e ->
             e = ZeroDivisionError) /\
  ((forall c, In c df -> ~ Candle.high c == 0 /\ ~ Candle.low c == 0) ->
   exists levels, calculate_support_resistance df lookback = Ok levels).
Proof.
  unfold calculate_support_resistance.
  destruct (length df <? lookback * 2)%nat eqn:Hlen; [split; [discriminate | eauto]|].
  apply Nat.ltb_ge in Hlen. split.
  - intros e He.
    destruct (foldM _ _ _) as [found|e'] eqn:Hf; simpl in He; [discriminate|].
    injection He as <-.
    apply (foldM_raises (fun e => e = ZeroDivisionError) _ _ _ _) in Hf; [exact Hf|].
    intros acc i e. unfold sr_step.
    destruct (swing (fun a b => Qltb b a) _ lookback i).
    + destruct (record_level _ (Levels.resistance acc)) as [res|e1] eqn:Hres; simpl.
      * destruct (swing Qltb _ lookback i).
        -- destruct (record_level _ (Levels.support acc)) as [sup|e2] eqn:Hsup; simpl;
             [discriminate|].
           intros [= <-]. apply record_level_raises in Hsup. tauto.
        -- discriminate.
      * intros [= <-]. apply record_level_raises in Hres. tauto.
    + simpl. destruct (swing Qltb _ lookback i).
      * destruct (record_level _ (Levels.support acc)) as [sup|e2] eqn:Hsup; simpl;
          [discriminate|].
        intros [= <-]. apply record_level_raises in Hsup. tauto.
      * discriminate.
  - intros Hdf.
    destruct (foldM_returns
                (fun acc => Forall (fun x => ~ x == 0) (Levels.resistance acc) /\
                            Forall (fun x => ~ x == 0) (Levels.support acc))
                (fun i => (i < length df)%nat)
                (sr_step (map Candle.high df) (map Candle.low df) lookback)
                (seq lookback (length df - lookback - lookback))
                (Levels.mk [] [])) as (found & ->); [| | simpl; auto | simpl; eauto].
    + intros acc i Hi [Hres Hsup]. unfold sr_step.
      assert (Hr : exists res,
                 (if swing (fun a b => Qltb b a) (map Candle.high df) lookback i
                  then record_level (iloc (map Candle.high df) i) (Levels.resistance acc)
                  else Ok (Levels.resistance acc)) = Ok res /\
                 Forall (fun x => ~ x == 0) res).
      { destruct (swing (fun a b => Qltb b a) (map Candle.high df) lookback i); [|eauto].
        apply record_level_returns; [|exact Hres].
        destruct (In_iloc_map Candle.high df i Hi) as (c & Hc & ->).
        apply (Hdf c Hc). }
      assert (Hs : exists sup,
                 (if swing Qltb (map Candle.low df) lookback i
                  then record_level (iloc (map Candle.low df) i) (Levels.support acc)
                  else Ok (Levels.support acc)) = Ok sup /\
                 Forall (fun x => ~ x == 0) sup).
      { destruct (swing Qltb (map Candle.low df) lookback i); [|eauto].
        apply record_level_returns; [|exact Hsup].
        destruct (In_iloc_map Candle.low df i Hi) as (c & Hc & ->).
        apply (Hdf c Hc). }
      destruct Hr as (res & -> & Hres'). destruct Hs as (sup & -> & Hsup'). simpl.
      eexists. split; [reflexivity|]. simpl. auto.
    + apply List.Forall_forall. intros i Hi. apply in_seq in Hi. lia.
Qed.

Lemma support_resistance_divides_by_levels_witness :
  exists levels, calculate_support_resistance example_m5 10 = Ok levels.
Proof.
  apply (support_resistance_divides_by_levels example_m5 10).
  intros c Hc. apply In_lookup in Hc as (i & Hc).
  assert (Hi : (i < 30)%nat) by (apply lookup_lt_Some in Hc; exact Hc).
  do 30 (destruct i as [|i]; [injection Hc as <-; split; intros Hz; discriminate Hz|]).
  lia.
Defined.


(** ** One entry per row *)

Lemma rolling_length agg w s r : pd.rolling agg w s = Ok r -> length r = length s.
Proof.
  unfold pd.rolling. destruct (w <? 1); [discriminate|]. intros [= <-].
  rewrite length_map, length_seq. reflexivity.
Qed.

Lemma length_ewm_from a prev s : length (pd.ewm_from a prev s) = length s.
Proof. revert prev. induction s as [|x s IH]; intros prev; simpl; auto. Qed.

Lemma ewm_mean_length span s r : pd.ewm_mean span s = Ok r -> length r = length s.
Proof.
  unfold pd.ewm_mean. destruct (span <? 1); [discriminate|]. intros [= <-].
  destruct s as [|x s]; simpl; [reflexivity|]. rewrite length_ewm_from. reflexivity.
Qed.

Lemma length_somes l : length (somes l) = length l.
Proof. apply length_map. Qed.

Lemma length_scalar c s : length (scalar c s) = length s.
Proof. apply length_map. Qed.

Lemma length_fillna0 s : length (fillna0 s) = length s.
Proof. apply length_map. Qed.

Lemma length_mul a b : length (mul a b) = Nat.min (length a) (length b).
Proof. apply length_zip_with. Qed.

Lemma length_add a b : length (pd.add a b) = Nat.min (length a) (length b).
Proof. apply length_zip_with. Qed.

Lemma length_div a b : length (pd.div a b) = Nat.min (length a) (length b).
Proof. apply length_zip_with. Qed.

Lemma length_replace v s : length (pd.replace v s) = length s.
Proof. apply length_map. Qed.

Lemma length_neg s : length (pd.neg s) = length s.
Proof. apply length_map. Qed.

Lemma length_close df : length (close df) = length df.
Proof. apply length_map. Qed.

Lemma length_rsi_of gain loss :
  length (rsi_of gain loss) = Nat.min (length gain) (length loss).
Proof.
  unfold rsi_of. cbv zeta.
  rewrite length_sub, length_div, length_add, !length_scalar, length_div, length_replace.
  lia.
Qed.

Create Rewrite HintDb series_length.

#[local] Hint Rewrite length_rsi_of length_mul length_add length_sub length_div
  length_replace length_scalar length_fillna0 length_somes length_neg length_rsi_delta
  length_close @length_zip_with @length_map @repeat_length : series_length.

Lemma fill_keeps_lengths (n : nat) cols :
  (forall name c, cols !! name = Some c -> column_length c = n) ->
  forall name c, _fill_indicator_nans cols !! name = Some c -> column_length c = n.
Proof.
  intros Hc name c. unfold _fill_indicator_nans. rewrite map_lookup_imap.
  destruct (cols !! name) as [c0|] eqn:Hl; simpl; [|discriminate].
  intros [= <-]. specialize (Hc name c0 Hl).
  destruct c0 as [s|l]; [|exact Hc].
  destruct (is_indicator_column name); [|exact Hc].
  simpl. rewrite length_fill. exact Hc.
Qed.

(** X15.  Every column [calculate_technical_indicators] adds has one entry
    per row of the frame, whatever the periods and wherever the [try] block
    stops (the rolling standard deviation, as every pandas rolling
    aggregation, returns a Series of the length of its input). *)
Theorem indicator_columns_have_one_entry_per_row rolling_std df custom_periods name c :
  (forall w s r, rolling_std w s = Ok r -> length r = length s) ->
  calculate_technical_indicators rolling_std df custom_periods !! name = Some c ->
  column_length c = length df.
Proof.
  intros Hstd. unfold calculate_technical_indicators.
  destruct (len df <? 20); [rewrite lookup_empty; discriminate|].
  intros Hl.
  assert (Hp : preserves (fun cols => forall name c, cols !! name = Some c ->
                                                     column_length c = length df)
                 (indicators_body rolling_std df (_get_periods custom_periods))).
  2: { apply (Hp ∅) with (name := name); [|exact Hl].
       intros name' c' Hl'. rewrite lookup_empty in Hl'. discriminate Hl'. }
  clear Hl name c.
  assert (Hassign : forall name c,
            column_length c = length df ->
            preserves (fun cols => forall name c, cols !! name = Some c ->
                                                  column_length c = length df)
              (assign name c)).
  { intros name c Hc. apply preserves_assign. intros cols Hcols name' c'.
    destruct (decide (name = name')) as [->|Hne].
    - rewrite lookup_insert_eq. intros [= <-]. exact Hc.
    - rewrite lookup_insert_ne by exact Hne. apply Hcols. }
  unfold indicators_body.
  repeat first
    [ apply preserves_lift_andThen; intros ? ?
    | apply preserves_andThen; [| intros _]
    | apply preserves_for_; intros ? ].
  all: try (apply Hassign; simpl;
            repeat match goal with
                   | H : pd.rolling_mean _ _ = Ok _ |- _ => apply rolling_length in H
                   | H : pd.rolling_min _ _ = Ok _ |- _ => apply rolling_length in H
                   | H : pd.rolling_max _ _ = Ok _ |- _ => apply rolling_length in H
                   | H : rsi_gain _ _ = Ok _ |- _ => apply rolling_length in H
                   | H : rsi_loss _ _ = Ok _ |- _ => apply rolling_length in H
                   | H : pd.ewm_mean _ _ = Ok _ |- _ => apply ewm_mean_length in H
                   | H : _ = Ok _ |- _ => apply Hstd in H
                   end;
            autorewrite with series_length in *; lia).
  intros cols Hcols. simpl. apply fill_keeps_lengths. exact Hcols.
Qed.

Lemma indicator_columns_have_one_entry_per_row_witness :
  exists c, example_columns !! "RSI"%string = Some c /\ column_length c = 30%nat.
Proof.
  destruct (rsi_column_present_by_default example_rolling_std example_m5) as (s & Hs & _);
    [rewrite example_m5_length; lia|].
  exists (Floats s). split; [exact Hs|].
  rewrite <- example_m5_length.
  apply (indicator_columns_have_one_entry_per_row example_rolling_std example_m5 None
           "RSI"%string (Floats s)); [|exact Hs].
  intros w s' r. apply rolling_length.
Defined.


(** ** A period below one *)

(** X16.  With an RSI period below one (a request may pass
    ['rsi_period=0']), the rolling window of the RSI lines raises inside the
    [try] block, and the frame comes back without the RSI, the Bollinger
    bands, the stochastic oscillator and the level columns. *)
Theorem rsi_period_below_one_drops_columns rolling_std df custom_periods name :
  Periods.rsi_period (_get_periods custom_periods) < 1 ->
  In name ["RSI"; "BB_Middle"; "BB_Upper"; "BB_Lower"; "Stoch_%K"; "Stoch_%D";
           "Support_Levels"; "Resistance_Levels"]%string ->
  calculate_technical_indicators rolling_std df custom_periods !! name = None.
Proof.
  intros Hrsi Hname. unfold calculate_technical_indicators.
  destruct (len df <? 20); [apply lookup_empty|].
  assert (Hp : preserves (fun cols => cols !! name = None)
                 (indicators_body rolling_std df (_get_periods custom_periods))).
  2: { apply (Hp ∅). apply lookup_empty. }
  unfold indicators_body.
  repeat first
    [ apply preserves_lift_andThen; intros ? ?
    | apply preserves_andThen; [| intros _]
    | apply preserves_for_; intros ? ].
  all: try match goal with
           | H : rsi_gain _ _ = Ok _ |- _ =>
               exfalso; unfold rsi_gain, pd.rolling_mean, pd.rolling in H;
               destruct (Z.min _ _ <? 1) eqn:Hlt; [discriminate H|];
               apply Z.ltb_ge in Hlt; lia
           end.
  all: apply preserves_assign; intros cols Hcols;
    rewrite lookup_insert_ne; [exact Hcols|];
    simpl in Hname; intros Heq; subst name;
    repeat (destruct Hname as [Hname|Hname]; [discriminate Hname|]);
    destruct Hname.
Qed.

Lemma rsi_period_below_one_drops_columns_witness :
  calculate_technical_indicators example_rolling_std example_m5
    (Some [("rsi_period"%string, 0)]) !! "RSI"%string = None /\
  calculate_technical_indicators example_rolling_std example_m5
    (Some [("rsi_period"%string, 0)]) !! "Support_Levels"%string = None.
Proof.
  split;
    apply (rsi_period_below_one_drops_columns example_rolling_std example_m5
             (Some [("rsi_period"%string, 0)]));
    [reflexivity | simpl; auto | reflexivity | simpl; auto 10].
Defined.

(** ** Trading signals *)

Lemma mentions_app c s t : mentions c (s ++ t) = mentions c s || mentions c t.
Proof.
  induction s as [|c' s IH]; simpl; [reflexivity|].
  rewrite IH. apply orb_assoc.
Qed.

Lemma contains_mentions c sub s :
  contains (String c sub) s = true -> mentions c s = true.
Proof.
  induction s as [|c' s IH]; simpl.
  - discriminate.
  - intros H. apply orb_true_iff in H as [H|H].
    + destruct (Ascii.ascii_dec c c') as [->|Hne]; [|discriminate].
      rewrite Ascii.eqb_refl. reflexivity.
    + rewrite (IH H). apply orb_true_r.
Qed.

Lemma mentions_string_of_uint c d :
  (forall k, In k ["0"; "1"; "2"; "3"; "4"; "5"; "6"; "7"; "8"; "9"]%char -> k <> c) ->
  mentions c (DecimalString.NilEmpty.string_of_uint d) = false.
Proof.
  intros Hc.
  induction d; cbn [mentions DecimalString.NilEmpty.string_of_uint]; [reflexivity|..];
    rewrite IHd, orb_false_r; apply Ascii.eqb_neq; apply Hc; simpl; auto 12.
Qed.

Lemma mentions_str_of_nonneg c n :
  (forall k, In k ["0"; "1"; "2"; "3"; "4"; "5"; "6"; "7"; "8"; "9"]%char -> k <> c) ->
  mentions c (str_of_nonneg n) = false.
Proof.
  intros Hc. unfold str_of_nonneg, DecimalString.NilZero.string_of_uint.
  destruct (N.to_uint (Z.to_N n)) eqn:Hd;
    [cbn [mentions]; rewrite orb_false_r; apply Ascii.eqb_neq; apply Hc; simpl; auto|..];
    rewrite <- Hd; apply mentions_string_of_uint; exact Hc.
Qed.

Lemma mentions_zeros c k :
  "0"%char <> c -> mentions c (String.concat "" (repeat "0"%string k)) = false.
Proof.
  intros Hc. induction k as [|k IH]; [reflexivity|].
  change (repeat "0"%string (S k)) with ("0"%string :: repeat "0"%string k).
  assert (Hcat : String.concat "" ("0"%string :: repeat "0"%string k)
                 = ("0" ++ String.concat "" (repeat "0"%string k))%string).
  { destruct k; reflexivity. }
  rewrite Hcat, mentions_app, IH. cbn [mentions].
  rewrite !orb_false_r. apply Ascii.eqb_neq. exact Hc.
Qed.

Lemma mentions_fixed_digits d x : mentions "S" (fixed_digits d x) = false.
Proof.
  assert (Hdigit : forall k,
            In k ["0"; "1"; "2"; "3"; "4"; "5"; "6"; "7"; "8"; "9"]%char -> k <> "S"%char).
  { intros k Hk. simpl in Hk. intuition (subst; discriminate). }
  unfold fixed_digits. cbv zeta.
  destruct d as [|d]; [apply mentions_str_of_nonneg; exact Hdigit|].
  unfold zfill.
  rewrite !mentions_app, !mentions_str_of_nonneg by exact Hdigit.
  rewrite mentions_zeros by discriminate. reflexivity.
Qed.

Lemma mentions_format_f d x : mentions "S" (format_f d x) = false.
Proof.
  unfold format_f. rewrite mentions_app, mentions_fixed_digits.
  destruct (Qltb x 0); reflexivity.
Qed.

Lemma mentions_format_plus_f d x : mentions "S" (format_plus_f d x) = false.
Proof.
  unfold format_plus_f. rewrite mentions_app, mentions_fixed_digits.
  destruct (Qltb x 0); reflexivity.
Qed.

Lemma momentum_summary_without_S df index summary :
  get_momentum_summary df index = Ok summary -> mentions "S" summary = false.
Proof.
  unfold get_momentum_summary. destruct (df !! index) as [row|]; [|discriminate].
  intros [= <-].
  destruct (ARow.Momentum_Acceleration row), (ARow.Wick_Ratio row),
    (ARow.Body_Strength row), (ARow.ATR row);
    unfold format_percent0;
    rewrite ?mentions_app, ?mentions_format_f, ?mentions_format_plus_f; reflexivity.
Qed.

Lemma block_of_summary tf df row kids b :
  block_of tf df row kids = Ok b ->
  exists index, get_momentum_summary df index = Ok (Block.momentum_summary b).
Proof.
  unfold block_of. intros H.
  apply bind_Ok in H as (i & _ & H).
  apply bind_Ok in H as (s & Hs & H).
  apply bind_Ok in H as (ks & _ & H).
  injection H as <-. simpl. eauto.
Qed.

(** X17.  [generate_trading_signals] never reports a BUY or a SELL on a
    pyramid the engine has built: it looks for the word ['Strong'] in the
    momentum summary of the first block, and [get_momentum_summary] never
    writes it. *)
Theorem built_pyramids_never_signal self data now py engine :
  build_pyramid_json self data now = Ok py ->
  Engine.latest_pyramid engine = Some py ->
  generate_trading_signals engine = ["No strong signals detected"%string].
Proof.
  intros Hb Hl. unfold generate_trading_signals. rewrite Hl.
  destruct (Pyramid.blocks py) as [|latest rest] eqn:Hblocks; [reflexivity|].
  assert (Hs : contains "Strong" (Block.momentum_summary latest) = false).
  { unfold build_pyramid_json in Hb.
    destruct (Engine.base_tf self) as [base_tf|];
      [|injection Hb as <-; discriminate Hblocks].
    destruct (data !! base_tf) as [[|r df]|];
      [injection Hb as <-; discriminate Hblocks| |injection Hb as <-; discriminate Hblocks].
    apply bind_Ok in Hb as (blocks & Hm & Hb). injection Hb as <-.
    simpl in Hblocks. subst blocks.
    apply mapM_Ok_Forall2 in Hm.
    inversion Hm as [|row b rows bs Hrow _ Hrows Hbs]. subst.
    destruct (block_of_summary _ _ _ _ _ Hrow) as (index & Hsum).
    apply momentum_summary_without_S in Hsum.
    destruct (contains "Strong" (Block.momentum_summary latest)) eqn:Hc; [|reflexivity].
    apply contains_mentions in Hc. congruence. }
  rewrite Hs. reflexivity.
Qed.

Lemma built_pyramids_never_signal_witness :
  generate_trading_signals example_cached_engine = ["No strong signals detected"%string].
Proof.
  apply (built_pyramids_never_signal example_engine example_data 0 (example_pyramid 0));
    vm_compute; reflexivity.
Defined.

(** ** The cache: write, read, clear *)

(** X18.  After [update_symbol_data] for a symbol, the two getters return the
    pyramid and the series just stored for it, without changing the engine,
    the entries of every other symbol are what they were, and
    [latest_pyramid] and [latest_raw_data] follow only when the symbol is the
    current one. *)
Theorem update_then_read self symbol raw_data pyramid_data now :
  let self' := update_symbol_data self symbol raw_data pyramid_data in
  get_pyramid_for_symbol self' symbol now = (pyramid_data, self') /\
  get_raw_data_for_symbol self' symbol = (raw_data, self') /\
  (forall other, other <> symbol ->
     Engine.pyramid_cache self' !! other = Engine.pyramid_cache self !! other /\
     Engine.raw_data_cache self' !! other = Engine.raw_data_cache self !! other) /\
  (Engine.current_symbol self = Some symbol ->
   Engine.latest_pyramid self' = Some pyramid_data /\
   Engine.latest_raw_data self' = raw_data) /\
  (Engine.current_symbol self <> Some symbol ->
   Engine.latest_pyramid self' = Engine.latest_pyramid self /\
   Engine.latest_raw_data self' = Engine.latest_raw_data self).
Proof.
  cbv zeta.
  assert (Hp : Engine.pyramid_cache (update_symbol_data self symbol raw_data pyramid_data)
               = <[symbol := pyramid_data]> (Engine.pyramid_cache self)).
  { unfold update_symbol_data, store_latest. destruct (decide _); reflexivity. }
  assert (Hr : Engine.raw_data_cache (update_symbol_data self symbol raw_data pyramid_data)
               = <[symbol := raw_data]> (Engine.raw_data_cache self)).
  { unfold update_symbol_data, store_latest. destruct (decide _); reflexivity. }
  split; [|split; [|split; [|split]]].
  - unfold get_pyramid_for_symbol. rewrite Hp, lookup_insert_eq. reflexivity.
  - unfold get_raw_data_for_symbol. rewrite Hr, lookup_insert_eq. reflexivity.
  - intros other Hne. rewrite Hp, Hr.
    rewrite !lookup_insert_ne by congruence. auto.
  - intros Hcur. unfold update_symbol_data, store_latest. simpl.
    destruct (decide _) as [_|Hne]; [split; reflexivity | congruence].
  - intros Hcur. unfold update_symbol_data, store_latest. simpl.
    destruct (decide _) as [Heq|_]; [congruence | split; reflexivity].
Qed.

(** X19.  After [clear_symbol_cache] the getters start afresh for the symbol
    (an empty pyramid, empty series), the other symbols keep their entries,
    and [latest_pyramid] and [latest_raw_data] still hold what they held:
    clearing the current symbol does not clear the data the summaries are
    made from. *)
Theorem clear_then_read self symbol now :
  let self' := clear_symbol_cache self symbol in
  fst (get_pyramid_for_symbol self' symbol now)
  = set_symbol symbol (_create_empty_pyramid self now) /\
  fst (get_raw_data_for_symbol self' symbol) = empty_raw_data /\
  (forall other, other <> symbol ->
     Engine.pyramid_cache self' !! other = Engine.pyramid_cache self !! other /\
     Engine.raw_data_cache self' !! other = Engine.raw_data_cache self !! other) /\
  Engine.latest_pyramid self' = Engine.latest_pyramid self /\
  Engine.latest_raw_data self' = Engine.latest_raw_data self.
Proof.
  cbv zeta. unfold clear_symbol_cache. repeat split.
  - unfold get_pyramid_for_symbol. simpl. rewrite lookup_delete_eq. reflexivity.
  - unfold get_raw_data_for_symbol. simpl. rewrite lookup_delete_eq. reflexivity.
  - simpl. apply lookup_delete_ne. congruence.
  - simpl. apply lookup_delete_ne. congruence.
Qed.

(** ** The symbol the terminal is asked for *)

Lemma prefix_app s t : String.prefix s (s ++ t) = true.
Proof.
  induction s as [|c s IH]; simpl; [destruct t; reflexivity|].
  destruct (Ascii.ascii_dec c c); [exact IH | congruence].
Qed.

Lemma contains_app s t : contains s (s ++ t) = true.
Proof.
  destruct s as [|c s]; [destruct t; reflexivity|].
  change (contains (String c s) (String c s ++ t))
    with (String.prefix (String c s) (String c s ++ t) || contains (String c s) (s ++ t)).
  rewrite prefix_app. reflexivity.
Qed.

Lemma contains_refl s : contains s s = true.
Proof.
  assert (H := contains_app s ""). 
  assert (Hs : (s ++ "")%string = s).
  { clear H. induction s as [|c s IH]; [reflexivity|].
    change (String c (s ++ "") = String c s). rewrite IH. reflexivity. }
  rewrite Hs in H. exact H.
Qed.

Lemma existsb_eqb_In (s : string) (l : list string) :
  existsb (String.eqb s) l = true <-> In s l.
Proof.
  rewrite existsb_exists. split.
  - intros (x & Hx & He). apply String.eqb_eq in He. subst. exact Hx.
  - intros H. exists s. split; [exact H | apply String.eqb_refl].
Qed.

(** X20.  The symbol [detect_symbol_suffix] returns contains the requested
    name (slashes removed).  It is the name itself when that is available;
    it is an available symbol whenever some available symbol contains the
    name; and it is the name, unchanged, when none does. *)
Theorem detect_symbol_suffix_result available_symbols base_symbol :
  let name := remove_slashes base_symbol in
  let symbol := detect_symbol_suffix available_symbols base_symbol in
  contains name symbol = true /\
  (In name available_symbols -> symbol = name) /\
  ((exists s, In s available_symbols /\ contains name s = true) ->
   In symbol available_symbols) /\
  ((forall s, In s available_symbols -> contains name s = false) -> symbol = name).
Proof.
  cbv zeta. unfold detect_symbol_suffix.
  set (name := remove_slashes base_symbol).
  destruct (existsb (String.eqb name) available_symbols) eqn:Hexact.
  { apply (proj1 (existsb_eqb_In _ _)) in Hexact.
    repeat split; auto. apply contains_refl. }
  destruct (List.find _ config.SYMBOL_SUFFIXES) as [suffix|] eqn:Hsuffix.
  { apply find_some in Hsuffix as [_ Hsuffix].
    apply (proj1 (existsb_eqb_In _ _)) in Hsuffix.
    split; [apply contains_app|]. split; [|split].
    - intros Hin. apply (proj2 (existsb_eqb_In _ _)) in Hin. congruence.
    - intros _. exact Hsuffix.
    - intros Hnone.
      pose proof (contains_app name suffix) as Hc. rewrite (Hnone _ Hsuffix) in Hc.
      discriminate Hc. }
  destruct (List.find (contains name) available_symbols) as [symbol|] eqn:Hsimilar.
  { apply find_some in Hsimilar as [Hin Hc].
    split; [exact Hc|]. split; [|split].
    - intros Hin'. apply (proj2 (existsb_eqb_In _ _)) in Hin'. congruence.
    - intros _. exact Hin.
    - intros Hnone. rewrite (Hnone _ Hin) in Hc. discriminate Hc. }
  split; [apply contains_refl|]. split; [reflexivity|]. split; [|reflexivity].
  intros (s & Hs & Hc).
  pose proof (find_none _ _ Hsimilar s Hs) as Hn. simpl in Hn. congruence.
Qed.

(** ** What a fetch returns *)

Lemma fold_insert_lookup_In {V} (f : string -> V) (l : list string)
      (m : gmap string V) (k : string) :
  In k l -> fold_left (fun data k' => <[k' := f k']> data) l m !! k = Some (f k).
Proof.
  revert m. induction l as [|k' l IH]; intros m; simpl; [tauto|].
  intros Hin. destruct (in_dec string_dec k l) as [Hl|Hl]; [apply IH; exact Hl|].
  destruct Hin as [->|Hin]; [|contradiction].
  clear IH. revert m Hl. induction l as [|k'' l IH]; intros m Hl; simpl.
  - apply lookup_insert_eq.
  - simpl in Hl. rewrite insert_insert_ne by (intros Heq; apply Hl; left; congruence).
    apply IH. tauto.
Qed.

Lemma fold_insert_lookup_not_In {V} (f : string -> V) (l : list string)
      (m : gmap string V) (k : string) :
  ~ In k l -> fold_left (fun data k' => <[k' := f k']> data) l m !! k = m !! k.
Proof.
  revert m. induction l as [|k' l IH]; intros m Hl; simpl; [reflexivity|].
  simpl in Hl. rewrite IH by tauto. apply lookup_insert_ne. intros Heq. apply Hl. auto.
Qed.

Section Fetched.
Variable TIMEFRAME : string -> option Z.
Variable copy_rates_from_pos : string -> Z -> option (list Candle.t).
Variable copy_rates_from : string -> Z -> option (list Candle.t).
Variable connected : bool.
Variable available_symbols : list string.
Variable utc_offset : Z.

Lemma fetch_timeframe_data_newest_first symbol timeframe df :
  fetch_timeframe_data TIMEFRAME copy_rates_from_pos copy_rates_from connected
    available_symbols utc_offset symbol timeframe = Some df ->
  connected = true /\ df <> [] /\ newest_first (map Candle.time df).
Proof.
  unfold fetch_timeframe_data. destruct connected; [|discriminate]. simpl.
  destruct (TIMEFRAME timeframe) as [mt5_tf|]; [|discriminate].
  destruct (mt5_tf =? 0); [discriminate|]. cbv zeta.
  match goal with
  | |- match ?r with _ => _ end = _ -> _ => destruct r as [[|c rates]|]
  end; try discriminate.
  intros [= <-]. split; [reflexivity|]. split; [|apply fetch_frame_newest_first].
  unfold fetch_frame, sort_values_time_desc. simpl.
  match goal with |- insert_desc ?r ?l <> [] => destruct l; simpl end;
    [discriminate|]. destruct (_ <=? _); discriminate.
Qed.

Lemma fetch_all_timeframes_lookup symbol tf df :
  fetch_all_timeframes TIMEFRAME copy_rates_from_pos copy_rates_from connected
    available_symbols utc_offset symbol !! tf = Some df ->
  In tf config.ALL_TIMEFRAMES /\ newest_first (map Candle.time df) /\
  (connected = false -> df = []).
Proof.
  unfold fetch_all_timeframes. intros Hl.
  destruct (in_dec string_dec tf config.ALL_TIMEFRAMES) as [Hin|Hout].
  - split; [exact Hin|].
    rewrite (fold_insert_lookup_In
               (fun tf_name =>
                  match fetch_timeframe_data TIMEFRAME copy_rates_from_pos copy_rates_from
                          connected available_symbols utc_offset symbol tf_name with
                  | Some df => df
                  | None => []
                  end)) in Hl by exact Hin.
    injection Hl as <-.
    destruct (fetch_timeframe_data _ _ _ _ _ _ symbol tf) as [df|] eqn:Hf.
    + apply fetch_timeframe_data_newest_first in Hf as (Hc & _ & Hs).
      split; [exact Hs | congruence].
    + split; [constructor | reflexivity].
  - rewrite (fold_insert_lookup_not_In
               (fun tf_name =>
                  match fetch_timeframe_data TIMEFRAME copy_rates_from_pos copy_rates_from
                          connected available_symbols utc_offset symbol tf_name with
                  | Some df => df
                  | None => []
                  end)) in Hl by exact Hout.
    rewrite lookup_empty in Hl. discriminate Hl.
Qed.

End Fetched.

(** X21.  [fetch_all_timeframes] returns a frame under each of the six names
    of [ALL_TIMEFRAMES] and under no other name, whatever the terminal does;
    every frame is in descending time order, and every frame is empty when
    the connector is not connected. *)
Theorem fetch_all_timeframes_frames TIMEFRAME copy_rates_from_pos copy_rates_from
        connected available_symbols utc_offset symbol tf :
  let raw_data :=
    fetch_all_timeframes TIMEFRAME copy_rates_from_pos copy_rates_from connected
      available_symbols utc_offset symbol in
  (is_Some (raw_data !! tf) <-> In tf config.ALL_TIMEFRAMES) /\
  (forall df, raw_data !! tf = Some df ->
              newest_first (map Candle.time df) /\ (connected = false -> df = [])).
Proof.
  cbv zeta. split; [split|].
  - intros [df Hdf]. apply fetch_all_timeframes_lookup in Hdf. tauto.
  - intros Hin. unfold fetch_all_timeframes.
    rewrite (fold_insert_lookup_In
               (fun tf_name =>
                  match fetch_timeframe_data TIMEFRAME copy_rates_from_pos copy_rates_from
                          connected available_symbols utc_offset symbol tf_name with
                  | Some df => df
                  | None => []
                  end)) by exact Hin.
    eauto.
  - intros df Hdf. apply fetch_all_timeframes_lookup in Hdf. tauto.
Qed.

(** ** A producer cycle *)

Lemma annotate_lookup raw_data tf rows :
  annotate raw_data !! tf = Some rows ->
  exists df, raw_data !! tf = Some df /\ df <> [] /\
             rows = calculate_momentum_analysis df.
Proof.
  unfold annotate. rewrite lookup_omap.
  destruct (raw_data !! tf) as [[|c df]|]; simpl; try discriminate.
  intros [= <-]. exists (c :: df). split; [reflexivity|]. split; [discriminate | reflexivity].
Qed.

Lemma firstn_newest_first {A} (f : A -> Z) n (l : list A) :
  newest_first (map f l) -> newest_first (map f (firstn n l)).
Proof.
  unfold newest_first. rewrite <- firstn_map. apply StronglySorted_firstn.
Qed.

Lemma iloc_to_newest_first {A} (f : A -> Z) k (l : list A) :
  newest_first (map f l) -> newest_first (map f (iloc_to k l)).
Proof. unfold iloc_to. destruct (0 <=? k); apply firstn_newest_first. Qed.

(** X22.  In a producer cycle (fetch every timeframe, annotate the frames
    that are not empty, build) the root blocks of the pyramid and the
    children of every block come out newest first. *)
Theorem producer_cycle_newest_first TIMEFRAME copy_rates_from_pos copy_rates_from
        connected available_symbols utc_offset symbol self now py :
  build_pyramid_json self
    (annotate (fetch_all_timeframes TIMEFRAME copy_rates_from_pos copy_rates_from
                 connected available_symbols utc_offset symbol)) now = Ok py ->
  newest_first (map Block.time (Pyramid.blocks py)) /\
  (forall k p, in_pyramid py k p -> newest_first (map Block.time (Block.children p))).
Proof.
  set (raw_data := fetch_all_timeframes _ _ _ _ _ _ _).
  intros Hb.
  assert (Hrows : forall tf rows, annotate raw_data !! tf = Some rows ->
                                  newest_first (map ARow.time rows)).
  { intros tf rows Hr. apply annotate_lookup in Hr as (df & Hdf & _ & ->).
    rewrite annotated_times.
    apply fetch_all_timeframes_lookup in Hdf. tauto. }
  split.
  - pose proof (build_pyramid_json_Ok _ _ _ _ Hb) as Hpy.
    destruct (Engine.base_tf self) as [base_tf|]; [|subst py; constructor].
    destruct (annotate raw_data !! base_tf) as [[|r df]|] eqn:Hbase;
      try (subst py; constructor).
    destruct Hpy as (_ & _ & _ & _ & Hf).
    rewrite (Forall2_map_eq ARow.time Block.time _ _
               (Forall2_impl _ _ _ _ Hf (fun row b Hs => proj1 (proj2 (proj1 Hs))))).
    apply iloc_to_newest_first. apply (Hrows base_tf). exact Hbase.
  - intros k p Hp.
    pose proof (in_pyramid_built _ _ _ _ _ _ Hb Hp) as Hbuilt.
    unfold built in Hbuilt.
    change (get_children self (annotate raw_data) (Block.time p) (Block.tf p) k
            = Ok (Block.children p)) in Hbuilt.
    rewrite get_children_unfold in Hbuilt.
    destruct (Engine.pyramid_structure self !! (k + 1)%nat) as [child_tf|];
      [|injection Hbuilt as <-; constructor].
    destruct (annotate raw_data !! child_tf) as [[|r df]|] eqn:Hchild;
      try (injection Hbuilt as <-; constructor).
    destruct (config.TIMEFRAME_DURATIONS !! Block.tf p) as [minutes|]; [|discriminate].
    apply mapM_Ok_Forall2 in Hbuilt.
    rewrite (Forall2_map_eq ARow.time Block.time
               (List.filter (in_range (Block.time p) (Block.time p + 60 * minutes)) (r :: df))
               (Block.children p)).
    + apply StronglySorted_map_filter. apply (Hrows child_tf). exact Hchild.
    + eapply Forall2_impl; [exact Hbuilt|]. intros row c Hc.
      apply block_of_Ok in Hc as [(_ & Ht & _) _]. exact Ht.
Qed.

Lemma producer_cycle_newest_first_witness :
  exists py,
    build_pyramid_json example_engine (annotate example_fetched) 0 = Ok py /\
    newest_first (map Block.time (Pyramid.blocks py)) /\
    (forall k p, in_pyramid py k p -> newest_first (map Block.time (Block.children p))).
Proof.
  eexists. split; [vm_compute; reflexivity|].
  apply (producer_cycle_newest_first example_TIMEFRAME example_copy_rates_from_pos
           example_copy_rates_from true ["EURUSD"%string] 0 "EUR/USD" example_engine 0).
  vm_compute. reflexivity.
Defined.

(** X23.  The chart data of a fetched frame is in chronological order, one
    point per candle of the frame. *)
Theorem fetched_chart_data_chronological TIMEFRAME copy_rates_from_pos copy_rates_from
        connected available_symbols utc_offset symbol timeframe :
  let raw_data :=
    fetch_all_timeframes TIMEFRAME copy_rates_from_pos copy_rates_from connected
      available_symbols utc_offset symbol in
  let chart_data := get_chart_data raw_data timeframe in
  oldest_first (map Point.x chart_data) /\
  (forall df, raw_data !! timeframe = Some df -> length chart_data = length df).
Proof.
  cbv zeta. unfold get_chart_data.
  set (raw_data := fetch_all_timeframes _ _ _ _ _ _ _).
  destruct (raw_data !! timeframe) as [[|c df]|] eqn:Hdf.
  - split; [constructor|]. intros df' [= <-]. reflexivity.
  - split.
    + apply fetch_all_timeframes_lookup in Hdf as (_ & Hs & _).
      rewrite map_rev, map_map. unfold oldest_first.
      rewrite <- (map_id (rev _)).
      apply (StronglySorted_map_mono (fun a b => b >= a) Z.le id);
        [intros a b; unfold id; lia|].
      apply (StronglySorted_rev Z.ge).
      rewrite <- (map_map Candle.time (fun t => t * 1000)).
      apply (StronglySorted_map_mono Z.ge Z.ge); [intros a b; lia | exact Hs].
    + intros df' [= <-]. rewrite length_rev, length_map. reflexivity.
  - split; [constructor|]. intros df' Hdf'. discriminate Hdf'.
Qed.

(** ** The range of the ratios *)

(** X24.  The wick ratio of every row is a number that is not negative; and
    on a candle whose open and close lie between its low and its high the
    body strength is a number between 0 and 1. *)
Theorem ratios_in_range df a :
  In a (calculate_momentum_analysis df) ->
  (exists w, ARow.Wick_Ratio a = Some w /\ (0 <= w)%Q) /\
  (open_in_range (ARow.row a) -> close_in_range (ARow.row a) ->
   exists b, ARow.Body_Strength a = Some b /\ (0 <= b <= 1)%Q).
Proof.
  intros Hin. unfold calculate_momentum_analysis in Hin.
  rewrite Wick_Ratio_col_rows, Body_Strength_col_rows in Hin.
  apply assemble_In in Hin as [Hw Hb].
  rewrite wick_ratio_row_value in Hw. rewrite body_strength_row_value in Hb.
  split.
  - eexists. split; [exact Hw | apply Qabs_nonneg].
  - unfold open_in_range, close_in_range. intros [Hlo Hoh] [Hlc Hch].
    eexists. split; [exact Hb|].
    set (r := ARow.row a) in *.
    pose proof (Qabs_nonneg (Candle.close r - Candle.open r)) as Hn.
    assert (Hle : (Qabs (Candle.close r - Candle.open r) <= Candle.high r - Candle.low r)%Q).
    { apply Qabs_Qle_condition. split; lra. }
    unfold guarded. destruct (Qeq_bool (Candle.high r - Candle.low r) 0) eqn:Hz.
    + apply Qeq_bool_iff in Hz.
      assert (Hzero : (Qabs (Candle.close r - Candle.open r) == 0)%Q) by lra.
      rewrite Hzero. unfold Qdiv. rewrite Qmult_0_l. split; [lra|]. discriminate.
    + apply Qeq_bool_neq in Hz.
      assert (Hpos : (0 < Candle.high r - Candle.low r)%Q) by lra.
      split.
      * apply Qle_shift_div_l; [exact Hpos | lra].
      * apply Qle_shift_div_r; [exact Hpos | lra].
Qed.

Lemma ratios_in_range_witness :
  exists a w b,
    calculate_momentum_analysis [tiny_wick_candle] = [a] /\
    ARow.Wick_Ratio a = Some w /\ (0 <= w)%Q /\
    ARow.Body_Strength a = Some b /\ (0 <= b <= 1)%Q.
Proof.
  destruct (calculate_momentum_analysis [tiny_wick_candle]) as [|a [|a' l]] eqn:Hc;
    try discriminate Hc.
  assert (Hrow : ARow.row a = tiny_wick_candle).
  { pose proof (calculate_momentum_analysis_rows [tiny_wick_candle]) as Hr.
    rewrite Hc in Hr. injection Hr as Hr. exact Hr. }
  destruct (ratios_in_range [tiny_wick_candle] a) as [(w & Hw & Hw0) Hbody];
    [rewrite Hc; left; reflexivity|].
  destruct Hbody as (b & Hb & Hb01).
  - rewrite Hrow. unfold open_in_range. simpl. split; discriminate.
  - rewrite Hrow. unfold close_in_range. simpl. split; discriminate.
  - exists a, w, b. auto.
Defined.

(** ** The stochastic oscillator *)

Lemma rolling_lookup agg w (s r : list (option Q)) i x :
  pd.rolling agg w s = Ok r -> r !! i = Some x ->
  1 <= w /\ (i < length s)%nat /\
  x = match pd.observations (pd.window (Z.to_nat w) i s) with
      | [] => None
      | obs => Some (agg obs)
      end.
Proof.
  unfold pd.rolling. destruct (w <? 1) eqn:Hw; [discriminate|].
  apply Z.ltb_ge in Hw. intros [= <-] Hx.
  change (map ?f ?l) with (f <$> l) in Hx.
  rewrite list_lookup_fmap in Hx.
  destruct (seq 0 (length s) !! i) as [j|] eqn:Hj; [|discriminate].
  apply lookup_seq in Hj as [-> Hi]. simpl in Hx. injection Hx as <-.
  auto.
Qed.

Lemma window_current w i (s : list (option Q)) v :
  (1 <= w)%nat -> s !! i = Some v -> In v (pd.window w i s).
Proof.
  intros Hw Hv. unfold pd.window.
  apply (lookup_In _ (i - (S i - w))).
  rewrite lookup_drop, lookup_take_lt by lia.
  replace (S i - w + (i - (S i - w)))%nat with i by lia. exact Hv.
Qed.

Lemma In_observations (q : Q) (s : list (option Q)) :
  In (Some q) s -> In q (pd.observations s).
Proof.
  unfold pd.observations. induction s as [|[y|] s IH]; simpl; [tauto| |].
  - intros [[= ->]|H]; [left; reflexivity | right; apply IH; exact H].
  - intros [H|H]; [discriminate | apply IH; exact H].
Qed.

Lemma fold_left_min_le (l : list Q) (x : Q) :
  (fold_left (fun m y => if Qltb y m then y else m) l x <= x)%Q /\
  forall y, In y l -> (fold_left (fun m y => if Qltb y m then y else m) l x <= y)%Q.
Proof.
  revert x. induction l as [|z l IH]; intros x; simpl; [split; [lra | tauto]|].
  destruct (Qltb z x) eqn:Hzx.
  - apply Qltb_true in Hzx. destruct (IH z) as [Hz Hl]. split; [lra|].
    intros y [<-|Hy]; [exact Hz | apply Hl; exact Hy].
  - apply Qltb_false in Hzx. destruct (IH x) as [Hx Hl]. split; [exact Hx|].
    intros y [<-|Hy]; [lra | apply Hl; exact Hy].
Qed.

Lemma Qmin_list_le (l : list Q) (y : Q) : In y l -> (pd.Qmin_list l <= y)%Q.
Proof.
  destruct l as [|x l]; simpl; [tauto|].
  destruct (fold_left_min_le l x) as [Hx Hl].
  intros [<-|Hy]; [exact Hx | apply Hl; exact Hy].
Qed.

Lemma fold_left_max_all (l : list Q) (x : Q) :
  forall y, In y l -> (y <= fold_left (fun m y => if Qltb m y then y else m) l x)%Q.
Proof.
  revert x. induction l as [|z l IH]; intros x y; simpl; [tauto|].
  intros [<-|Hy]; [|apply IH; exact Hy].
  destruct (Qltb x z) eqn:Hxz.
  - apply fold_left_max_ge.
  - apply Qltb_false in Hxz. pose proof (fold_left_max_ge l x). lra.
Qed.

Lemma Qmax_list_ge (l : list Q) (y : Q) : In y l -> (y <= pd.Qmax_list l)%Q.
Proof.
  destruct l as [|x l]; simpl; [tauto|].
  intros [<-|Hy]; [apply fold_left_max_ge | apply fold_left_max_all; exact Hy].
Qed.

Lemma lookup_map {A B} (f : A -> B) (l : list A) i : map f l !! i = f <$> (l !! i).
Proof. change (map f l) with (f <$> l). apply list_lookup_fmap. Qed.

Lemma lookup_somes (l : list Q) i x :
  somes l !! i = Some x -> exists q, l !! i = Some q /\ x = Some q.
Proof.
  unfold somes, pd.Series. rewrite lookup_map.
  destruct (l !! i) as [q|]; simpl; [|discriminate]. intros [= <-]. eauto.
Qed.

(** The entry of the %K line on a row: the lowest low and the highest high
    of the window bracket the close of the row. *)
Lemma stoch_k_entry (lo hi c : Q) :
  (lo <= c <= hi)%Q ->
  exists q,
    pd.lift2 Qmult (Some 100%Q)
      (pd.div1 (pd.lift2 Qminus (Some c) (Some lo))
               (pd.replace0 epsilon (pd.lift2 Qminus (Some hi) (Some lo))))
    = Some q /\ (0 <= q <= 100)%Q.
Proof.
  intros [Hlo Hhi]. simpl.
  destruct (Qeq_bool (hi - lo) 0) eqn:Hz.
  - apply Qeq_bool_iff in Hz.
    change (Qeq_bool epsilon 0) with false. cbv iota.
    eexists. split; [reflexivity|].
    assert (Hc : (c - lo == 0)%Q) by lra.
    rewrite Hc. unfold Qdiv. rewrite Qmult_0_l. split; [lra | discriminate].
  - rewrite Hz. eexists. split; [reflexivity|].
    apply Qeq_bool_neq in Hz.
    assert (Hpos : (0 < hi - lo)%Q) by lra.
    assert (H0 : (0 <= (c - lo) / (hi - lo))%Q) by (apply Qle_shift_div_l; lra).
    assert (H1 : ((c - lo) / (hi - lo) <= 1)%Q) by (apply Qle_shift_div_r; lra).
    split; [|lra].
    apply Qmult_le_0_compat; [discriminate | exact H0].
Qed.

Lemma rolling_over_current agg w (l : list Q) (r : list (option Q)) i x :
  pd.rolling agg w (somes l) = Ok r -> r !! i = Some x ->
  exists q obs, l !! i = Some q /\ In q obs /\ x = Some (agg obs).
Proof.
  intros Hr Hx.
  destruct (rolling_lookup _ _ _ _ _ _ Hr Hx) as (Hw & Hi & ->).
  unfold somes in Hi. rewrite length_map in Hi.
  destruct (l !! i) as [q|] eqn:Hq; [|apply lookup_ge_None in Hq; lia].
  assert (Hs : somes l !! i = Some (Some q)).
  { unfold somes, pd.Series. rewrite lookup_map, Hq. reflexivity. }
  pose proof (In_observations q _ (window_current (Z.to_nat w) i _ _ ltac:(lia) Hs)) as Hin.
  exists q, (pd.observations (pd.window (Z.to_nat w) i (somes l))).
  split; [reflexivity|]. split; [exact Hin|].
  destruct (pd.observations _); [destruct Hin | reflexivity].
Qed.

Lemma stoch_k_within_0_100 df w low_min high_max :
  (forall r, In r df -> close_in_range r) ->
  pd.rolling_min w (somes (map Candle.low df)) = Ok low_min ->
  pd.rolling_max w (somes (map Candle.high df)) = Ok high_max ->
  within_0_100
    (mul (scalar 100 low_min)
       (pd.div (pd.sub (somes (close df)) low_min)
          (pd.replace epsilon (pd.sub high_max low_min)))).
Proof.
  intros Hdf Hmin Hmax x Hx.
  apply In_lookup in Hx as (i & Hx).
  unfold mul, scalar, pd.div, pd.sub, pd.replace, pd.Series in *.
  apply lookup_zip_with_Some in Hx as (hundred & ratio & -> & Hh & Hratio).
  rewrite lookup_map in Hh.
  apply lookup_zip_with_Some in Hratio as (num & den & -> & Hnum & Hden).
  apply lookup_zip_with_Some in Hnum as (c & lo & -> & Hc & Hlo).
  rewrite lookup_map in Hden.
  destruct (zip_with (pd.lift2 Qminus) high_max low_min !! i) as [range|] eqn:Hrange;
    [|discriminate]. simpl in Hden. injection Hden as <-.
  apply lookup_zip_with_Some in Hrange as (hi & lo' & -> & Hhi & Hlo').
  rewrite Hlo in Hlo'. injection Hlo' as <-.
  rewrite Hlo in Hh. simpl in Hh. injection Hh as <-.
  destruct (rolling_over_current _ _ _ _ _ _ Hmin Hlo) as (l & lows & Hl & Hlin & ->).
  destruct (rolling_over_current _ _ _ _ _ _ Hmax Hhi) as (h & highs & Hhh & Hhin & ->).
  apply lookup_somes in Hc as (cl & Hcl & ->).
  unfold close in Hcl. rewrite lookup_map in Hl, Hhh, Hcl.
  destruct (df !! i) as [r|] eqn:Hr; [|discriminate].
  simpl in Hl, Hhh, Hcl. injection Hl as <-. injection Hhh as <-. injection Hcl as <-.
  destruct (Hdf r (lookup_In _ _ _ Hr)) as [Hlc Hch].
  apply stoch_k_entry.
  pose proof (Qmin_list_le _ _ Hlin). pose proof (Qmax_list_ge _ _ Hhin).
  split; lra.
Qed.

Lemma stoch_k_column_within_0_100 rolling_std df periods :
  (forall r, In r df -> close_in_range r) ->
  preserves (column_inv "Stoch_%K" (fun c => exists s, c = Floats s /\ within_0_100 s))
    (indicators_body rolling_std df periods).
Proof.
  intros Hdf. unfold indicators_body.
  repeat first
    [ apply preserves_lift_andThen; intros ? ?
    | apply preserves_andThen; [| intros _]
    | apply preserves_for_; intros ? ].
  all: try (apply preserves_assign; intros cols Hc c Hl).
  all: try (rewrite lookup_insert_ne in Hl by (simpl; intros Heq; discriminate Heq);
            apply (Hc c Hl)).
  - rewrite lookup_insert_eq in Hl. injection Hl as <-.
    eexists. split; [reflexivity|].
    eapply stoch_k_within_0_100; eauto.
  - intros cols Hc. simpl. apply column_inv_fill; [|exact Hc].
    intros s (s' & Hs & Hw). injection Hs as <-.
    exists (pd.bfill (pd.ffill s)). split; [reflexivity|].
    rewrite fill_finite; [exact Hw|].
    intros x Hx. destruct (Hw x Hx) as (q & -> & _). eauto.
Qed.

(** X25.  On candles whose close lies between their low and their high,
    every entry of the column [Stoch_%K] that
    [calculate_technical_indicators] produces is a finite number between 0
    and 100, whatever the periods. *)
Theorem stochastic_between_0_and_100 rolling_std df custom_periods s :
  (forall r, In r df -> close_in_range r) ->
  calculate_technical_indicators rolling_std df custom_periods !! "Stoch_%K"%string
  = Some (Floats s) ->
  forall x, In x s -> exists q, x = Some q /\ (0 <= q <= 100)%Q.
Proof.
  intros Hdf. unfold calculate_technical_indicators.
  destruct (len df <? 20); [rewrite lookup_empty; discriminate|].
  intros Hs.
  destruct (stoch_k_column_within_0_100 rolling_std df (_get_periods custom_periods) Hdf ∅
              (column_inv_empty _ _) _ Hs) as (s' & Heq & Hw).
  injection Heq as <-. exact Hw.
Qed.

Lemma stochastic_between_0_and_100_witness :
  length example_stoch_k = 30%nat /\
  Forall (fun x => exists q, x = Some q /\ (0 <= q <= 100)%Q) example_stoch_k.
Proof.
  assert (Hcol : exists s, example_columns !! "Stoch_%K"%string = Some (Floats s) /\
                           length s = 30%nat).
  { vm_compute. eexists. split; reflexivity. }
  destruct Hcol as (s & Hs & Hlen).
  assert (He : example_stoch_k = s) by (unfold example_stoch_k; rewrite Hs; reflexivity).
  rewrite He. split; [exact Hlen|].
  apply List.Forall_forall.
  apply (stochastic_between_0_and_100 example_rolling_std example_m5 None s); [|exact Hs].
  intros r Hr. apply In_lookup in Hr as (i & Hr).
  assert (Hi : (i < 30)%nat) by (apply lookup_lt_Some in Hr; exact Hr).
  do 30 (destruct i as [|i];
         [injection Hr as <-; split; intros Hz; discriminate Hz|]).
  lia.
Defined.

(** ** The candles a pyramid shows *)

Lemma StronglySorted_app_between {A} (R : A -> A -> Prop) (l1 l2 : list A) :
  StronglySorted R (l1 ++ l2) -> forall x y, In x l1 -> In y l2 -> R x y.
Proof.
  induction l1 as [|a l1 IH]; simpl; intros Hs x y Hx Hy; [destruct Hx|].
  apply StronglySorted_inv in Hs as [Hs Ha].
  destruct Hx as [<-|Hx]; [|apply IH; assumption].
  rewrite List.Forall_forall in Ha. apply Ha. apply in_or_app. right. exact Hy.
Qed.

(** X26.  In a producer cycle the root blocks of the pyramid are the
    [extract_count] most recent candles of the base frame, newest first: no
    candle left out is more recent than a candle shown. *)
Theorem producer_cycle_roots_most_recent TIMEFRAME copy_rates_from_pos copy_rates_from
        connected available_symbols utc_offset symbol self now py base_tf df :
  Engine.base_tf self = Some base_tf ->
  fetch_all_timeframes TIMEFRAME copy_rates_from_pos copy_rates_from connected
    available_symbols utc_offset symbol !! base_tf = Some df ->
  0 <= Engine.extract_count self ->
  build_pyramid_json self
    (annotate (fetch_all_timeframes TIMEFRAME copy_rates_from_pos copy_rates_from
                 connected available_symbols utc_offset symbol)) now = Ok py ->
  map Block.time (Pyramid.blocks py)
  = map Candle.time (firstn (Z.to_nat (Engine.extract_count self)) df) /\
  (forall b c,
     In b (Pyramid.blocks py) ->
     In c (skipn (Z.to_nat (Engine.extract_count self)) df) ->
     Candle.time c <= Block.time b).
Proof.
  set (raw_data := fetch_all_timeframes _ _ _ _ _ _ _).
  intros Hbase Hdf Hcount Hb.
  assert (Htimes : map Block.time (Pyramid.blocks py)
                   = map Candle.time (firstn (Z.to_nat (Engine.extract_count self)) df)).
  { apply build_pyramid_json_Ok in Hb. rewrite Hbase in Hb.
    destruct (annotate raw_data !! base_tf) as [rows|] eqn:Hrows.
    - apply annotate_lookup in Hrows as (df' & Hdf' & Hne & ->).
      rewrite Hdf in Hdf'. injection Hdf' as <-.
      destruct (calculate_momentum_analysis df) as [|a rows] eqn:Hrows.
      { apply (f_equal (map ARow.row)) in Hrows.
        rewrite calculate_momentum_analysis_rows in Hrows. contradiction. }
      rewrite <- Hrows in Hb. destruct Hb as (_ & _ & _ & _ & Hf).
      rewrite (Forall2_map_eq ARow.time Block.time _ _
                 (Forall2_impl _ _ _ _ Hf (fun row b Hs => proj1 (proj2 (proj1 Hs))))).
      unfold iloc_to. destruct (0 <=? Engine.extract_count self) eqn:Hle;
        [|apply Z.leb_gt in Hle; lia].
      rewrite <- !firstn_map. rewrite annotated_times. reflexivity.
    - assert (Hdf0 : df = []).
      { unfold annotate in Hrows. rewrite lookup_omap, Hdf in Hrows.
        destruct df; [reflexivity | discriminate Hrows]. }
      subst py df. simpl. destruct (Z.to_nat _); reflexivity. }
  split; [exact Htimes|].
  intros b c Hin Hc.
  apply fetch_all_timeframes_lookup in Hdf as (_ & Hs & _).
  unfold newest_first in Hs.
  rewrite <- (firstn_skipn (Z.to_nat (Engine.extract_count self)) df), map_app in Hs.
  apply Z.ge_le.
  apply (StronglySorted_app_between Z.ge _ _ Hs).
  - rewrite <- Htimes. apply in_map. exact Hin.
  - apply in_map. exact Hc.
Qed.

Lemma producer_cycle_roots_most_recent_witness :
  exists py,
    build_pyramid_json example_engine (annotate example_fetched) 0 = Ok py /\
    map Block.time (Pyramid.blocks py)
    = map Candle.time (firstn 10 (fetch_frame 0 example_d1_rates)).
Proof.
  eexists. split; [vm_compute; reflexivity|].
  apply (producer_cycle_roots_most_recent example_TIMEFRAME example_copy_rates_from_pos
           example_copy_rates_from true ["EURUSD"%string] 0 "EUR/USD" example_engine 0 _
           "D1"%string (fetch_frame 0 example_d1_rates));
    [reflexivity | vm_compute; reflexivity | vm_compute; discriminate
    | vm_compute; reflexivity].
Defined.
